(** * CGoGN_2: chunk arrays, binary OFF export and tetgen import

    A shallow embedding of
    - [cgogn/core/container/chunk_array.h]: [ChunkArray<CHUNKSIZE,T>] and its
      bit-packed specialization [ChunkArray<CHUNKSIZE,bool>];
    - [cgogn/io/map_export.h]: the count record written by [export_off_bin];
    - [cgogn/io/mesh_generation/tetgen_structure_io.h]:
      [TetgenStructureVolumeImport::import_file_impl].

    Conventions.  An [unsigned int] is a [Z] in [0, 2^32) and every
    arithmetic operation of the source on it is followed by [wrap32]; a
    [std::size_t] is 64 bits wide ([wrap64]).  A [std::vector] is a [list],
    read with [!!] and written with [<[_:=_]>]; an access outside the vector
    or outside a chunk is undefined in C++ and is [None] here.  A stream is
    the list of its bytes; [reinterpret_cast<char*>] of an [unsigned int]
    gives its four bytes, least significant first. *)

From Stdlib Require Import ZArith Lia List.
From coqutil Require Import Byte Word.LittleEndianList.
From stdpp Require Import base option list gmap.

Local Open Scope Z_scope.

(** ** Machine integers and byte streams *)

Definition wrap32 (z : Z) : Z := z mod 2 ^ 32.
Definition wrap64 (z : Z) : Z := z mod 2 ^ 64.

(** [~x] on an [unsigned int]. *)
Definition not32 (x : Z) : Z := wrap32 (Z.lnot x).

(** The object representation of an [unsigned int]. *)
Definition u32_bytes (w : Z) : list byte := le_split 4 w.
Definition u32_of_bytes (bs : list byte) : Z := le_combine bs.

(** [fs.read(reinterpret_cast<char*>(nbs), 3*sizeof(unsigned int))] into the
    uninitialised local array [nbs]: with fewer than twelve bytes left the
    array keeps indeterminate values, and the comparison that follows is
    undefined. *)
Definition read_header (fs : list byte) : option (Z * Z * Z * list byte) :=
  if (12 <=? Z.of_nat (length fs)) then
    Some (u32_of_bytes (take 4 fs),
          u32_of_bytes (take 4 (drop 4 fs)),
          u32_of_bytes (take 4 (drop 8 fs)),
          drop 12 fs)
  else None.

(** [fs.read(p, n)] where [p] points to a buffer currently holding [buf]:
    the bytes extracted ([n] of them, or all that are left when the stream
    is shorter) overwrite the front of the buffer; storing them past its
    end is undefined. *)
Definition read_bytes (buf : list byte) (n : Z) (fs : list byte)
  : option (list byte * list byte) :=
  let got := take (Z.to_nat n) fs in
  if (Z.of_nat (length got) <=? Z.of_nat (length buf)) then
    Some (got ++ drop (length got) buf, drop (Z.to_nat n) fs)
  else None.

(** [fs.write(p, n)] where [p] points to a buffer holding [buf]; reading
    past its end is undefined. *)
Definition write_bytes (buf : list byte) (n : Z) : option (list byte) :=
  if (n <=? Z.of_nat (length buf)) then Some (take (Z.to_nat n) buf) else None.

(** ** [ChunkArray<CHUNKSIZE, bool>]: one bit per element *)

Module ChunkArrayBool.
Section WithChunkSize.

(** Template parameter: "size of each chunk, must be a power of 2 >= 32". *)
Variable CHUNKSIZE : Z.

(** A chunk is an [unsigned int[CHUNKSIZE/32]]; [tableData_] is the vector
    of chunks. *)
#[local] Abbreviation chunk := (list Z).
#[local] Abbreviation table := (list (list Z)).

(** [new unsigned int[CHUNKSIZE/32u]()] *)
Definition new_chunk : chunk := replicate (Z.to_nat (CHUNKSIZE / 32)) 0.

Definition addChunk (t : table) : table := t ++ [new_chunk].

Fixpoint addChunks (n : nat) (t : table) : table :=
  match n with
  | O => t
  | S n' => addChunks n' (addChunk t)
  end.

Definition setNbChunks (nbc : Z) (t : table) : table :=
  if (Z.of_nat (length t) <=? nbc) then
    addChunks (Z.to_nat (nbc - Z.of_nat (length t))) t
  else take (Z.to_nat nbc) t.

Definition getNbChunks (t : table) : Z := wrap32 (Z.of_nat (length t)).

(** [static_cast<unsigned int>(tableData_.size())*CHUNKSIZE/32u] *)
Definition capacity (t : table) : Z :=
  wrap32 (wrap32 (Z.of_nat (length t)) * CHUNKSIZE) / 32.

Definition clear (t : table) : table := [].

(** [tableData_[jj][x]] as an rvalue and as the target of an assignment. *)
Definition word_at (t : table) (jj x : Z) : option Z :=
  match t !! Z.to_nat jj with
  | Some c => c !! Z.to_nat x
  | None => None
  end.

Definition store_word (t : table) (jj x w : Z) : option table :=
  match t !! Z.to_nat jj with
  | Some c =>
      match c !! Z.to_nat x with
      | Some _ => Some (<[Z.to_nat jj := <[Z.to_nat x := w]> c]> t)
      | None => None
      end
  | None => None
  end.

Definition setFalse (i : Z) (t : table) : option table :=
  let jj := i / CHUNKSIZE in
  let j := i mod CHUNKSIZE in
  let x := j / 32 in
  let y := j mod 32 in
  let mask := wrap32 (Z.shiftl 1 y) in
  w ← word_at t jj x;
  store_word t jj x (Z.land w (not32 mask)).

Definition setTrue (i : Z) (t : table) : option table :=
  let jj := i / CHUNKSIZE in
  let j := i mod CHUNKSIZE in
  let x := j / 32 in
  let y := j mod 32 in
  let mask := wrap32 (Z.shiftl 1 y) in
  w ← word_at t jj x;
  store_word t jj x (Z.lor w mask).

Definition setVal (i : Z) (b : bool) (t : table) : option table :=
  let jj := i / CHUNKSIZE in
  let j := i mod CHUNKSIZE in
  let x := j / 32 in
  let y := j mod 32 in
  let mask := wrap32 (Z.shiftl 1 y) in
  w ← word_at t jj x;
  if b then store_word t jj x (Z.lor w mask)
  else store_word t jj x (Z.land w (not32 mask)).

Definition setFalseDirty (i : Z) (t : table) : option table :=
  let jj := i / CHUNKSIZE in
  let j := (i mod CHUNKSIZE) / 32 in
  store_word t jj j 0.

(** [bool operator[](unsigned int i) const] *)
Definition operator_index (t : table) (i : Z) : option bool :=
  let jj := i / CHUNKSIZE in
  let j := i mod CHUNKSIZE in
  let x := j / 32 in
  let y := j mod 32 in
  let mask := wrap32 (Z.shiftl 1 y) in
  w ← word_at t jj x;
  Some (negb (Z.land w mask =? 0)).

Definition initElt (id : Z) (t : table) : option table := setFalse id t.

Definition copyElt (dst src : Z) (t : table) : option table :=
  b ← operator_index t src; setVal dst b t.

Definition swapElt (id1 id2 : Z) (t : table) : option table :=
  data ← operator_index t id1;
  b2 ← operator_index t id2;
  t1 ← setVal id1 b2 t;
  setVal id2 data t1.

(** *** Persistence *)

(** The raw memory of a chunk, and a chunk of [n] words rebuilt from raw
    memory. *)
Definition chunk_bytes (c : chunk) : list byte := flat_map u32_bytes c.

Fixpoint chunk_of_bytes (n : nat) (bs : list byte) : chunk :=
  match n with
  | O => []
  | S n' => u32_of_bytes (take 4 bs) :: chunk_of_bytes n' (drop 4 bs)
  end.

(** The calls of [fs.write] that [save] issues, in order: the three-word
    array [nbs], then [tableData_[idx]] with a byte count. *)
Inductive write_req : Type :=
| WriteHeader (nbs0 nbs1 nbs2 : Z)
| WriteChunk (idx : Z) (nbytes : Z).

(** [if (nbLines%32u) nbLines = ((nbLines/32u)+1u)*32u;] *)
Definition round_nbLines (nbLines : Z) : Z :=
  if (nbLines mod 32 =? 0) then nbLines
  else wrap32 (wrap32 (nbLines / 32 + 1) * 32).

Definition save_requests (t : table) (nbLines : Z) : list write_req :=
  let nbLines := round_nbLines nbLines in
  let nbs0 := wrap32 (Z.of_nat (length t)) in
  let nbs1 := nbLines in
  let nbs2 := CHUNKSIZE / 8 in
  WriteHeader nbs0 nbs1 nbs2 ::
  if (nbs0 =? 0) then []
  else
    let nbca := wrap32 (nbs0 - 1) in
    let nbl := wrap32 (nbLines - wrap32 (nbca * CHUNKSIZE) / 8) in
    map (fun i => WriteChunk i (CHUNKSIZE / 8)) (seqZ 0 nbca)
      ++ [WriteChunk nbca (nbl / 8)].

Definition run_write (t : table) (r : write_req) : option (list byte) :=
  match r with
  | WriteHeader nbs0 nbs1 nbs2 =>
      Some (u32_bytes nbs0 ++ u32_bytes nbs1 ++ u32_bytes nbs2)
  | WriteChunk idx nbytes =>
      c ← t !! Z.to_nat idx; write_bytes (chunk_bytes c) nbytes
  end.

(** [assert(nbLines/CHUNKSIZE <= tableData_.size())], on the rounded
    [nbLines]. *)
Definition save_assert (t : table) (nbLines : Z) : bool :=
  round_nbLines nbLines / CHUNKSIZE <=? Z.of_nat (length t).

Definition save (t : table) (nbLines : Z) : option (list byte) :=
  if save_assert t nbLines then
    bss ← mapM (run_write t) (save_requests t nbLines); Some (concat bss)
  else None.

(** [fs.read(reinterpret_cast<char*>(tableData_[idx]), n)] *)
Definition read_chunk (t : table) (idx n : Z) (fs : list byte)
  : option (table * list byte) :=
  c ← t !! Z.to_nat idx;
  r ← read_bytes (chunk_bytes c) n fs;
  Some (<[Z.to_nat idx := chunk_of_bytes (length c) r.1]> t, r.2).

Fixpoint read_chunks (idxs : list Z) (n : Z) (t : table) (fs : list byte)
  : option (table * list byte) :=
  match idxs with
  | [] => Some (t, fs)
  | i :: idxs' =>
      r ← read_chunk t i n fs; read_chunks idxs' n r.1 r.2
  end.

(** [load] returns its boolean, the new [tableData_] and the rest of the
    stream. *)
Definition load (fs : list byte) (t : table)
  : option (bool * table * list byte) :=
  h ← read_header fs;
  let '(nbs0, nbs1, nbs2, fs1) := h in
  if negb (nbs2 =? CHUNKSIZE / 8) then Some (false, t, fs1)
  else
    let t1 := setNbChunks nbs0 t in
    if (nbs0 =? 0) then Some (true, t1, fs1)
    else
      let nbca := wrap32 (nbs0 - 1) in
      r ← read_chunks (seqZ 0 nbca) (CHUNKSIZE / 8) t1 fs1;
      let nbl := wrap32 (nbs1 - wrap32 (nbca * CHUNKSIZE) / 8) in
      r' ← read_chunk r.1 nbca (nbl / 8) r.2;
      Some (true, r'.1, r'.2).

(** Every chunk was allocated by [addChunk]. *)
Definition wf (t : table) : Prop :=
  Forall (fun c : chunk => length c = Z.to_nat (CHUNKSIZE / 32)) t.

(** *** The persistence scenario: one chunk, 70 lines, elements 0, 31, 32,
    33 and 69 set *)

Definition set_positions : list Z := [0; 31; 32; 33; 69].

Definition seventy_lines : option table :=
  t0 ← setTrue 0 (setNbChunks 1 []);
  t1 ← setTrue 31 t0;
  t2 ← setTrue 32 t1;
  t3 ← setTrue 33 t2;
  setTrue 69 t3.

End WithChunkSize.

(** The column of the scenario when a chunk has [3 + m] words, the bytes
    [save] takes from it, and the element read from its first three
    words. *)
Definition seventy_words (m : nat) : list (list Z) :=
  [2147483649 :: 3 :: 32 :: replicate m 0].

Definition seventy_data : list byte :=
  u32_bytes 2147483649 ++ u32_bytes 3 ++ u32_bytes 32.

Definition read_three_words (i : Z) : option bool :=
  w ← [2147483649; 3; 32] !! Z.to_nat (i / 32);
  Some (negb (Z.land w (wrap32 (Z.shiftl 1 (i mod 32))) =? 0)).

End ChunkArrayBool.

(** ** [ChunkArray<CHUNKSIZE, T>] for an element type of fixed size *)

(** What the column code uses of [T]: [sizeof(T)], value-initialisation
    [T()], and the object representation that [reinterpret_cast<char*>]
    exposes to [fs.write] and [fs.read]. *)
Class FixedSize (T : Type) : Type := {
  sizeof : Z;
  value_init : T;
  object_bytes : T -> list byte;
  of_object_bytes : list byte -> T;
  sizeof_pos : 0 < sizeof;
  object_bytes_length : forall x, Z.of_nat (length (object_bytes x)) = sizeof;
  of_object_bytes_bytes : forall x, of_object_bytes (object_bytes x) = x
}.

(** [unsigned char] *)
#[export] Program Instance FixedSize_uchar : FixedSize byte := {|
  sizeof := 1;
  value_init := Byte.x00;
  object_bytes := fun b => [b];
  of_object_bytes := fun bs => match bs with b :: _ => b | [] => Byte.x00 end
|}.
Next Obligation. reflexivity. Defined.
Next Obligation. reflexivity. Defined.
Next Obligation. reflexivity. Defined.

(** A struct of four [unsigned char]. *)
#[export] Program Instance FixedSize_uchar4
  : FixedSize (byte * byte * byte * byte) := {|
  sizeof := 4;
  value_init := (Byte.x00, Byte.x00, Byte.x00, Byte.x00);
  object_bytes := fun '(a, b, c, d) => [a; b; c; d];
  of_object_bytes := fun bs =>
    (nth 0 bs Byte.x00, nth 1 bs Byte.x00, nth 2 bs Byte.x00,
     nth 3 bs Byte.x00)
|}.
Next Obligation. reflexivity. Defined.
Next Obligation. intros [[[a b] c] d]. reflexivity. Defined.
Next Obligation. intros [[[a b] c] d]. reflexivity. Defined.

Module ChunkArray.
Section WithChunkSize.

Variable CHUNKSIZE : Z.
Context {T : Type} `{FixedSize T}.

(** A chunk is a [T[CHUNKSIZE]]; [tableData_] is the vector of chunks. *)
#[local] Abbreviation chunk := (list T).
#[local] Abbreviation table := (list (list T)).

(** [new T[CHUNKSIZE]()] *)
Definition new_chunk : chunk := replicate (Z.to_nat CHUNKSIZE) value_init.

Definition addChunk (t : table) : table := t ++ [new_chunk].

Fixpoint addChunks (n : nat) (t : table) : table :=
  match n with
  | O => t
  | S n' => addChunks n' (addChunk t)
  end.

Definition setNbChunks (nbc : Z) (t : table) : table :=
  if (Z.of_nat (length t) <=? nbc) then
    addChunks (Z.to_nat (nbc - Z.of_nat (length t))) t
  else take (Z.to_nat nbc) t.

Definition getNbChunks (t : table) : Z := wrap32 (Z.of_nat (length t)).

(** [static_cast<unsigned int>(tableData_.size())*CHUNKSIZE] *)
Definition capacity (t : table) : Z :=
  wrap32 (wrap32 (Z.of_nat (length t)) * CHUNKSIZE).

Definition clear (t : table) : table := [].

(** [tableData_[i / CHUNKSIZE][i % CHUNKSIZE]] *)
Definition operator_index (t : table) (i : Z) : option T :=
  match t !! Z.to_nat (i / CHUNKSIZE) with
  | Some c => c !! Z.to_nat (i mod CHUNKSIZE)
  | None => None
  end.

Definition setVal (i : Z) (v : T) (t : table) : option table :=
  match t !! Z.to_nat (i / CHUNKSIZE) with
  | Some c =>
      match c !! Z.to_nat (i mod CHUNKSIZE) with
      | Some _ =>
          Some (<[Z.to_nat (i / CHUNKSIZE) :=
                    <[Z.to_nat (i mod CHUNKSIZE) := v]> c]> t)
      | None => None
      end
  | None => None
  end.

Definition initElt (id : Z) (t : table) : option table :=
  setVal id value_init t.

Definition copyElt (dst src : Z) (t : table) : option table :=
  v ← operator_index t src; setVal dst v t.

Definition swapElt (id1 id2 : Z) (t : table) : option table :=
  v1 ← operator_index t id1;
  v2 ← operator_index t id2;
  t1 ← setVal id1 v2 t;
  setVal id2 v1 t1.

(** [CHUNKSIZE*sizeof(T)], a [std::size_t]. *)
Definition chunk_byte_size : Z := wrap64 (CHUNKSIZE * sizeof).

(** *** Persistence *)

Definition chunk_bytes (c : chunk) : list byte := flat_map object_bytes c.

Fixpoint chunk_of_bytes (n : nat) (bs : list byte) : chunk :=
  match n with
  | O => []
  | S n' =>
      of_object_bytes (take (Z.to_nat sizeof) bs)
        :: chunk_of_bytes n' (drop (Z.to_nat sizeof) bs)
  end.

Inductive write_req : Type :=
| WriteHeader (nbs0 nbs1 nbs2 : Z)
| WriteChunk (idx : Z) (nbytes : Z).

Definition save_requests (t : table) (nbLines : Z) : list write_req :=
  let nbs0 := wrap32 (Z.of_nat (length t)) in
  let nbs1 := nbLines in
  let nbs2 := wrap32 chunk_byte_size in
  WriteHeader nbs0 nbs1 nbs2 ::
  if (nbs0 =? 0) then []
  else
    let nbca := wrap32 (nbs0 - 1) in
    let nbl := wrap32 (nbLines - wrap32 (nbca * CHUNKSIZE)) in
    map (fun i => WriteChunk i chunk_byte_size) (seqZ 0 nbca)
      ++ [WriteChunk nbca (wrap64 (nbl * sizeof))].

Definition run_write (t : table) (r : write_req) : option (list byte) :=
  match r with
  | WriteHeader nbs0 nbs1 nbs2 =>
      Some (u32_bytes nbs0 ++ u32_bytes nbs1 ++ u32_bytes nbs2)
  | WriteChunk idx nbytes =>
      c ← t !! Z.to_nat idx; write_bytes (chunk_bytes c) nbytes
  end.

(** [assert(nbLines/CHUNKSIZE <= tableData_.size())] *)
Definition save_assert (t : table) (nbLines : Z) : bool :=
  nbLines / CHUNKSIZE <=? Z.of_nat (length t).

Definition save (t : table) (nbLines : Z) : option (list byte) :=
  if save_assert t nbLines then
    bss ← mapM (run_write t) (save_requests t nbLines); Some (concat bss)
  else None.

Definition read_chunk (t : table) (idx n : Z) (fs : list byte)
  : option (table * list byte) :=
  c ← t !! Z.to_nat idx;
  r ← read_bytes (chunk_bytes c) n fs;
  Some (<[Z.to_nat idx := chunk_of_bytes (length c) r.1]> t, r.2).

Fixpoint read_chunks (idxs : list Z) (n : Z) (t : table) (fs : list byte)
  : option (table * list byte) :=
  match idxs with
  | [] => Some (t, fs)
  | i :: idxs' =>
      r ← read_chunk t i n fs; read_chunks idxs' n r.1 r.2
  end.

Definition load (fs : list byte) (t : table)
  : option (bool * table * list byte) :=
  h ← read_header fs;
  let '(nbs0, nbs1, nbs2, fs1) := h in
  if negb (nbs2 =? chunk_byte_size) then Some (false, t, fs1)
  else
    let t1 := setNbChunks nbs0 t in
    if (nbs0 =? 0) then Some (true, t1, fs1)
    else
      let nbca := wrap32 (nbs0 - 1) in
      r ← read_chunks (seqZ 0 nbca) chunk_byte_size t1 fs1;
      let nbl := wrap32 (nbs1 - wrap32 (CHUNKSIZE * nbca)) in
      r' ← read_chunk r.1 nbca (wrap64 (nbl * sizeof)) r.2;
      Some (true, r'.1, r'.2).

(** Every chunk was allocated by [addChunk]. *)
Definition wf (t : table) : Prop :=
  Forall (fun c : chunk => length c = Z.to_nat CHUNKSIZE) t.

End WithChunkSize.
End ChunkArray.

(** ** [export_off_bin]: the prologue of a binary OFF file *)

Module MapExport.
Section WithMap.

(** The map and [swap_endianness_native_big] ([core/utils/endian.h]) are
    used through their interface only. *)
Variable MAP : Type.
Variable nb_cells_Vertex : MAP -> Z.
Variable nb_cells_Face : MAP -> Z.
Variable swap_endianness_native_big : Z -> Z.

(** ["OFF BINARY"] followed by [std::endl]. *)
Definition off_binary_magic : list byte :=
  [Byte.x4f; Byte.x46; Byte.x46; Byte.x20; Byte.x42; Byte.x49; Byte.x4e;
   Byte.x41; Byte.x52; Byte.x59; Byte.x0a].

(** The local array [uint32 nb_cells[3]] once filled. *)
Definition export_off_bin_nb_cells (map : MAP) : Z * Z * Z :=
  let nb_cells0 := wrap32 (swap_endianness_native_big (nb_cells_Vertex map)) in
  let nb_cells1 := wrap32 (swap_endianness_native_big (nb_cells_Vertex map)) in
  let nb_cells2 := 0 in
  (nb_cells0, nb_cells1, nb_cells2).

(** What [export_off_bin] has written to [fp] when it starts its first
    traversal of the map; [None] when the file could not be opened and the
    function returns [false]. *)
Definition export_off_bin_prologue (fp_good : bool) (map : MAP)
  : option (list byte) :=
  if negb fp_good then None
  else
    let '(nb_cells0, nb_cells1, nb_cells2) := export_off_bin_nb_cells map in
    Some (off_binary_magic
            ++ u32_bytes nb_cells0 ++ u32_bytes nb_cells1 ++ u32_bytes nb_cells2).

End WithMap.
End MapExport.

(** ** [TetgenStructureVolumeImport::import_file_impl] *)

Module TetgenStructureIO.
Section WithVolumeImport.

(** [float64], the vector type [VEC3], and the members of
    [VolumeImport<MAP_TRAITS>] other than its two counters
    ([volumes_types], [volumes_vertex_indices_], [vertex_attributes_]). *)
Context {float64 VEC3 Base : Type}.

(** The fields of [tetgenio] that the importer reads. *)
Record tetgenio : Type := {
  firstnumber : Z;
  numberofpoints : Z;
  pointlist : list float64;
  numberoftetrahedra : Z;
  tetrahedronlist : list Z
}.

(** The calls made on the base class and on the vertex container. *)
Inductive call : Type :=
| CallClear
| CallAddAttributePosition
| CallInsertLines (id : Z)
| CallSetPosition (id : Z) (P : VEC3)
| CallAddTetra (p0 p1 p2 p3 : Z) (check_orientation : bool).

Record importer : Type := {
  nb_vertices_ : Z;
  nb_volumes_ : Z;
  base : Base;
  calls : list call
}.

(** [VolumeImport<MAP_TRAITS>] ([io/volume_import.h]) and the attribute
    container are used through their interface: the container and column
    operations act on the members in [Base], [clear] on the whole
    importer.  [make_VEC3 p0 p1 p2] is
    [VEC3(Scalar(p0), Scalar(p1), Scalar(p2))]. *)
Class VolumeImport : Type := {
  make_VEC3 : float64 -> float64 -> float64 -> VEC3;
  base_add_attribute_position : Base -> Base;
  base_insert_lines_1 : Base -> Z * Base;
  base_set_position : Z -> VEC3 -> Base -> Base;
  base_add_tetra : Z -> Z -> Z -> Z -> bool -> Base -> Base;
  base_clear : importer -> importer
}.

Context `{VolumeImport}.

(** State and undefined behaviour. *)
Definition M (A : Type) : Type := importer -> option (A * importer).

#[local] Instance M_ret : MRet M := fun A (a : A) s => Some (a, s).

#[local] Instance M_bind : MBind M := fun A B (k : A -> M B) (m : M A) s =>
  match m s with
  | Some (a, s') => k a s'
  | None => None
  end.

Definition get_nb_vertices : M Z := fun s => Some (nb_vertices_ s, s).
Definition get_nb_volumes : M Z := fun s => Some (nb_volumes_ s, s).

Definition set_nb_vertices (n : Z) : M unit := fun s =>
  Some (tt, {| nb_vertices_ := n; nb_volumes_ := nb_volumes_ s;
               base := base s; calls := calls s |}).

Definition set_nb_volumes (n : Z) : M unit := fun s =>
  Some (tt, {| nb_vertices_ := nb_vertices_ s; nb_volumes_ := n;
               base := base s; calls := calls s |}).

Definition on_base {A} (c : A -> call) (f : Base -> A * Base) : M A :=
  fun s =>
    let r := f (base s) in
    Some (r.1, {| nb_vertices_ := nb_vertices_ s; nb_volumes_ := nb_volumes_ s;
                  base := r.2; calls := calls s ++ [c r.1] |}).

Definition clear : M unit := fun s =>
  let s' := base_clear s in
  Some (tt, {| nb_vertices_ := nb_vertices_ s'; nb_volumes_ := nb_volumes_ s';
               base := base s'; calls := calls s ++ [CallClear] |}).

Definition add_attribute_position : M unit :=
  on_base (fun _ => CallAddAttributePosition)
          (fun b => (tt, base_add_attribute_position b)).

Definition insert_lines_1 : M Z :=
  on_base CallInsertLines base_insert_lines_1.

Definition set_position (id : Z) (P : VEC3) : M unit :=
  on_base (fun _ => CallSetPosition id P)
          (fun b => (tt, base_set_position id P b)).

Definition add_tetra (p0 p1 p2 p3 : Z) (check : bool) : M unit :=
  on_base (fun _ => CallAddTetra p0 p1 p2 p3 check)
          (fun b => (tt, base_add_tetra p0 p1 p2 p3 check b)).

(** [a[k]] on a C array or a [std::vector]; outside it the access is
    undefined. *)
Definition index {A} (a : list A) (k : Z) : M A := fun s =>
  if (k <? 0) then None
  else match a !! Z.to_nat k with
       | Some x => Some (x, s)
       | None => None
       end.

(** The first loop, with [n] iterations left, [p] the offset of the
    pointer [p] in [pointlist]. *)
Fixpoint create_vertices (n : nat) (pts : list float64) (p : Z)
    (vertices_indices : list Z) : M (list Z) :=
  match n with
  | O => mret vertices_indices
  | S n' =>
      id ← insert_lines_1;
      p0 ← index pts p;
      p1 ← index pts (p + 1);
      p2 ← index pts (p + 2);
      set_position id (make_VEC3 p0 p1 p2);;
      create_vertices n' pts (p + 3) (vertices_indices ++ [id])
  end.

(** The second loop, [t] the offset of the pointer [t] in
    [tetrahedronlist]. *)
Fixpoint create_tetrahedrons (n : nat) (tets : list Z) (first : Z) (t : Z)
    (vertices_indices : list Z) : M unit :=
  match n with
  | O => mret tt
  | S n' =>
      t0 ← index tets t;
      ids0 ← index vertices_indices (t0 - first);
      t1 ← index tets (t + 1);
      ids1 ← index vertices_indices (t1 - first);
      t2 ← index tets (t + 2);
      ids2 ← index vertices_indices (t2 - first);
      t3 ← index tets (t + 3);
      ids3 ← index vertices_indices (t3 - first);
      add_tetra ids0 ids1 ids2 ids3 true;;
      create_tetrahedrons n' tets first (t + 4) vertices_indices
  end.

(** The two [reserve] calls change the capacity of vectors only and are
    left out. *)
Definition import_file_impl (volume_ : tetgenio) : M bool :=
  set_nb_vertices (wrap32 (numberofpoints volume_));;
  set_nb_volumes (wrap32 (numberoftetrahedra volume_));;
  nbv ← get_nb_vertices;
  nbw ← get_nb_volumes;
  if (nbv =? 0) || (nbw =? 0) then
    clear;; mret false
  else
    add_attribute_position;;
    nbv ← get_nb_vertices;
    vertices_indices ← create_vertices (Z.to_nat nbv) (pointlist volume_) 0 [];
    nbw ← get_nb_volumes;
    create_tetrahedrons (Z.to_nat nbw) (tetrahedronlist volume_)
      (firstnumber volume_) 0 vertices_indices;;
    mret true.

(** Counting calls in a log. *)
Definition is_insert_lines (c : call) : bool :=
  match c with CallInsertLines _ => true | _ => false end.

Definition is_add_tetra (c : call) : bool :=
  match c with CallAddTetra _ _ _ _ _ => true | _ => false end.

Definition nb_insert_lines (l : list call) : Z :=
  Z.of_nat (length (List.filter is_insert_lines l)).

Definition nb_add_tetra (l : list call) : Z :=
  Z.of_nat (length (List.filter is_add_tetra l)).

(** A run from [s] to [s'] has added [log] to the calls and left the
    counters untouched. *)
Definition extends (s s' : importer) (log : list call) : Prop :=
  nb_vertices_ s' = nb_vertices_ s /\ nb_volumes_ s' = nb_volumes_ s /\
  calls s' = calls s ++ log.

(** A tetgen output whose arrays have the announced sizes and whose
    tetrahedra name existing points. *)
Definition tetgen_wf (v : tetgenio) : Prop :=
  0 <= numberofpoints v < 2 ^ 31 /\
  0 <= numberoftetrahedra v < 2 ^ 31 /\
  Z.of_nat (length (pointlist v)) = 3 * numberofpoints v /\
  Z.of_nat (length (tetrahedronlist v)) = 4 * numberoftetrahedra v /\
  Forall (fun k => firstnumber v <= k < firstnumber v + numberofpoints v)
         (tetrahedronlist v).

End WithVolumeImport.

(** A small base class for running the importer: coordinates are integers,
    [Base] counts the lines of the vertex container, [insert_lines<1>]
    returns the next line, [clear] resets the counters. *)
Definition line_counter : @VolumeImport Z (Z * Z * Z) Z := {|
  make_VEC3 := fun p0 p1 p2 => (p0, p1, p2);
  base_add_attribute_position := fun b => b;
  base_insert_lines_1 := fun b => (b, b + 1);
  base_set_position := fun _ _ b => b;
  base_add_tetra := fun _ _ _ _ _ b => b;
  base_clear := fun s =>
    {| nb_vertices_ := 0; nb_volumes_ := 0; base := 0; calls := calls s |}
|}.

(** One tetrahedron on four points, numbered from 1. *)
Definition one_tetrahedron : @tetgenio Z := {|
  firstnumber := 1;
  numberofpoints := 4;
  pointlist := [0; 0; 0; 1; 0; 0; 0; 1; 0; 0; 0; 1];
  numberoftetrahedra := 1;
  tetrahedronlist := [1; 2; 3; 4]
|}.

Definition empty_importer : @importer (Z * Z * Z) Z :=
  {| nb_vertices_ := 0; nb_volumes_ := 0; base := 0; calls := [] |}.

End TetgenStructureIO.

(** ** The two traversals shared by the surface exporters

    [export_off], [export_off_bin], [export_obj], [export_ply] and
    [export_ply_bin] all number the vertices in a first traversal of the
    faces and write the faces in a second one.  A map is seen through
    [foreach_cell] on faces and [foreach_incident_vertex]: the list of its
    faces, each the list of the embedding indices of its vertices.  [ids] is
    the attribute ["indices"], read at a vertex index. *)

Module MapExportPasses.

Definition UINT_MAX : Z := 4294967295.

(** [static const uint32 BUFFER_SZ = 1024*1024;] *)
Definition BUFFER_SZ : Z := 1024 * 1024.

(** [ids[v]] after [ids.set_all_container_values(UINT_MAX)] and the
    assignments recorded in [ids]. *)
Definition ids_at (ids : gmap Z Z) (v : Z) : Z := default UINT_MAX (ids !! v).

(** The body of the inner lambda of the first pass:
    [if (ids[v]==UINT_MAX) { ids[v] = count++; ... write position[v] ... }].
    The state is [ids], [count] and the vertices whose position has been
    written, in writing order. *)
Definition visit_vertex (st : gmap Z Z * Z * list Z) (v : Z)
  : gmap Z Z * Z * list Z :=
  let '(ids, count, written) := st in
  if (ids_at ids v =? UINT_MAX) then
    (<[v := count]> ids, wrap32 (count + 1), written ++ [v])
  else st.

(** The first pass; [count0] is the initial value of [count], 0 for OFF and
    PLY, 1 for OBJ. *)
Definition first_pass (count0 : Z) (faces : list (list Z))
  : gmap Z Z * Z * list Z :=
  foldl (fun st f => foldl visit_vertex st f) (∅, count0, []) faces.

(** The state of the first pass once the vertices [l] have been visited:
    the positions written are those of the distinct vertices of [l] in
    first-seen order, each numbered by its rank from [count0]. *)
Definition numbered (count0 : Z) (l : list Z)
    (st : gmap Z Z * Z * list Z) : Prop :=
  let '(ids, count, written) := st in
  written = reverse (remove_dups (reverse l)) /\
  count = count0 + Z.of_nat (length written) /\
  (length written <= length l)%nat /\
  (forall k v, written !! k = Some v ->
               ids !! v = Some (count0 + Z.of_nat k)) /\
  (forall v, v ∉ written -> ids !! v = None).

(** The second pass on one face: [valence] and [prim]. *)
Definition face_prim (ids : gmap Z Z) (f : list Z) : Z * list Z :=
  (wrap32 (Z.of_nat (length f)), map (ids_at ids) f).

Section WithEndianness.

Variable swap_endianness_native_big : Z -> Z.

(** The words one face adds to [buffer_prims] in [export_off_bin]. *)
Definition face_words (ids : gmap Z Z) (f : list Z) : list Z :=
  let '(valence, prim) := face_prim ids f in
  wrap32 (swap_endianness_native_big valence)
    :: map (fun i => wrap32 (swap_endianness_native_big i)) prim.

(** The body of the outer lambda of the second pass of [export_off_bin]; the
    state is [buffer_prims] and what has been written to [fp]. *)
Definition buffer_face (ids : gmap Z Z) (st : list Z * list byte)
    (f : list Z) : list Z * list byte :=
  let '(buffer_prims, fp) := st in
  let buffer_prims := buffer_prims ++ face_words ids f in
  if (BUFFER_SZ <=? Z.of_nat (length buffer_prims)) then
    ([], fp ++ flat_map u32_bytes buffer_prims)
  else (buffer_prims, fp).

(** The second pass of [export_off_bin] with its final flush. *)
Definition second_pass_bin (ids : gmap Z Z) (faces : list (list Z))
    (fp : list byte) : list byte :=
  let '(buffer_prims, fp) := foldl (buffer_face ids) ([], fp) faces in
  match buffer_prims with
  | [] => fp
  | _ :: _ => fp ++ flat_map u32_bytes buffer_prims
  end.

End WithEndianness.

End MapExportPasses.

(** ** The calls [import_file_impl] is expected to make *)

Module TetgenCalls.
Import TetgenStructureIO.

Fixpoint triples {A : Type} (l : list A) : list (A * A * A) :=
  match l with
  | a :: b :: c :: l' => (a, b, c) :: triples l'
  | _ => []
  end.

Fixpoint quads {A : Type} (l : list A) : list (A * A * A * A) :=
  match l with
  | a :: b :: c :: d :: l' => (a, b, c, d) :: quads l'
  | _ => []
  end.

Section WithVolumeImport.

Context {float64 VEC3 Base : Type} `{VI : @VolumeImport float64 VEC3 Base}.

(** One line inserted per point, then its position set. *)
Definition vertex_calls (ids : list Z) (pts : list float64)
  : list (@call VEC3) :=
  flat_map (fun '(id, (p0, p1, p2)) =>
              [CallInsertLines id; CallSetPosition id (make_VEC3 p0 p1 p2)])
           (zip ids (triples pts)).

(** [vertices_indices[k - firstnumber]] *)
Definition corner (ids : list Z) (first k : Z) : Z :=
  default 0 (ids !! Z.to_nat (k - first)).

(** One tetrahedron added per quadruple, on the lines of its points. *)
Definition tetra_calls (ids : list Z) (first : Z) (tets : list Z)
  : list (@call VEC3) :=
  map (fun '(t0, t1, t2, t3) =>
         CallAddTetra (corner ids first t0) (corner ids first t1)
           (corner ids first t2) (corner ids first t3) true)
      (quads tets).

End WithVolumeImport.

End TetgenCalls.

(** * Properties *)

(** ** Arithmetic of 32-bit words *)

Lemma wrap32_small (z : Z) : 0 <= z < 2 ^ 32 -> wrap32 z = z.
Proof. intros Hz. unfold wrap32. apply Z.mod_small. exact Hz. Qed.

Lemma wrap64_small (z : Z) : 0 <= z < 2 ^ 64 -> wrap64 z = z.
Proof. intros Hz. unfold wrap64. apply Z.mod_small. exact Hz. Qed.

(** ** Reading from a stream *)

(** A request that fits the buffer never stores past its end. *)
Lemma read_bytes_fits (buf : list byte) (n : Z) (fs : list byte) :
  n <= Z.of_nat (length buf) ->
  read_bytes buf n fs
  = Some (take (Z.to_nat n) fs ++ drop (length (take (Z.to_nat n) fs)) buf,
          drop (Z.to_nat n) fs).
Proof.
  intros Hn. unfold read_bytes. cbv zeta.
  destruct (Z.leb_spec (Z.of_nat (length (take (Z.to_nat n) fs)))
              (Z.of_nat (length buf))) as [_|Hgt]; [reflexivity|].
  rewrite length_take in Hgt. lia.
Qed.

(** Neither does a stream that holds no more bytes than the buffer. *)
Lemma read_bytes_short (buf : list byte) (n : Z) (fs : list byte) :
  (length fs <= length buf)%nat ->
  read_bytes buf n fs
  = Some (take (Z.to_nat n) fs ++ drop (length (take (Z.to_nat n) fs)) buf,
          drop (Z.to_nat n) fs).
Proof.
  intros Hn. unfold read_bytes. cbv zeta.
  destruct (Z.leb_spec (Z.of_nat (length (take (Z.to_nat n) fs)))
              (Z.of_nat (length buf))) as [_|Hgt]; [reflexivity|].
  rewrite length_take in Hgt. lia.
Qed.

Lemma mask_eq (y : Z) : 0 <= y < 32 -> wrap32 (Z.shiftl 1 y) = 2 ^ y.
Proof.
  intros Hy. rewrite Z.shiftl_1_l. apply wrap32_small. split.
  - apply Z.pow_nonneg. lia.
  - apply Z.pow_lt_mono_r; lia.
Qed.

Lemma land_pow2 (w y : Z) :
  0 <= y -> Z.land w (2 ^ y) = if Z.testbit w y then 2 ^ y else 0.
Proof.
  intros Hy. apply Z.bits_inj'. intros n Hn. rewrite Z.land_spec.
  destruct (Z.eq_dec n y) as [->|Hne].
  - rewrite Z.pow2_bits_true by lia. rewrite andb_true_r.
    destruct (Z.testbit w y) eqn:E.
    + rewrite Z.pow2_bits_true by lia. reflexivity.
    + rewrite Z.bits_0. reflexivity.
  - rewrite Z.pow2_bits_false by lia. rewrite andb_false_r.
    destruct (Z.testbit w y).
    + rewrite Z.pow2_bits_false by lia. reflexivity.
    + rewrite Z.bits_0. reflexivity.
Qed.

(** [(w & mask) != 0u] reads bit [y] of [w]. *)
Lemma test_mask (w y : Z) :
  0 <= y < 32 -> negb (Z.land w (wrap32 (Z.shiftl 1 y)) =? 0) = Z.testbit w y.
Proof.
  intros Hy. rewrite mask_eq by exact Hy. rewrite land_pow2 by lia.
  destruct (Z.testbit w y).
  - assert (0 < 2 ^ y) by (apply Z.pow_pos_nonneg; lia).
    destruct (Z.eqb_spec (2 ^ y) 0); [lia | reflexivity].
  - reflexivity.
Qed.

Lemma testbit_set (w y y' : Z) :
  0 <= y < 32 -> 0 <= y' < 32 ->
  Z.testbit (Z.lor w (wrap32 (Z.shiftl 1 y))) y'
  = if decide (y' = y) then true else Z.testbit w y'.
Proof.
  intros Hy Hy'. rewrite mask_eq by exact Hy. rewrite Z.lor_spec.
  destruct (decide (y' = y)) as [->|Hne].
  - rewrite Z.pow2_bits_true by lia. apply orb_true_r.
  - rewrite Z.pow2_bits_false by lia. apply orb_false_r.
Qed.

Lemma testbit_reset (w y y' : Z) :
  0 <= y < 32 -> 0 <= y' < 32 ->
  Z.testbit (Z.land w (not32 (wrap32 (Z.shiftl 1 y)))) y'
  = if decide (y' = y) then false else Z.testbit w y'.
Proof.
  intros Hy Hy'. rewrite mask_eq by exact Hy. rewrite Z.land_spec.
  unfold not32, wrap32. rewrite Z.mod_pow2_bits_low by lia.
  rewrite Z.lnot_spec by lia.
  destruct (decide (y' = y)) as [->|Hne].
  - rewrite Z.pow2_bits_true by lia. apply andb_false_r.
  - rewrite Z.pow2_bits_false by lia. apply andb_true_r.
Qed.

(** ** The bit-packed column *)

Section BoolColumn.

Variable CHUNKSIZE : Z.
Hypothesis CHUNKSIZE_pos : 0 < CHUNKSIZE.
Hypothesis CHUNKSIZE_words : CHUNKSIZE mod 32 = 0.

Import ChunkArrayBool.

#[local] Abbreviation table := (list (list Z)).
#[local] Abbreviation wf := (ChunkArrayBool.wf CHUNKSIZE).
#[local] Abbreviation setTrue := (ChunkArrayBool.setTrue CHUNKSIZE).
#[local] Abbreviation setFalse := (ChunkArrayBool.setFalse CHUNKSIZE).
#[local] Abbreviation setVal := (ChunkArrayBool.setVal CHUNKSIZE).
#[local] Abbreviation setFalseDirty := (ChunkArrayBool.setFalseDirty CHUNKSIZE).
#[local] Abbreviation operator_index := (ChunkArrayBool.operator_index CHUNKSIZE).

(** The chunk, word and bit that hold element [i]. *)
Lemma split_index (i : Z) :
  0 <= i ->
  0 <= i / CHUNKSIZE /\ 0 <= (i mod CHUNKSIZE) / 32 < CHUNKSIZE / 32 /\
  0 <= (i mod CHUNKSIZE) mod 32 < 32 /\
  i = CHUNKSIZE * (i / CHUNKSIZE) + 32 * ((i mod CHUNKSIZE) / 32)
      + (i mod CHUNKSIZE) mod 32.
Proof.
  intros Hi.
  pose proof (Z.mod_pos_bound i CHUNKSIZE CHUNKSIZE_pos) as Hm.
  pose proof (Z.div_mod i CHUNKSIZE ltac:(lia)) as Hd.
  pose proof (Z.div_mod (i mod CHUNKSIZE) 32 ltac:(lia)) as Hd'.
  pose proof (Z.mod_pos_bound (i mod CHUNKSIZE) 32 ltac:(lia)) as Hm'.
  pose proof (Z.div_mod CHUNKSIZE 32 ltac:(lia)) as HC.
  rewrite CHUNKSIZE_words in HC.
  assert (0 <= i / CHUNKSIZE) by (apply Z.div_pos; lia).
  assert (0 <= i mod CHUNKSIZE / 32) by (apply Z.div_pos; lia).
  assert (i mod CHUNKSIZE / 32 < CHUNKSIZE / 32)
    by (apply Z.div_lt_upper_bound; lia).
  lia.
Qed.

(** An index below the capacity names an allocated word. *)
Lemma in_range_word (t : table) (i : Z) :
  wf t -> 0 <= i < Z.of_nat (length t) * CHUNKSIZE ->
  exists c w, t !! Z.to_nat (i / CHUNKSIZE) = Some c /\
              c !! Z.to_nat ((i mod CHUNKSIZE) / 32) = Some w.
Proof.
  intros Hwf Hi.
  destruct (split_index i) as (Hjj & Hx & Hy & Heq); [lia|].
  assert (i / CHUNKSIZE < Z.of_nat (length t)) as Hlt
    by (apply Z.div_lt_upper_bound; lia).
  destruct (lookup_lt_is_Some_2 t (Z.to_nat (i / CHUNKSIZE))) as [c Hc];
    [lia|].
  assert (length c = Z.to_nat (CHUNKSIZE / 32)) as Hlen.
  { unfold ChunkArrayBool.wf in Hwf. rewrite Forall_forall in Hwf.
    apply Hwf. eapply list_elem_of_lookup_2. exact Hc. }
  destruct (lookup_lt_is_Some_2 c (Z.to_nat ((i mod CHUNKSIZE) / 32)))
    as [w Hw]; [lia|].
  exists c, w. split; assumption.
Qed.

(** Reading after a word has been overwritten. *)
Lemma operator_index_store_word (t t' : table) (jj x w j : Z) :
  0 <= jj -> 0 <= x -> 0 <= j ->
  store_word t jj x w = Some t' ->
  operator_index t' j =
    if decide (j / CHUNKSIZE = jj /\ (j mod CHUNKSIZE) / 32 = x)
    then Some (Z.testbit w ((j mod CHUNKSIZE) mod 32))
    else operator_index t j.
Proof.
  intros Hjj Hx Hj Hst.
  destruct (split_index j Hj) as (Hjj' & Hx' & Hy' & _).
  unfold store_word in Hst.
  destruct (t !! Z.to_nat jj) as [c|] eqn:Hc; [|discriminate].
  destruct (c !! Z.to_nat x) as [w0|] eqn:Hw0; [|discriminate].
  injection Hst as <-.
  pose proof (lookup_lt_Some _ _ _ Hc) as Hltc.
  pose proof (lookup_lt_Some _ _ _ Hw0) as Hltw.
  unfold ChunkArrayBool.operator_index, word_at. cbv zeta.
  destruct (decide (j / CHUNKSIZE = jj /\ j mod CHUNKSIZE / 32 = x))
    as [[E1 E2]|Hne].
  - rewrite E1, E2. rewrite list_lookup_insert_eq by exact Hltc.
    cbv iota. rewrite list_lookup_insert_eq by exact Hltw. simpl.
    rewrite test_mask by lia. reflexivity.
  - destruct (decide (j / CHUNKSIZE = jj)) as [E1|N1].
    + rewrite E1. rewrite list_lookup_insert_eq by exact Hltc. rewrite Hc.
      cbv iota. rewrite list_lookup_insert_ne; [reflexivity|].
      intros E. apply Hne. split; [exact E1|]. lia.
    + rewrite list_lookup_insert_ne; [reflexivity|]. lia.
Qed.

Lemma store_word_in_range (t : table) (i w : Z) :
  wf t -> 0 <= i < Z.of_nat (length t) * CHUNKSIZE ->
  exists t', store_word t (i / CHUNKSIZE) ((i mod CHUNKSIZE) / 32) w = Some t'.
Proof.
  intros Hwf Hi. destruct (in_range_word t i Hwf Hi) as (c & w0 & Hc & Hw0).
  unfold store_word. rewrite Hc, Hw0. eauto.
Qed.

Lemma operator_index_in_range (t : table) (i : Z) :
  wf t -> 0 <= i < Z.of_nat (length t) * CHUNKSIZE ->
  exists w, word_at t (i / CHUNKSIZE) ((i mod CHUNKSIZE) / 32) = Some w /\
            operator_index t i = Some (Z.testbit w ((i mod CHUNKSIZE) mod 32)).
Proof.
  intros Hwf Hi. destruct (in_range_word t i Hwf Hi) as (c & w & Hc & Hw).
  destruct (split_index i) as (_ & _ & Hy & _); [lia|].
  exists w. unfold ChunkArrayBool.operator_index, word_at.
  rewrite Hc, Hw. simpl. rewrite test_mask by lia. split; reflexivity.
Qed.

(** Two indices of the same word differ in their bit position. *)
Lemma same_word_other_bit (i j : Z) :
  0 <= i -> 0 <= j -> j <> i ->
  j / CHUNKSIZE = i / CHUNKSIZE ->
  (j mod CHUNKSIZE) / 32 = (i mod CHUNKSIZE) / 32 ->
  (j mod CHUNKSIZE) mod 32 <> (i mod CHUNKSIZE) mod 32.
Proof.
  intros Hi Hj Hne E1 E2 E3.
  destruct (split_index i Hi) as (_ & _ & _ & Ei).
  destruct (split_index j Hj) as (_ & _ & _ & Ej).
  apply Hne. rewrite Ei, Ej, E1, E2, E3. reflexivity.
Qed.

(** What any single-word update does to the elements, given what it does
    to the bits of the word. *)
Lemma word_update_frame (t t' : table) (i w w' : Z) (b : bool) :
  wf t -> 0 <= i < Z.of_nat (length t) * CHUNKSIZE ->
  word_at t (i / CHUNKSIZE) ((i mod CHUNKSIZE) / 32) = Some w ->
  store_word t (i / CHUNKSIZE) ((i mod CHUNKSIZE) / 32) w' = Some t' ->
  (forall y', 0 <= y' < 32 ->
     Z.testbit w' y' =
       if decide (y' = (i mod CHUNKSIZE) mod 32) then b else Z.testbit w y') ->
  operator_index t' i = Some b /\
  forall j, 0 <= j < Z.of_nat (length t) * CHUNKSIZE -> j <> i ->
            operator_index t' j = operator_index t j.
Proof.
  intros Hwf Hi Hw Hst Hbits.
  destruct (split_index i) as (Hjj & Hx & Hy & _); [lia|].
  split.
  - rewrite (operator_index_store_word t t' (i / CHUNKSIZE)
               (i mod CHUNKSIZE / 32) w' i) by first [lia | exact Hst].
    rewrite decide_True by (split; reflexivity).
    rewrite Hbits by lia. rewrite decide_True by reflexivity. reflexivity.
  - intros j Hj Hne.
    rewrite (operator_index_store_word t t' (i / CHUNKSIZE)
               (i mod CHUNKSIZE / 32) w' j) by first [lia | exact Hst].
    destruct (decide (j / CHUNKSIZE = i / CHUNKSIZE /\
                      j mod CHUNKSIZE / 32 = i mod CHUNKSIZE / 32))
      as [[E1 E2]|N]; [|reflexivity].
    destruct (operator_index_in_range t j Hwf Hj) as (wj & Hwj & ->).
    rewrite E1, E2, Hw in Hwj. injection Hwj as <-.
    destruct (split_index j) as (_ & _ & Hy' & _); [lia|].
    rewrite Hbits by lia.
    rewrite decide_False; [reflexivity|].
    apply same_word_other_bit; lia.
Qed.

(** C10.  For an index [i] below the capacity of a boolean column,
    [setTrue], [setFalse] and [setVal] are defined, leave [i] reading
    [true], [false] and [b] respectively, and every other index [j] below
    the capacity reads the same value as before the call. *)
Theorem set_bit_changes_only_bit (t : table) (i : Z) (b : bool) :
  wf t -> 0 <= i < Z.of_nat (length t) * CHUNKSIZE ->
  exists tT tF tV,
    setTrue i t = Some tT /\ setFalse i t = Some tF /\
    setVal i b t = Some tV /\
    operator_index tT i = Some true /\
    operator_index tF i = Some false /\
    operator_index tV i = Some b /\
    forall j, 0 <= j < Z.of_nat (length t) * CHUNKSIZE -> j <> i ->
      operator_index tT j = operator_index t j /\
      operator_index tF j = operator_index t j /\
      operator_index tV j = operator_index t j.
Proof.
  intros Hwf Hi.
  destruct (operator_index_in_range t i Hwf Hi) as (w & Hw & _).
  destruct (split_index i) as (_ & _ & Hy & _); [lia|].
  set (mask := wrap32 (Z.shiftl 1 ((i mod CHUNKSIZE) mod 32))).
  destruct (store_word_in_range t i (Z.lor w mask) Hwf Hi) as [tT HT].
  destruct (store_word_in_range t i (Z.land w (not32 mask)) Hwf Hi)
    as [tF HF].
  assert (setTrue i t = Some tT) as ET.
  { unfold ChunkArrayBool.setTrue. cbv zeta. rewrite Hw. exact HT. }
  assert (setFalse i t = Some tF) as EF.
  { unfold ChunkArrayBool.setFalse. cbv zeta. rewrite Hw. exact HF. }
  assert (setVal i b t = Some (if b then tT else tF)) as EV.
  { unfold ChunkArrayBool.setVal. cbv zeta. rewrite Hw.
    destruct b; [exact HT | exact HF]. }
  destruct (word_update_frame t tT i w (Z.lor w mask) true Hwf Hi Hw HT)
    as [HTi HTj].
  { intros y' Hy'. apply testbit_set; lia. }
  destruct (word_update_frame t tF i w (Z.land w (not32 mask)) false
              Hwf Hi Hw HF) as [HFi HFj].
  { intros y' Hy'. apply testbit_reset; lia. }
  exists tT, tF, (if b then tT else tF).
  repeat split; try assumption.
  - destruct b; assumption.
  - apply HTj; assumption.
  - apply HFj; assumption.
  - destruct b; [apply HTj | apply HFj]; assumption.
Qed.

(** C6.  For an index [i] below the capacity, [setFalseDirty] is defined;
    afterwards every index [j] below the capacity that lies in the same
    chunk and the same 32-bit word as [i] reads [false], and every index
    outside that word reads what it read before. *)
Theorem setFalseDirty_clears_word (t : table) (i : Z) :
  wf t -> 0 <= i < Z.of_nat (length t) * CHUNKSIZE ->
  exists t',
    setFalseDirty i t = Some t' /\
    forall j, 0 <= j < Z.of_nat (length t) * CHUNKSIZE ->
      (j / CHUNKSIZE = i / CHUNKSIZE /\
       (j mod CHUNKSIZE) / 32 = (i mod CHUNKSIZE) / 32 ->
       operator_index t' j = Some false) /\
      (~ (j / CHUNKSIZE = i / CHUNKSIZE /\
          (j mod CHUNKSIZE) / 32 = (i mod CHUNKSIZE) / 32) ->
       operator_index t' j = operator_index t j).
Proof.
  intros Hwf Hi.
  destruct (split_index i) as (Hjj & Hx & _ & _); [lia|].
  destruct (store_word_in_range t i 0 Hwf Hi) as [t' Ht'].
  exists t'. split; [exact Ht'|].
  intros j Hj.
  rewrite (operator_index_store_word t t' (i / CHUNKSIZE)
             (i mod CHUNKSIZE / 32) 0 j) by first [lia | exact Ht'].
  split; intros Hcase.
  - rewrite decide_True by exact Hcase. rewrite Z.bits_0. reflexivity.
  - rewrite decide_False by exact Hcase. reflexivity.
Qed.

End BoolColumn.

(** Chunk 1 of a two-chunk column with [CHUNKSIZE = 64]; index 70 is bit 6
    of its first word. *)
Lemma set_bit_changes_only_bit_witness :
  let t := [[5; 7]; [4294967295; 1]] in
  exists tT tF tV,
    ChunkArrayBool.setTrue 64 70 t = Some tT /\
    ChunkArrayBool.setFalse 64 70 t = Some tF /\
    ChunkArrayBool.setVal 64 70 false t = Some tV /\
    ChunkArrayBool.operator_index 64 tT 70 = Some true /\
    ChunkArrayBool.operator_index 64 tF 70 = Some false /\
    ChunkArrayBool.operator_index 64 tV 70 = Some false /\
    forall j, 0 <= j < Z.of_nat (length t) * 64 -> j <> 70 ->
      ChunkArrayBool.operator_index 64 tT j = ChunkArrayBool.operator_index 64 t j /\
      ChunkArrayBool.operator_index 64 tF j = ChunkArrayBool.operator_index 64 t j /\
      ChunkArrayBool.operator_index 64 tV j = ChunkArrayBool.operator_index 64 t j.
Proof.
  intros t.
  apply (set_bit_changes_only_bit 64 ltac:(lia) ltac:(reflexivity) t 70 false).
  - repeat constructor.
  - simpl. lia.
Defined.

Lemma setFalseDirty_clears_word_witness :
  let t := [[5; 7]; [4294967295; 1]] in
  exists t',
    ChunkArrayBool.setFalseDirty 64 70 t = Some t' /\
    forall j, 0 <= j < Z.of_nat (length t) * 64 ->
      (j / 64 = 70 / 64 /\ (j mod 64) / 32 = (70 mod 64) / 32 ->
       ChunkArrayBool.operator_index 64 t' j = Some false) /\
      (~ (j / 64 = 70 / 64 /\ (j mod 64) / 32 = (70 mod 64) / 32) ->
       ChunkArrayBool.operator_index 64 t' j = ChunkArrayBool.operator_index 64 t j).
Proof.
  intros t.
  apply (setFalseDirty_clears_word 64 ltac:(lia) ltac:(reflexivity) t 70).
  - repeat constructor.
  - simpl. lia.
Defined.

(** The two [capacity] methods on a table of [k] chunks, when the product
    fits an [unsigned int]: words for the bit-packed column, elements for
    the generic one. *)
Lemma capacity_bool_words (CHUNKSIZE : Z) (t : list (list Z)) :
  0 <= Z.of_nat (length t) * CHUNKSIZE < 2 ^ 32 -> 0 < CHUNKSIZE ->
  ChunkArrayBool.capacity CHUNKSIZE t = Z.of_nat (length t) * CHUNKSIZE / 32.
Proof.
  intros Hfit Hpos. unfold ChunkArrayBool.capacity.
  rewrite (wrap32_small (Z.of_nat (length t))) by nia.
  rewrite wrap32_small by exact Hfit. reflexivity.
Qed.

Lemma capacity_elements (CHUNKSIZE : Z) (T : Type) `{FixedSize T}
    (t : list (list T)) :
  0 <= Z.of_nat (length t) * CHUNKSIZE < 2 ^ 32 -> 0 < CHUNKSIZE ->
  ChunkArray.capacity CHUNKSIZE t = Z.of_nat (length t) * CHUNKSIZE.
Proof.
  intros Hfit Hpos. unfold ChunkArray.capacity.
  rewrite (wrap32_small (Z.of_nat (length t))) by nia.
  apply wrap32_small. exact Hfit.
Qed.

(** C1.  With one chunk of 32 elements the bit-packed column reports a
    capacity of 1, the number of its 32-bit words, where the column of
    [unsigned char] with the same chunk count reports 32 = 1 * CHUNKSIZE. *)
Theorem capacity_bool_counts_words :
  let t := ChunkArrayBool.setNbChunks 32 1 [] in
  ChunkArrayBool.getNbChunks t = 1 /\
  ChunkArrayBool.capacity 32 t = 1 /\
  ChunkArrayBool.capacity 32 t <> ChunkArrayBool.getNbChunks t * 32 /\
  ChunkArray.capacity 32 (ChunkArray.setNbChunks (T := byte) 32 1 []) = 32.
Proof. vm_compute. repeat split; congruence. Qed.

(** The writes of the boolean [save] on [k >= 1] chunks: the header and
    the [k-1] full chunks of [CHUNKSIZE/8] bytes, then a tail whose length
    subtracts [(k-1)*CHUNKSIZE/8], not [(k-1)*CHUNKSIZE], from the rounded
    [nbLines]. *)
Lemma save_requests_bool_shape (CHUNKSIZE : Z) (t : list (list Z))
    (nbLines : Z) :
  let k := Z.of_nat (length t) in
  0 < k -> 0 < CHUNKSIZE -> k * CHUNKSIZE < 2 ^ 32 ->
  ChunkArrayBool.save_requests CHUNKSIZE t nbLines
  = ChunkArrayBool.WriteHeader k (ChunkArrayBool.round_nbLines nbLines)
      (CHUNKSIZE / 8)
    :: map (fun i => ChunkArrayBool.WriteChunk i (CHUNKSIZE / 8))
         (seqZ 0 (k - 1))
    ++ [ChunkArrayBool.WriteChunk (k - 1)
          (wrap32 (ChunkArrayBool.round_nbLines nbLines
                   - (k - 1) * CHUNKSIZE / 8) / 8)].
Proof.
  intros k Hk HC Hfit. unfold ChunkArrayBool.save_requests. cbv zeta.
  fold k. rewrite (wrap32_small k) by nia.
  destruct (Z.eqb_spec k 0); [lia|].
  rewrite (wrap32_small (k - 1)) by nia.
  rewrite (wrap32_small ((k - 1) * CHUNKSIZE)) by nia.
  reflexivity.
Qed.

(** C2.  With [CHUNKSIZE = 32], two chunks and [nbLines = 64] the last
    [fs.write] of the boolean [save] asks for 7 bytes of the last chunk,
    where [(64 - (2-1)*32)/8 = 4]; a chunk holds only 4 bytes, so the write
    reads past its end. *)
Theorem save_bool_tail_length :
  let t := ChunkArrayBool.setNbChunks 32 2 [] in
  ChunkArrayBool.save_requests 32 t 64
    = [ChunkArrayBool.WriteHeader 2 64 4;
       ChunkArrayBool.WriteChunk 0 4;
       ChunkArrayBool.WriteChunk 1 7] /\
  (ChunkArrayBool.round_nbLines 64 - (2 - 1) * 32) / 8 = 4 /\
  ChunkArrayBool.save_assert 32 t 64 = true /\
  ChunkArrayBool.save 32 t 64 = None.
Proof. vm_compute. repeat split; reflexivity. Qed.

(** ** The three-word header *)

Lemma u32_bytes_length (w : Z) : length (u32_bytes w) = 4%nat.
Proof. apply length_le_split. Qed.

Lemma u32_of_bytes_bytes (w : Z) : u32_of_bytes (u32_bytes w) = wrap32 w.
Proof. unfold u32_of_bytes, u32_bytes. rewrite le_combine_split. reflexivity. Qed.

Lemma read_header_written (a b c : Z) (rest : list byte) :
  read_header (u32_bytes a ++ u32_bytes b ++ u32_bytes c ++ rest)
  = Some (wrap32 a, wrap32 b, wrap32 c, rest).
Proof.
  unfold read_header.
  rewrite !length_app, !u32_bytes_length.
  destruct (Z.leb_spec 12 (Z.of_nat (4 + (4 + (4 + length rest)))));
    [|lia].
  rewrite (take_app_length' (u32_bytes a)) by (symmetry; apply u32_bytes_length).
  change 12%nat with (4 + (4 + 4))%nat. change 8%nat with (4 + 4)%nat.
  rewrite <- !drop_drop.
  rewrite !(drop_app_length' (u32_bytes a)) by (symmetry; apply u32_bytes_length).
  rewrite (take_app_length' (u32_bytes b)) by (symmetry; apply u32_bytes_length).
  rewrite !(drop_app_length' (u32_bytes b)) by (symmetry; apply u32_bytes_length).
  rewrite (take_app_length' (u32_bytes c)) by (symmetry; apply u32_bytes_length).
  rewrite (drop_app_length' (u32_bytes c)) by (symmetry; apply u32_bytes_length).
  rewrite !u32_of_bytes_bytes. reflexivity.
Qed.

(** C4.  When the stream holds a header whose third word differs from the
    chunk byte size of the column ([CHUNKSIZE*sizeof(T)], or [CHUNKSIZE/8]
    for the boolean column), [load] returns [false] and the chunk table is
    the one it was given. *)
Theorem load_wrong_chunk_byte_size (CHUNKSIZE : Z) (T : Type) `{FixedSize T}
    (fs : list byte) (tg : list (list T)) (tb : list (list Z)) :
  12 <= Z.of_nat (length fs) ->
  (u32_of_bytes (take 4 (drop 8 fs)) <> ChunkArray.chunk_byte_size CHUNKSIZE ->
   ChunkArray.load CHUNKSIZE fs tg = Some (false, tg, drop 12 fs)) /\
  (u32_of_bytes (take 4 (drop 8 fs)) <> CHUNKSIZE / 8 ->
   ChunkArrayBool.load CHUNKSIZE fs tb = Some (false, tb, drop 12 fs)).
Proof.
  intros Hlen.
  assert (read_header fs =
            Some (u32_of_bytes (take 4 fs), u32_of_bytes (take 4 (drop 4 fs)),
                  u32_of_bytes (take 4 (drop 8 fs)), drop 12 fs)) as Hh.
  { unfold read_header. destruct (Z.leb_spec 12 (Z.of_nat (length fs))).
    - reflexivity.
    - lia. }
  split; intros Hne.
  - unfold ChunkArray.load. rewrite Hh. simpl.
    destruct (Z.eqb_spec (u32_of_bytes (take 4 (drop 8 fs)))
                (ChunkArray.chunk_byte_size CHUNKSIZE)); [contradiction|].
    reflexivity.
  - unfold ChunkArrayBool.load. rewrite Hh. simpl.
    destruct (Z.eqb_spec (u32_of_bytes (take 4 (drop 8 fs))) (CHUNKSIZE / 8));
      [contradiction|].
    reflexivity.
Qed.

(** A header announcing 16 bytes per chunk, offered to columns of
    [CHUNKSIZE = 32]: 32 bytes per chunk of [unsigned char], 4 bytes per
    chunk of [bool]. *)
Lemma load_wrong_chunk_byte_size_witness :
  let fs := u32_bytes 1 ++ u32_bytes 32 ++ u32_bytes 16 ++ [Byte.x2a] in
  let tg := [replicate 32 Byte.x07] in
  let tb := [[5]] in
  (u32_of_bytes (take 4 (drop 8 fs)) <> ChunkArray.chunk_byte_size (T := byte) 32 ->
   ChunkArray.load 32 fs tg = Some (false, tg, drop 12 fs)) /\
  (u32_of_bytes (take 4 (drop 8 fs)) <> 32 / 8 ->
   ChunkArrayBool.load 32 fs tb = Some (false, tb, drop 12 fs)).
Proof.
  intros fs tg tb.
  apply (load_wrong_chunk_byte_size 32 byte fs tg tb).
  vm_compute. discriminate.
Defined.

(** ** [setNbChunks] *)

Section Resize.

Variable CHUNKSIZE : Z.
Context {T : Type} `{FixedSize T}.

#[local] Abbreviation table := (list (list T)).

Lemma addChunks_app (n : nat) (t : table) :
  ChunkArray.addChunks CHUNKSIZE n t
  = t ++ replicate n (ChunkArray.new_chunk CHUNKSIZE).
Proof.
  revert t. induction n as [|n IH]; intros t; simpl.
  - rewrite app_nil_r. reflexivity.
  - rewrite IH. unfold ChunkArray.addChunk. rewrite <- app_assoc.
    reflexivity.
Qed.

Lemma setNbChunks_length (n : Z) (t : table) :
  0 <= n -> Z.of_nat (length (ChunkArray.setNbChunks CHUNKSIZE n t)) = n.
Proof.
  intros Hn. unfold ChunkArray.setNbChunks.
  destruct (Z.leb_spec (Z.of_nat (length t)) n).
  - rewrite addChunks_app, length_app, length_replicate. lia.
  - rewrite length_take. lia.
Qed.

(** Chunks below both the old and the new count are kept. *)
Lemma setNbChunks_lookup_old (n : Z) (t : table) (jj : nat) :
  Z.of_nat jj < n -> (jj < length t)%nat ->
  ChunkArray.setNbChunks CHUNKSIZE n t !! jj = t !! jj.
Proof.
  intros Hn Hk. unfold ChunkArray.setNbChunks.
  destruct (Z.leb_spec (Z.of_nat (length t)) n).
  - rewrite addChunks_app. apply lookup_app_l. exact Hk.
  - apply lookup_take_lt. lia.
Qed.

Lemma setNbChunks_lookup_new (n : Z) (t : table) (jj : nat) :
  Z.of_nat jj < n -> (length t <= jj)%nat ->
  ChunkArray.setNbChunks CHUNKSIZE n t !! jj
  = Some (ChunkArray.new_chunk CHUNKSIZE).
Proof.
  intros Hn Hk. unfold ChunkArray.setNbChunks.
  destruct (Z.leb_spec (Z.of_nat (length t)) n); [|lia].
  rewrite addChunks_app. rewrite lookup_app_r by exact Hk.
  apply lookup_replicate_2. lia.
Qed.

Hypothesis CHUNKSIZE_pos : 0 < CHUNKSIZE.

(** C7.  [setNbChunks n] leaves exactly [n] chunks.  When it grows the
    table every element of a new chunk reads [T()] and every element
    below the old capacity reads its previous value; when it shrinks the
    table every element below the new capacity reads its previous
    value. *)
Theorem setNbChunks_frame (t : table) (n : Z) :
  0 <= n < 2 ^ 32 ->
  let k := Z.of_nat (length t) in
  let t' := ChunkArray.setNbChunks CHUNKSIZE n t in
  Z.of_nat (length t') = n /\
  ChunkArray.getNbChunks t' = n /\
  (k < n ->
   (forall i, k * CHUNKSIZE <= i < n * CHUNKSIZE ->
      ChunkArray.operator_index CHUNKSIZE t' i = Some value_init) /\
   (forall i, 0 <= i < k * CHUNKSIZE ->
      ChunkArray.operator_index CHUNKSIZE t' i
      = ChunkArray.operator_index CHUNKSIZE t i)) /\
  (n < k ->
   forall i, 0 <= i < n * CHUNKSIZE ->
     ChunkArray.operator_index CHUNKSIZE t' i
     = ChunkArray.operator_index CHUNKSIZE t i).
Proof.
  intros Hn k t'.
  assert (Z.of_nat (length t') = n) as Hlen
    by (apply setNbChunks_length; lia).
  assert (forall i, 0 <= i < k * CHUNKSIZE -> 0 <= i < n * CHUNKSIZE ->
            ChunkArray.operator_index CHUNKSIZE t' i
            = ChunkArray.operator_index CHUNKSIZE t i) as Hold.
  { intros i Hik Hin. unfold ChunkArray.operator_index.
    assert (0 <= i / CHUNKSIZE) by (apply Z.div_pos; lia).
    assert (i / CHUNKSIZE < k) by (apply Z.div_lt_upper_bound; lia).
    assert (i / CHUNKSIZE < n) by (apply Z.div_lt_upper_bound; lia).
    unfold t'. rewrite setNbChunks_lookup_old by lia. reflexivity. }
  split; [exact Hlen|]. split.
  { unfold ChunkArray.getNbChunks. rewrite Hlen. apply wrap32_small. lia. }
  split.
  - intros Hgrow. split.
    + intros i Hi. unfold ChunkArray.operator_index.
      assert (k <= i / CHUNKSIZE) by (apply Z.div_le_lower_bound; lia).
      assert (i / CHUNKSIZE < n) by (apply Z.div_lt_upper_bound; lia).
      unfold t'. rewrite setNbChunks_lookup_new by lia.
      pose proof (Z.mod_pos_bound i CHUNKSIZE CHUNKSIZE_pos).
      unfold ChunkArray.new_chunk. apply lookup_replicate_2. lia.
    + intros i Hi. apply Hold; [lia|]. nia.
  - intros Hshrink i Hi. apply Hold; [nia|lia].
Qed.

End Resize.

Lemma setNbChunks_frame_witness :
  let t : list (list byte) := [[Byte.x01; Byte.x02]; [Byte.x03; Byte.x04]] in
  let k := Z.of_nat (length t) in
  let t' := ChunkArray.setNbChunks 2 3 t in
  Z.of_nat (length t') = 3 /\
  ChunkArray.getNbChunks t' = 3 /\
  (k < 3 ->
   (forall i, k * 2 <= i < 3 * 2 ->
      ChunkArray.operator_index 2 t' i = Some value_init) /\
   (forall i, 0 <= i < k * 2 ->
      ChunkArray.operator_index 2 t' i = ChunkArray.operator_index 2 t i)) /\
  (3 < k ->
   forall i, 0 <= i < 3 * 2 ->
     ChunkArray.operator_index 2 t' i = ChunkArray.operator_index 2 t i).
Proof.
  intros t.
  apply (setNbChunks_frame 2 ltac:(lia) t 3). lia.
Defined.

(** ** Binary OFF export *)

(** C8.  Whatever the map, the prologue written by [export_off_bin] is the
    magic line followed by a three-word record whose first and second words
    are both the (byte-swapped) vertex count and whose third word is 0; the
    face count is not consulted. *)
Theorem export_off_bin_vertex_count_twice (MAP : Type)
    (nb_cells_Vertex : MAP -> Z) (swap_endianness_native_big : Z -> Z)
    (map : MAP) :
  exists record,
    MapExport.export_off_bin_prologue MAP nb_cells_Vertex
      swap_endianness_native_big true map
    = Some (MapExport.off_binary_magic ++ record) /\
    read_header record
    = Some (wrap32 (swap_endianness_native_big (nb_cells_Vertex map)),
            wrap32 (swap_endianness_native_big (nb_cells_Vertex map)),
            0, []).
Proof.
  set (n := wrap32 (swap_endianness_native_big (nb_cells_Vertex map))).
  exists (u32_bytes n ++ u32_bytes n ++ u32_bytes 0).
  split.
  - reflexivity.
  - rewrite <- (app_nil_r (u32_bytes 0)). rewrite read_header_written.
    assert (wrap32 n = n) as ->.
    { unfold n, wrap32. apply Z.mod_mod. lia. }
    reflexivity.
Qed.

(** ** Tetgen import *)

Section TetgenImport.

Import TetgenStructureIO.

Context {float64 VEC3 Base : Type}.
Context `{VI : @VolumeImport float64 VEC3 Base}.

#[local] Abbreviation importer := (@TetgenStructureIO.importer VEC3 Base).
#[local] Abbreviation call := (@TetgenStructureIO.call VEC3).

Lemma nb_insert_lines_app (l1 l2 : list call) :
  nb_insert_lines (l1 ++ l2) = nb_insert_lines l1 + nb_insert_lines l2.
Proof.
  unfold nb_insert_lines. rewrite List.filter_app, length_app. lia.
Qed.

Lemma nb_add_tetra_app (l1 l2 : list call) :
  nb_add_tetra (l1 ++ l2) = nb_add_tetra l1 + nb_add_tetra l2.
Proof.
  unfold nb_add_tetra. rewrite List.filter_app, length_app. lia.
Qed.

Lemma index_in_range {A : Type} (a : list A) (k : Z) (s : importer) :
  0 <= k < Z.of_nat (length a) ->
  exists x, index a k s = Some (x, s) /\ a !! Z.to_nat k = Some x.
Proof.
  intros Hk. unfold index.
  destruct (Z.ltb_spec k 0); [lia|].
  destruct (lookup_lt_is_Some_2 a (Z.to_nat k)) as [x Hx]; [lia|].
  exists x. rewrite Hx. split; reflexivity.
Qed.

Lemma create_vertices_spec (n : nat) :
  forall (pts : list float64) (p : Z) (vi : list Z) (s : importer),
    0 <= p -> p + 3 * Z.of_nat n <= Z.of_nat (length pts) ->
    exists ids s' log,
      create_vertices n pts p vi s = Some (vi ++ ids, s') /\
      length ids = n /\ extends s s' log /\
      nb_insert_lines log = Z.of_nat n /\ nb_add_tetra log = 0.
Proof.
  induction n as [|n IH]; intros pts p vi s Hp Hlen.
  - exists [], s, []. unfold extends. simpl. rewrite !app_nil_r.
    repeat split; reflexivity.
  - cbn [create_vertices]. unfold mbind, M_bind.
    unfold insert_lines_1 at 1. unfold on_base at 1. cbv beta zeta.
    set (r := base_insert_lines_1 (base s)).
    set (s1 := {| nb_vertices_ := nb_vertices_ s;
                  nb_volumes_ := nb_volumes_ s; base := r.2;
                  calls := calls s ++ [CallInsertLines r.1] |}).
    destruct (index_in_range pts p s1) as (x0 & -> & _); [lia|].
    destruct (index_in_range pts (p + 1) s1) as (x1 & -> & _); [lia|].
    destruct (index_in_range pts (p + 2) s1) as (x2 & -> & _); [lia|].
    unfold set_position at 1. unfold on_base at 1. cbv beta zeta.
    set (s2 := {| nb_vertices_ := nb_vertices_ s1;
                  nb_volumes_ := nb_volumes_ s1;
                  base := _; calls := _ |}).
    destruct (IH pts (p + 3) (vi ++ [r.1]) s2)
      as (ids & s' & log & Hrun & Hids & (Hv & Hw & Hc) & Hins & Htet);
      [lia | lia |].
    exists (r.1 :: ids), s',
      ([CallInsertLines r.1; CallSetPosition r.1 (make_VEC3 x0 x1 x2)]
         ++ log).
    split; [|split; [|split; [|split]]].
    + rewrite Hrun. rewrite <- app_assoc. reflexivity.
    + simpl. rewrite Hids. reflexivity.
    + unfold extends. rewrite Hv, Hw, Hc. subst s2 s1. simpl.
      rewrite <- !app_assoc. repeat split; reflexivity.
    + rewrite nb_insert_lines_app, Hins. unfold nb_insert_lines. simpl.
      lia.
    + rewrite nb_add_tetra_app, Htet. reflexivity.
Qed.

Lemma create_tetrahedrons_spec (n : nat) :
  forall (tets : list Z) (first t : Z) (vi : list Z) (s : importer),
    0 <= t -> t + 4 * Z.of_nat n <= Z.of_nat (length tets) ->
    Forall (fun k => first <= k < first + Z.of_nat (length vi)) tets ->
    exists s' log,
      create_tetrahedrons n tets first t vi s = Some (tt, s') /\
      extends s s' log /\
      nb_insert_lines log = 0 /\ nb_add_tetra log = Z.of_nat n.
Proof.
  induction n as [|n IH]; intros tets first t vi s Ht Hlen Hin.
  - exists s, []. simpl. unfold extends. rewrite app_nil_r.
    repeat split; reflexivity.
  - assert (forall k, 0 <= k < Z.of_nat (length tets) ->
              exists tk idk, index tets k s = Some (tk, s) /\
                             index vi (tk - first) s = Some (idk, s))
      as Hcorner.
    { intros k Hk. destruct (index_in_range tets k s Hk) as (tk & E & Hl).
      rewrite Forall_forall in Hin.
      assert (first <= tk < first + Z.of_nat (length vi)) as Htk.
      { apply Hin. eapply list_elem_of_lookup_2. exact Hl. }
      destruct (index_in_range vi (tk - first) s) as (idk & E' & _); [lia|].
      exists tk, idk. split; assumption. }
    destruct (Hcorner t) as (t0 & i0 & E0 & F0); [lia|].
    destruct (Hcorner (t + 1)) as (t1 & i1 & E1 & F1); [lia|].
    destruct (Hcorner (t + 2)) as (t2 & i2 & E2 & F2); [lia|].
    destruct (Hcorner (t + 3)) as (t3 & i3 & E3 & F3); [lia|].
    cbn [create_tetrahedrons]. unfold mbind, M_bind.
    rewrite E0, F0, E1, F1, E2, F2, E3, F3.
    unfold add_tetra at 1. unfold on_base at 1. cbv beta zeta.
    set (s1 := {| nb_vertices_ := nb_vertices_ s;
                  nb_volumes_ := nb_volumes_ s;
                  base := _; calls := _ |}).
    destruct (IH tets first (t + 4) vi s1)
      as (s' & log & Hrun & (Hv & Hw & Hc) & Hins & Htet);
      [lia | lia | exact Hin |].
    exists s', ([CallAddTetra i0 i1 i2 i3 true] ++ log).
    split; [|split; [|split]].
    + exact Hrun.
    + unfold extends. rewrite Hv, Hw, Hc. subst s1. simpl.
      rewrite <- !app_assoc. repeat split; reflexivity.
    + rewrite nb_insert_lines_app, Hins. reflexivity.
    + rewrite nb_add_tetra_app, Htet. unfold nb_add_tetra. simpl. lia.
Qed.

(** C9.  On a tetgen output with zero points or zero tetrahedra
    [import_file_impl] returns [false] and its last action is [clear()],
    which decides the state it leaves; on a well-formed output with points
    and tetrahedra it returns [true] after exactly [numberofpoints] calls of
    [insert_lines<1>] and exactly [numberoftetrahedra] calls of
    [add_tetra]. *)
Theorem import_file_impl_counts (volume_ : tetgenio) (s : importer) :
  (numberofpoints volume_ = 0 \/ numberoftetrahedra volume_ = 0 ->
   let s0 := {| nb_vertices_ := wrap32 (numberofpoints volume_);
                nb_volumes_ := wrap32 (numberoftetrahedra volume_);
                base := base s; calls := calls s |} in
   exists s',
     import_file_impl volume_ s = Some (false, s') /\
     nb_vertices_ s' = nb_vertices_ (base_clear s0) /\
     nb_volumes_ s' = nb_volumes_ (base_clear s0) /\
     base s' = base (base_clear s0) /\
     calls s' = calls s ++ [CallClear]) /\
  (tetgen_wf volume_ ->
   numberofpoints volume_ <> 0 /\ numberoftetrahedra volume_ <> 0 ->
   exists s' log,
     import_file_impl volume_ s = Some (true, s') /\
     calls s' = calls s ++ log /\
     nb_insert_lines log = numberofpoints volume_ /\
     nb_add_tetra log = numberoftetrahedra volume_).
Proof.
  unfold import_file_impl, mbind, M_bind.
  unfold set_nb_vertices, set_nb_volumes, get_nb_vertices, get_nb_volumes.
  cbn [nb_vertices_ nb_volumes_ base calls].
  split.
  - intros Hzero.
    assert ((wrap32 (numberofpoints volume_) =? 0)
            || (wrap32 (numberoftetrahedra volume_) =? 0) = true) as ->.
    { destruct Hzero as [-> | ->]; [reflexivity|]. apply orb_true_r. }
    unfold clear. cbv beta zeta.
    eexists. split; [reflexivity|]. simpl. repeat split; reflexivity.
  - intros (Hnp & Hnt & Hpts & Htets & Hin) [Hp Ht].
    rewrite (wrap32_small (numberofpoints volume_)) by lia.
    rewrite (wrap32_small (numberoftetrahedra volume_)) by lia.
    assert ((numberofpoints volume_ =? 0) || (numberoftetrahedra volume_ =? 0)
            = false) as ->.
    { destruct (Z.eqb_spec (numberofpoints volume_) 0); [contradiction|].
      destruct (Z.eqb_spec (numberoftetrahedra volume_) 0); [contradiction|].
      reflexivity. }
    unfold add_attribute_position at 1. unfold on_base at 1. cbv beta zeta.
    cbn [nb_vertices_ nb_volumes_ base calls].
    set (s1 := {| nb_vertices_ := numberofpoints volume_;
                  nb_volumes_ := numberoftetrahedra volume_;
                  base := _; calls := _ |}).
    destruct (create_vertices_spec (Z.to_nat (numberofpoints volume_))
                (pointlist volume_) 0 [] s1)
      as (ids & s2 & log1 & Hrun1 & Hids & (Hv1 & Hw1 & Hc1) & Hi1 & Ht1);
      [lia | lia |].
    rewrite Hrun1. rewrite Hw1. cbn [nb_volumes_ s1].
    destruct (create_tetrahedrons_spec (Z.to_nat (numberoftetrahedra volume_))
                (tetrahedronlist volume_) (firstnumber volume_) 0
                ([] ++ ids) s2)
      as (s3 & log2 & Hrun2 & (Hv2 & Hw2 & Hc2) & Hi2 & Ht2); [lia | lia | |].
    { simpl. rewrite Hids. rewrite Z2Nat.id by lia. exact Hin. }
    rewrite Hrun2.
    exists s3, ([CallAddAttributePosition] ++ log1 ++ log2).
    split; [reflexivity|]. split; [|split].
    + rewrite Hc2, Hc1. subst s1. simpl. rewrite <- !app_assoc. reflexivity.
    + rewrite !nb_insert_lines_app, Hi1, Hi2. unfold nb_insert_lines.
      simpl. lia.
    + rewrite !nb_add_tetra_app, Ht1, Ht2. unfold nb_add_tetra. simpl. lia.
Qed.

End TetgenImport.

Lemma import_file_impl_counts_witness :
  let v := TetgenStructureIO.one_tetrahedron in
  let s := TetgenStructureIO.empty_importer in
  let VI := TetgenStructureIO.line_counter in
  TetgenStructureIO.tetgen_wf v /\
  (TetgenStructureIO.numberofpoints v <> 0 /\
   TetgenStructureIO.numberoftetrahedra v <> 0 ->
   exists s' log,
     TetgenStructureIO.import_file_impl v s = Some (true, s') /\
     TetgenStructureIO.calls s' = TetgenStructureIO.calls s ++ log /\
     TetgenStructureIO.nb_insert_lines log = 4 /\
     TetgenStructureIO.nb_add_tetra log = 1).
Proof.
  intros v s VI.
  assert (TetgenStructureIO.tetgen_wf v) as Hwf.
  { unfold TetgenStructureIO.tetgen_wf. simpl.
    repeat split; try lia; repeat (constructor; [lia|]); constructor. }
  split; [exact Hwf|].
  exact (proj2 (import_file_impl_counts (VI := VI) v s) Hwf).
Defined.

(** ** Persistence of the bit-packed column *)

Lemma chunk_of_bytes_cons (n : nat) (w : Z) (bs : list byte) :
  ChunkArrayBool.chunk_of_bytes (S n) (u32_bytes w ++ bs)
  = wrap32 w :: ChunkArrayBool.chunk_of_bytes n bs.
Proof.
  cbn [ChunkArrayBool.chunk_of_bytes].
  rewrite take_app_length' by (symmetry; apply u32_bytes_length).
  rewrite drop_app_length' by (symmetry; apply u32_bytes_length).
  rewrite u32_of_bytes_bytes. reflexivity.
Qed.

Lemma chunk_of_bytes_zeros (m : nat) :
  ChunkArrayBool.chunk_of_bytes m (ChunkArrayBool.chunk_bytes (replicate m 0))
  = replicate m 0.
Proof.
  induction m as [|m IH]; [reflexivity|].
  change (ChunkArrayBool.chunk_bytes (replicate (S m) 0))
    with (u32_bytes 0 ++ ChunkArrayBool.chunk_bytes (replicate m 0)).
  rewrite chunk_of_bytes_cons, IH. reflexivity.
Qed.

Lemma read_three_words_spec (i : Z) :
  0 <= i < 70 ->
  ChunkArrayBool.read_three_words i = Some (bool_decide (i ∈ ChunkArrayBool.set_positions)).
Proof.
  intros Hi.
  assert (Forall (fun i => ChunkArrayBool.read_three_words i
                           = Some (bool_decide (i ∈ ChunkArrayBool.set_positions)))
            (seqZ 0 70)) as Hall.
  { apply (bool_decide_unpack _). vm_compute. exact I. }
  rewrite Forall_forall in Hall. apply Hall. apply elem_of_seqZ. lia.
Qed.

Section BoolPersistence.

Variable CHUNKSIZE : Z.
Hypothesis CHUNKSIZE_words : CHUNKSIZE mod 32 = 0.
Hypothesis CHUNKSIZE_range : 70 <= CHUNKSIZE < 2 ^ 32.

Lemma first_chunk_index (i : Z) :
  0 <= i < CHUNKSIZE -> i / CHUNKSIZE = 0 /\ i mod CHUNKSIZE = i.
Proof.
  intros Hi. split; [apply Z.div_small | apply Z.mod_small]; exact Hi.
Qed.

(** The words of a chunk beyond the first three. *)
Lemma new_chunk_three_words :
  exists m : nat,
    Z.of_nat m = CHUNKSIZE / 32 - 3 /\
    ChunkArrayBool.new_chunk CHUNKSIZE = 0 :: 0 :: 0 :: replicate m 0.
Proof.
  pose proof (Z.div_mod CHUNKSIZE 32 ltac:(lia)) as HC.
  rewrite CHUNKSIZE_words in HC.
  exists (Z.to_nat (CHUNKSIZE / 32 - 3)). split; [lia|].
  unfold ChunkArrayBool.new_chunk.
  replace (Z.to_nat (CHUNKSIZE / 32))
    with (S (S (S (Z.to_nat (CHUNKSIZE / 32 - 3))))) by lia.
  reflexivity.
Qed.

Lemma setTrue_first_chunk (i : Z) (c : list Z) (w : Z) :
  0 <= i < CHUNKSIZE ->
  c !! Z.to_nat (i / 32) = Some w ->
  ChunkArrayBool.setTrue CHUNKSIZE i [c]
  = Some [<[Z.to_nat (i / 32) := Z.lor w (wrap32 (Z.shiftl 1 (i mod 32)))]> c].
Proof.
  intros Hi Hw. destruct (first_chunk_index i Hi) as [Ed Em].
  unfold ChunkArrayBool.setTrue, ChunkArrayBool.word_at,
    ChunkArrayBool.store_word. cbv zeta. rewrite Ed, Em.
  change ([c] !! Z.to_nat 0) with (Some c). cbv iota. rewrite Hw.
  reflexivity.
Qed.

Lemma build_seventy (m : nat) :
  ChunkArrayBool.new_chunk CHUNKSIZE = 0 :: 0 :: 0 :: replicate m 0 ->
  ChunkArrayBool.seventy_lines CHUNKSIZE = Some (ChunkArrayBool.seventy_words m).
Proof.
  intros Hnew. unfold ChunkArrayBool.seventy_lines.
  assert (ChunkArrayBool.setNbChunks CHUNKSIZE 1 [] = [0 :: 0 :: 0 :: replicate m 0]) as ->.
  { unfold ChunkArrayBool.setNbChunks. simpl. unfold ChunkArrayBool.addChunk. rewrite Hnew. reflexivity. }
  rewrite (setTrue_first_chunk 0 _ 0) by (first [lia | reflexivity]). simpl.
  rewrite (setTrue_first_chunk 31 _ 1) by (first [lia | reflexivity]). simpl.
  rewrite (setTrue_first_chunk 32 _ 0) by (first [lia | reflexivity]). simpl.
  rewrite (setTrue_first_chunk 33 _ 1) by (first [lia | reflexivity]). simpl.
  rewrite (setTrue_first_chunk 69 _ 0) by (first [lia | reflexivity]). 
  reflexivity.
Qed.

Lemma CHUNKSIZE_three_words : 3 <= CHUNKSIZE / 32 /\ CHUNKSIZE = 32 * (CHUNKSIZE / 32).
Proof.
  pose proof (Z.div_mod CHUNKSIZE 32 ltac:(lia)) as HC.
  rewrite CHUNKSIZE_words in HC. lia.
Qed.

Lemma save_requests_seventy (m : nat) :
  ChunkArrayBool.save_requests CHUNKSIZE (ChunkArrayBool.seventy_words m) 70
  = [ChunkArrayBool.WriteHeader 1 96 (CHUNKSIZE / 8);
     ChunkArrayBool.WriteChunk 0 12].
Proof.
  unfold ChunkArrayBool.save_requests. cbv zeta.
  change (ChunkArrayBool.round_nbLines 70) with 96.
  change (wrap32 (Z.of_nat (length (ChunkArrayBool.seventy_words m)))) with 1.
  change (1 =? 0) with false. cbv iota.
  change (wrap32 (1 - 1)) with 0.
  change (0 * CHUNKSIZE) with 0.
  reflexivity.
Qed.

Lemma chunk_bytes_seventy (m : nat) (w0 w1 w2 : Z) :
  ChunkArrayBool.chunk_bytes (w0 :: w1 :: w2 :: replicate m 0)
  = (u32_bytes w0 ++ u32_bytes w1 ++ u32_bytes w2)
      ++ ChunkArrayBool.chunk_bytes (replicate m 0).
Proof.
  unfold ChunkArrayBool.chunk_bytes. cbn [flat_map].
  rewrite <- !app_assoc. reflexivity.
Qed.

Lemma save_seventy (m : nat) :
  ChunkArrayBool.save CHUNKSIZE (ChunkArrayBool.seventy_words m) 70
  = Some (u32_bytes 1 ++ u32_bytes 96 ++ u32_bytes (CHUNKSIZE / 8)
            ++ ChunkArrayBool.seventy_data).
Proof.
  destruct CHUNKSIZE_three_words as [H3 HC].
  unfold ChunkArrayBool.save, ChunkArrayBool.save_assert.
  change (ChunkArrayBool.round_nbLines 70) with 96.
  assert (96 / CHUNKSIZE <= 1) by (apply Z.div_le_upper_bound; lia).
  destruct (Z.leb_spec (96 / CHUNKSIZE) (Z.of_nat (length (ChunkArrayBool.seventy_words m))));
    [|simpl in *; lia].
  rewrite save_requests_seventy.
  cbn [mapM ChunkArrayBool.run_write]. 
  change (ChunkArrayBool.seventy_words m !! Z.to_nat 0) with (Some (2147483649 :: 3 :: 32 :: replicate m 0)).
  cbn [mbind option_bind].
  rewrite chunk_bytes_seventy. unfold write_bytes.
  rewrite length_app.
  destruct (Z.leb_spec 12 (Z.of_nat (length (u32_bytes 2147483649 ++ u32_bytes 3 ++ u32_bytes 32) + length (ChunkArrayBool.chunk_bytes (replicate m 0)))));
    [|simpl in *; lia].
  rewrite take_app_length' by reflexivity.
  cbn [mbind option_bind mret option_ret concat].
  rewrite <- !app_assoc. rewrite app_nil_r. reflexivity.
Qed.

Lemma load_seventy (m : nat) (rest : list byte) :
  ChunkArrayBool.new_chunk CHUNKSIZE = 0 :: 0 :: 0 :: replicate m 0 ->
  ChunkArrayBool.load CHUNKSIZE
    (u32_bytes 1 ++ u32_bytes 96 ++ u32_bytes (CHUNKSIZE / 8)
       ++ ChunkArrayBool.seventy_data ++ rest) []
  = Some (true, ChunkArrayBool.seventy_words m, rest).
Proof.
  intros Hnew. destruct CHUNKSIZE_three_words as [H3 HC].
  unfold ChunkArrayBool.load. rewrite read_header_written.
  cbn [mbind option_bind].
  assert (wrap32 (CHUNKSIZE / 8) = CHUNKSIZE / 8) as ->.
  { apply wrap32_small. split; [apply Z.div_pos; lia|].
    apply Z.div_lt_upper_bound; lia. }
  rewrite Z.eqb_refl. cbn [negb].
  change (wrap32 1) with 1. change (wrap32 96) with 96.
  change (1 =? 0) with false. cbv iota.
  change (wrap32 (1 - 1)) with 0. change (0 * CHUNKSIZE) with 0.
  change (wrap32 (96 - wrap32 0 / 8) / 8) with 12.
  change (seqZ 0 0) with (@nil Z). cbn [ChunkArrayBool.read_chunks].
  cbn [mbind option_bind fst snd].
  assert (ChunkArrayBool.setNbChunks CHUNKSIZE 1 []
          = [0 :: 0 :: 0 :: replicate m 0]) as ->.
  { unfold ChunkArrayBool.setNbChunks. simpl.
    unfold ChunkArrayBool.addChunk. rewrite Hnew. reflexivity. }
  unfold ChunkArrayBool.read_chunk.
  change ([0 :: 0 :: 0 :: replicate m 0] !! Z.to_nat 0)
    with (Some (0 :: 0 :: 0 :: replicate m 0)).
  cbn [mbind option_bind].
  rewrite chunk_bytes_seventy.
  rewrite read_bytes_fits by (rewrite length_app; simpl; lia).
  rewrite (take_app_length' ChunkArrayBool.seventy_data) by reflexivity.
  rewrite (drop_app_length' ChunkArrayBool.seventy_data) by reflexivity.
  rewrite drop_app_length' by reflexivity.
  cbn [mbind option_bind fst snd].
  unfold ChunkArrayBool.seventy_data. rewrite <- !app_assoc.
  cbn [length]. rewrite !chunk_of_bytes_cons.
  rewrite length_replicate, chunk_of_bytes_zeros.
  reflexivity.
Qed.

Lemma operator_index_seventy (m : nat) (i : Z) :
  0 <= i < 70 ->
  ChunkArrayBool.operator_index CHUNKSIZE (ChunkArrayBool.seventy_words m) i
  = Some (bool_decide (i ∈ ChunkArrayBool.set_positions)).
Proof.
  intros Hi. rewrite <- read_three_words_spec by exact Hi.
  destruct (first_chunk_index i ltac:(lia)) as [Ed Em].
  unfold ChunkArrayBool.operator_index, ChunkArrayBool.word_at,
    ChunkArrayBool.read_three_words. cbv zeta. rewrite Ed, Em.
  change (ChunkArrayBool.seventy_words m !! Z.to_nat 0)
    with (Some ([2147483649; 3; 32] ++ replicate m 0)).
  cbv iota. rewrite lookup_app_l; [reflexivity|].
  assert (i / 32 < 3) by (apply Z.div_lt_upper_bound; lia).
  assert (0 <= i / 32) by (apply Z.div_pos; lia).
  simpl. lia.
Qed.

(** C5.  The boolean column with one chunk in which exactly elements 0, 31,
    32, 33 and 69 were set is saved with [nbLines = 70] and loaded into a
    fresh column with the same [CHUNKSIZE]: [load] returns [true], and below
    70 exactly those elements read [true]. *)
Theorem bool_save_load_seventy :
  exists col fs col',
    ChunkArrayBool.seventy_lines CHUNKSIZE = Some col /\
    ChunkArrayBool.save CHUNKSIZE col 70 = Some fs /\
    ChunkArrayBool.load CHUNKSIZE fs [] = Some (true, col', []) /\
    ChunkArrayBool.getNbChunks col' = 1 /\
    forall i, 0 <= i < 70 ->
      ChunkArrayBool.operator_index CHUNKSIZE col i
        = Some (bool_decide (i ∈ ChunkArrayBool.set_positions)) /\
      ChunkArrayBool.operator_index CHUNKSIZE col' i
        = Some (bool_decide (i ∈ ChunkArrayBool.set_positions)).
Proof.
  destruct new_chunk_three_words as (m & _ & Hnew).
  exists (ChunkArrayBool.seventy_words m).
  eexists. exists (ChunkArrayBool.seventy_words m).
  split; [apply build_seventy; exact Hnew|].
  split; [apply save_seventy|].
  split.
  { rewrite <- (app_nil_r ChunkArrayBool.seventy_data).
    apply load_seventy. exact Hnew. }
  split; [reflexivity|].
  intros i Hi. split; apply operator_index_seventy; exact Hi.
Qed.

End BoolPersistence.

Lemma bool_save_load_seventy_witness :
  exists col fs col',
    ChunkArrayBool.seventy_lines 128 = Some col /\
    ChunkArrayBool.save 128 col 70 = Some fs /\
    ChunkArrayBool.load 128 fs [] = Some (true, col', []) /\
    ChunkArrayBool.getNbChunks col' = 1 /\
    forall i, 0 <= i < 70 ->
      ChunkArrayBool.operator_index 128 col i
        = Some (bool_decide (i ∈ ChunkArrayBool.set_positions)) /\
      ChunkArrayBool.operator_index 128 col' i
        = Some (bool_decide (i ∈ ChunkArrayBool.set_positions)).
Proof.
  apply (bool_save_load_seventy 128); [reflexivity | lia].
Defined.

(** ** Persistence of the generic column *)

Section Persistence.

Variable CHUNKSIZE : Z.
Context {T : Type} `{FixedSize T}.

#[local] Abbreviation chunk_bytes := (@ChunkArray.chunk_bytes T _).
#[local] Abbreviation chunk_of_bytes := (@ChunkArray.chunk_of_bytes T _).

Lemma object_bytes_length_nat (x : T) :
  length (object_bytes x) = Z.to_nat sizeof.
Proof. pose proof (object_bytes_length x). lia. Qed.

Lemma chunk_bytes_app (c1 c2 : list T) :
  chunk_bytes (c1 ++ c2) = chunk_bytes c1 ++ chunk_bytes c2.
Proof. apply flat_map_app. Qed.

Lemma chunk_bytes_length (c : list T) :
  Z.of_nat (length (chunk_bytes c)) = Z.of_nat (length c) * sizeof.
Proof.
  induction c as [|x c IH]; [reflexivity|].
  change (chunk_bytes (x :: c)) with (object_bytes x ++ chunk_bytes c).
  rewrite length_app, Nat2Z.inj_add, IH, object_bytes_length.
  cbn [length]. lia.
Qed.

(** Memory written from a chunk reads back as that chunk. *)
Lemma chunk_of_bytes_chunk_bytes (c : list T) (n : nat) (rest : list byte) :
  chunk_of_bytes (length c + n) (chunk_bytes c ++ rest)
  = c ++ chunk_of_bytes n rest.
Proof.
  induction c as [|x c IH]; [reflexivity|].
  change (chunk_bytes (x :: c)) with (object_bytes x ++ chunk_bytes c).
  rewrite <- app_assoc. cbn [length Nat.add ChunkArray.chunk_of_bytes].
  rewrite take_app_length' by (symmetry; apply object_bytes_length_nat).
  rewrite drop_app_length' by (symmetry; apply object_bytes_length_nat).
  rewrite of_object_bytes_bytes, IH. reflexivity.
Qed.

(** [fs.write] of the first elements of a chunk. *)
Lemma write_bytes_prefix (c1 c2 : list T) :
  write_bytes (chunk_bytes (c1 ++ c2)) (Z.of_nat (length c1) * sizeof)
  = Some (chunk_bytes c1).
Proof.
  unfold write_bytes. rewrite chunk_bytes_app, length_app, Nat2Z.inj_add.
  rewrite !chunk_bytes_length.
  pose proof sizeof_pos.
  destruct (Z.leb_spec (Z.of_nat (length c1) * sizeof)
              (Z.of_nat (length c1) * sizeof + Z.of_nat (length c2) * sizeof));
    [|nia].
  rewrite take_app_length'; [reflexivity|].
  pose proof (chunk_bytes_length c1). lia.
Qed.

(** [fs.read] into the first elements of a chunk. *)
Lemma read_chunk_prefix (t : list (list T)) (idx : nat)
    (src d1 d2 : list T) (rest : list byte) :
  t !! idx = Some (d1 ++ d2) -> length src = length d1 ->
  ChunkArray.read_chunk t (Z.of_nat idx) (Z.of_nat (length src) * sizeof)
    (chunk_bytes src ++ rest)
  = Some (<[idx := src ++ d2]> t, rest).
Proof.
  intros Hidx Hlen. unfold ChunkArray.read_chunk.
  rewrite Nat2Z.id, Hidx. cbn [mbind option_bind].
  pose proof sizeof_pos.
  rewrite read_bytes_fits
    by (rewrite chunk_bytes_app, length_app, Nat2Z.inj_add,
          !chunk_bytes_length; nia).
  rewrite chunk_bytes_app.
  assert (Z.to_nat (Z.of_nat (length src) * sizeof)
          = length (chunk_bytes src)) as Esrc
    by (pose proof (chunk_bytes_length src); lia).
  assert (length (chunk_bytes src) = length (chunk_bytes d1)) as Ed1.
  { pose proof (chunk_bytes_length src). pose proof (chunk_bytes_length d1).
    nia. }
  rewrite Esrc, take_app_length, drop_app_length.
  rewrite Ed1, drop_app_length.
  cbn [mbind option_bind fst snd].
  rewrite <- chunk_bytes_app.
  replace (length (d1 ++ d2)) with (length (src ++ d2) + 0)%nat
    by (rewrite !length_app; lia).
  rewrite <- (app_nil_r (chunk_bytes (src ++ d2))).
  rewrite chunk_of_bytes_chunk_bytes. cbn [ChunkArray.chunk_of_bytes].
  rewrite app_nil_r. reflexivity.
Qed.

Hypothesis CHUNKSIZE_min : 32 <= CHUNKSIZE.
Hypothesis chunk_byte_size_fits : CHUNKSIZE * sizeof < 2 ^ 32.

Lemma chunk_byte_size_eq :
  ChunkArray.chunk_byte_size CHUNKSIZE = CHUNKSIZE * sizeof.
Proof.
  unfold ChunkArray.chunk_byte_size. apply wrap64_small.
  pose proof sizeof_pos. split; [nia|].
  assert (2 ^ 32 < 2 ^ 64) by reflexivity. lia.
Qed.

#[local] Abbreviation wf := (@ChunkArray.wf CHUNKSIZE T).

(** The full chunks [pre] of [done ++ pre ++ post] as [save] writes them. *)
Lemma write_full_chunks (pre : list (list T)) :
  forall done post : list (list T),
    wf pre ->
    Forall2 (fun r bs => ChunkArray.run_write (done ++ pre ++ post) r = Some bs)
      (map (fun i => ChunkArray.WriteChunk i (ChunkArray.chunk_byte_size CHUNKSIZE))
           (seqZ (Z.of_nat (length done)) (Z.of_nat (length pre))))
      (map chunk_bytes pre).
Proof.
  induction pre as [|c pre IH]; intros done post Hfull.
  - constructor.
  - inversion Hfull as [|? ? Hc Hpre]; subst.
    rewrite seqZ_cons by (cbn [length]; lia).
    cbn [map]. constructor.
    + unfold ChunkArray.run_write. rewrite Nat2Z.id.
      change ((c :: pre) ++ post) with (c :: (pre ++ post)).
      rewrite list_lookup_middle by reflexivity. cbn [mbind option_bind].
      rewrite chunk_byte_size_eq.
      replace CHUNKSIZE with (Z.of_nat (length c)) at 1 by lia.
      rewrite <- (app_nil_r c) at 1. rewrite write_bytes_prefix.
      reflexivity.
    + replace (Z.pred (Z.of_nat (length (c :: pre))))
        with (Z.of_nat (length pre)) by (cbn [length]; lia).
      replace (Z.succ (Z.of_nat (length done)))
        with (Z.of_nat (length (done ++ [c])))
        by (rewrite length_app; cbn [length]; lia).
      replace (done ++ (c :: pre) ++ post) with ((done ++ [c]) ++ pre ++ post)
        by (rewrite <- app_assoc; reflexivity).
      apply IH. exact Hpre.
Qed.

(** The full chunks [pre] as [load] reads them over the chunks [fresh]. *)
Lemma read_full_chunks (pre : list (list T)) :
  forall (fresh done post : list (list T)) (rest : list byte),
    length fresh = length pre ->
    wf pre -> wf fresh ->
    ChunkArray.read_chunks
      (seqZ (Z.of_nat (length done)) (Z.of_nat (length pre)))
      (ChunkArray.chunk_byte_size CHUNKSIZE)
      (done ++ fresh ++ post)
      (concat (map chunk_bytes pre) ++ rest)
    = Some (done ++ pre ++ post, rest).
Proof.
  induction pre as [|c pre IH]; intros fresh done post rest Hlen Hpre Hfresh.
  - destruct fresh; [|discriminate]. reflexivity.
  - destruct fresh as [|f fresh]; [discriminate|].
    inversion Hpre as [|? ? Hc Hpre']; subst.
    inversion Hfresh as [|? ? Hf Hfresh']; subst.
    rewrite seqZ_cons by (cbn [length]; lia).
    cbn [ChunkArray.read_chunks map concat].
    rewrite chunk_byte_size_eq.
    replace CHUNKSIZE with (Z.of_nat (length c)) at 1 by lia.
    rewrite <- app_assoc.
    rewrite (read_chunk_prefix _ (length done) c f [])
      by first [ rewrite app_nil_r; apply list_lookup_middle; reflexivity
               | lia ].
    cbn [mbind option_bind fst snd].
    replace (Z.pred (Z.of_nat (length (c :: pre))))
      with (Z.of_nat (length pre)) by (cbn [length]; lia).
    replace (Z.succ (Z.of_nat (length done)))
      with (Z.of_nat (length (done ++ [c])))
      by (rewrite length_app; cbn [length]; lia).
    rewrite app_nil_r.
    replace (<[length done := c]> (done ++ (f :: fresh) ++ post))
      with ((done ++ [c]) ++ fresh ++ post).
    2:{ rewrite <- (Nat.add_0_r (length done)), insert_app_r.
        rewrite <- app_assoc. reflexivity. }
    replace (Z.of_nat (length c)) with CHUNKSIZE by lia.
    rewrite <- chunk_byte_size_eq.
    rewrite IH by (first [assumption | cbn [length] in Hlen; lia]).
    rewrite <- app_assoc. reflexivity.
Qed.

(** What [save] writes for a column whose last chunk is [lastc], [n] being
    the number of live lines of that chunk. *)
Lemma save_nonempty (pre : list (list T)) (lastc : list T) (nbLines : Z) :
  wf (pre ++ [lastc]) ->
  Z.of_nat (length pre) * CHUNKSIZE <= nbLines
    <= (Z.of_nat (length pre) + 1) * CHUNKSIZE ->
  nbLines < 2 ^ 32 ->
  ChunkArray.save CHUNKSIZE (pre ++ [lastc]) nbLines
  = Some (u32_bytes (Z.of_nat (length pre) + 1) ++ u32_bytes nbLines
            ++ u32_bytes (CHUNKSIZE * sizeof)
            ++ concat (map chunk_bytes pre)
            ++ chunk_bytes
                 (take (Z.to_nat (nbLines - Z.of_nat (length pre) * CHUNKSIZE))
                       lastc)).
Proof.
  intros Hwf Hrange Hu32.
  apply Forall_app in Hwf as [Hpre Hlast].
  inversion Hlast as [|? ? Hlastc _]; subst.
  pose proof sizeof_pos as Hsz.
  set (k := Z.of_nat (length pre) + 1).
  set (nbl := nbLines - Z.of_nat (length pre) * CHUNKSIZE).
  assert (0 <= nbl <= CHUNKSIZE) as Hnbl by (unfold nbl; lia).
  assert (wrap32 k = k) as Wk by (apply wrap32_small; unfold k; nia).
  unfold ChunkArray.save, ChunkArray.save_assert.
  assert (nbLines / CHUNKSIZE <= k)
    by (apply Z.div_le_upper_bound; unfold k; lia).
  destruct (Z.leb_spec (nbLines / CHUNKSIZE)
              (Z.of_nat (length (pre ++ [lastc]))));
    [|rewrite length_app in *; cbn [length] in *; lia].
  unfold ChunkArray.save_requests. cbv zeta.
  replace (Z.of_nat (length (pre ++ [lastc]))) with k
    by (rewrite length_app; cbn [length]; lia).
  rewrite Wk.
  destruct (Z.eqb_spec k 0); [unfold k in *; lia|].
  assert (wrap32 (k - 1) = Z.of_nat (length pre)) as ->
    by (rewrite wrap32_small by (unfold k; nia); unfold k; lia).
  rewrite (wrap32_small (Z.of_nat (length pre) * CHUNKSIZE)) by nia.
  fold nbl. rewrite (wrap32_small nbl) by lia.
  rewrite (wrap64_small (nbl * sizeof))
    by (assert (2 ^ 32 < 2 ^ 64) by reflexivity; nia).
  rewrite chunk_byte_size_eq at 1.
  rewrite (wrap32_small (CHUNKSIZE * sizeof)) by nia.
  erewrite mapM_Some_2.
  2:{ constructor; [reflexivity|].
      apply Forall2_app.
      - apply (write_full_chunks pre [] [lastc]). exact Hpre.
      - constructor; [|constructor].
        unfold ChunkArray.run_write. rewrite Nat2Z.id.
        rewrite list_lookup_middle by reflexivity. cbn [mbind option_bind].
        pose proof (write_bytes_prefix (take (Z.to_nat nbl) lastc)
                      (drop (Z.to_nat nbl) lastc)) as Hw.
        rewrite take_drop, length_take in Hw.
        replace (Z.of_nat (Z.to_nat nbl `min` length lastc)) with nbl
          in Hw by lia.
        exact Hw. }
  cbn [mbind option_bind concat]. rewrite concat_app. cbn [concat].
  rewrite app_nil_r, <- !app_assoc. reflexivity.
Qed.

(** What [load] rebuilds from that stream in a fresh column. *)
Lemma load_nonempty (pre : list (list T)) (lastc : list T) (nbLines : Z)
    (rest : list byte) :
  wf (pre ++ [lastc]) ->
  Z.of_nat (length pre) * CHUNKSIZE <= nbLines
    <= (Z.of_nat (length pre) + 1) * CHUNKSIZE ->
  nbLines < 2 ^ 32 ->
  let n := Z.to_nat (nbLines - Z.of_nat (length pre) * CHUNKSIZE) in
  ChunkArray.load CHUNKSIZE
    ((u32_bytes (Z.of_nat (length pre) + 1) ++ u32_bytes nbLines
        ++ u32_bytes (CHUNKSIZE * sizeof)
        ++ concat (map chunk_bytes pre) ++ chunk_bytes (take n lastc))
       ++ rest) []
  = Some (true,
          pre ++ [take n lastc ++ drop n (ChunkArray.new_chunk CHUNKSIZE)],
          rest).
Proof.
  intros Hwf Hrange Hu32 n.
  apply Forall_app in Hwf as [Hpre Hlast].
  inversion Hlast as [|? ? Hlastc _]; subst.
  pose proof sizeof_pos as Hsz.
  set (k := Z.of_nat (length pre) + 1).
  set (nbl := nbLines - Z.of_nat (length pre) * CHUNKSIZE) in *.
  assert (0 <= nbl <= CHUNKSIZE) as Hnbl by (unfold nbl; lia).
  assert (wrap32 k = k) as Wk by (apply wrap32_small; unfold k; nia).
  set (new := ChunkArray.new_chunk CHUNKSIZE).
  assert (length new = Z.to_nat CHUNKSIZE) as Hnew
    by (unfold new, ChunkArray.new_chunk; apply length_replicate).
  unfold ChunkArray.load. rewrite <- !app_assoc.
  rewrite read_header_written. cbn [mbind option_bind].
  rewrite Wk, (wrap32_small nbLines) by nia.
  rewrite (wrap32_small (CHUNKSIZE * sizeof)) by nia.
  rewrite chunk_byte_size_eq. rewrite Z.eqb_refl. cbn [negb].
  destruct (Z.eqb_spec k 0); [unfold k in *; lia|].
  assert (wrap32 (k - 1) = Z.of_nat (length pre)) as ->
    by (rewrite wrap32_small by (unfold k; nia); unfold k; lia).
  rewrite (wrap32_small (CHUNKSIZE * Z.of_nat (length pre))) by nia.
  replace (nbLines - CHUNKSIZE * Z.of_nat (length pre)) with nbl
    by (unfold nbl; lia).
  rewrite (wrap32_small nbl) by lia.
  rewrite (wrap64_small (nbl * sizeof))
    by (assert (2 ^ 32 < 2 ^ 64) by reflexivity; nia).
  assert (ChunkArray.setNbChunks CHUNKSIZE k []
          = [] ++ replicate (length pre) new ++ [new]) as ->.
  { unfold ChunkArray.setNbChunks. cbn [length].
    destruct (Z.leb_spec (Z.of_nat 0) k); [|unfold k in *; lia].
    rewrite addChunks_app.
    replace (Z.to_nat (k - Z.of_nat 0)) with (length pre + 1)%nat
      by (unfold k; lia).
    rewrite replicate_add. reflexivity. }
  rewrite <- chunk_byte_size_eq.
  rewrite (read_full_chunks pre (replicate (length pre) new) [] [new]).
  2:{ apply length_replicate. }
  2:{ exact Hpre. }
  2:{ apply Forall_replicate. exact Hnew. }
  cbn [mbind option_bind fst snd app].
  replace nbl with (Z.of_nat (length (take n lastc)))
    by (rewrite length_take; unfold n; lia).
  rewrite (read_chunk_prefix (pre ++ [new]) (length pre) (take n lastc)
             (take n new) (drop n new)).
  2:{ rewrite take_drop. apply list_lookup_middle. reflexivity. }
  2:{ rewrite !length_take. unfold n. lia. }
  cbn [mbind option_bind fst snd].
  rewrite <- (Nat.add_0_r (length pre)) at 1. rewrite insert_app_r.
  reflexivity.
Qed.

Lemma save_load_empty :
  exists fs,
    ChunkArray.save CHUNKSIZE (T := T) [] 0 = Some fs /\
    ChunkArray.load CHUNKSIZE (T := T) fs [] = Some (true, [], []).
Proof.
  pose proof sizeof_pos as Hsz.
  exists (u32_bytes 0 ++ u32_bytes 0 ++ u32_bytes (CHUNKSIZE * sizeof)).
  split.
  - unfold ChunkArray.save, ChunkArray.save_assert.
    change (0 / CHUNKSIZE) with 0. cbn [length].
    change (Z.of_nat 0) with 0. change (0 <=? 0) with true. cbv iota.
    unfold ChunkArray.save_requests. cbv zeta.
    cbn [length]. change (wrap32 (Z.of_nat 0)) with 0.
    change (0 =? 0) with true. cbv iota.
    rewrite chunk_byte_size_eq, (wrap32_small (CHUNKSIZE * sizeof)) by nia.
    cbn [mapM ChunkArray.run_write mbind option_bind mret option_ret concat].
    rewrite app_nil_r. reflexivity.
  - unfold ChunkArray.load.
    rewrite <- (app_nil_r (u32_bytes (CHUNKSIZE * sizeof))).
    rewrite read_header_written.
    cbn [mbind option_bind].
    rewrite (wrap32_small (CHUNKSIZE * sizeof)) by nia.
    rewrite chunk_byte_size_eq, Z.eqb_refl. cbn [negb].
    change (wrap32 0) with 0. change (0 =? 0) with true. cbv iota.
    reflexivity.
Qed.

(** C3.  A column of fixed-size elements whose chunks are all allocated
    and whose [nbLines] live lines end in its last chunk is saved; loading
    the bytes into a fresh column with the same [CHUNKSIZE] and [T] returns
    [true] and gives a column with the same number of chunks in which every
    index below [nbLines] holds the element it held in the saved column. *)
Theorem save_load_roundtrip (t : list (list T)) (nbLines : Z) :
  wf t ->
  0 <= nbLines < 2 ^ 32 ->
  (Z.of_nat (length t) - 1) * CHUNKSIZE <= nbLines
    <= Z.of_nat (length t) * CHUNKSIZE ->
  exists fs t',
    ChunkArray.save CHUNKSIZE t nbLines = Some fs /\
    ChunkArray.load CHUNKSIZE fs [] = Some (true, t', []) /\
    ChunkArray.getNbChunks t' = ChunkArray.getNbChunks t /\
    forall i, 0 <= i < nbLines ->
      is_Some (ChunkArray.operator_index CHUNKSIZE t i) /\
      ChunkArray.operator_index CHUNKSIZE t' i
      = ChunkArray.operator_index CHUNKSIZE t i.
Proof.
  intros Hwf Hu32 Hrange.
  destruct t as [|lastc pre _] using rev_ind.
  - cbn [length] in Hrange. assert (nbLines = 0) as -> by lia.
    destruct save_load_empty as (fs & Hs & Hl).
    exists fs, []. repeat split; try assumption. all: lia.
  - rewrite length_app in Hrange. cbn [length] in Hrange.
    set (n := Z.to_nat (nbLines - Z.of_nat (length pre) * CHUNKSIZE)).
    set (new := ChunkArray.new_chunk CHUNKSIZE).
    eexists. exists (pre ++ [take n lastc ++ drop n new]).
    split; [apply save_nonempty; [exact Hwf | lia | lia]|].
    split.
    { rewrite <- (app_nil_r (u32_bytes _ ++ _)).
      apply load_nonempty; [exact Hwf | lia | lia]. }
    split.
    { unfold ChunkArray.getNbChunks. rewrite !length_app. reflexivity. }
    intros i Hi.
    apply Forall_app in Hwf as [Hpre Hlast].
    inversion Hlast as [|? ? Hlastc _]; subst.
    assert (0 <= i / CHUNKSIZE) by (apply Z.div_pos; lia).
    assert (i / CHUNKSIZE < Z.of_nat (length pre) + 1)
      by (apply Z.div_lt_upper_bound; lia).
    pose proof (Z.mod_pos_bound i CHUNKSIZE ltac:(lia)) as Hm.
    pose proof (Z.div_mod i CHUNKSIZE ltac:(lia)) as Hd.
    unfold ChunkArray.operator_index.
    destruct (decide (i / CHUNKSIZE < Z.of_nat (length pre))) as [Hlt|Hge].
    + rewrite !(lookup_app_l pre) by lia.
      destruct (lookup_lt_is_Some_2 pre (Z.to_nat (i / CHUNKSIZE)))
        as [c Hc]; [lia|].
      rewrite Hc. split; [|reflexivity].
      apply lookup_lt_is_Some_2.
      rewrite Forall_forall in Hpre.
      rewrite (Hpre c) by (eapply list_elem_of_lookup_2; exact Hc). lia.
    + assert (Z.to_nat (i / CHUNKSIZE) = length pre) as -> by lia.
      rewrite !list_lookup_middle by reflexivity.
      assert (Z.to_nat (i mod CHUNKSIZE) < n)%nat by (unfold n; nia).
      rewrite lookup_app_l by (rewrite length_take; lia).
      rewrite lookup_take_lt by lia. split; [|reflexivity].
      apply lookup_lt_is_Some_2. lia.
Qed.

End Persistence.

(** Two chunks of 32 [unsigned char], 40 live lines. *)
Lemma save_load_roundtrip_witness :
  let t : list (list byte) := [replicate 32 Byte.x01; replicate 32 Byte.x02] in
  exists fs t',
    ChunkArray.save 32 t 40 = Some fs /\
    ChunkArray.load 32 fs [] = Some (true, t', []) /\
    ChunkArray.getNbChunks t' = ChunkArray.getNbChunks t /\
    forall i, 0 <= i < 40 ->
      is_Some (ChunkArray.operator_index 32 t i) /\
      ChunkArray.operator_index 32 t' i = ChunkArray.operator_index 32 t i.
Proof.
  intros t.
  apply (save_load_roundtrip 32 (H := FixedSize_uchar) ltac:(lia)
           ltac:(reflexivity) t 40).
  - repeat constructor.
  - lia.
  - simpl. lia.
Defined.

(** C3 as the claim states it, for every column and every number of
    lines, fails.  With two chunks of 32 elements and 10 lines the
    assertion of [save] passes and the length of the last write wraps
    around, so that [save] reads past the end of the chunk: no stream is
    produced.  With a chunk byte size of 2^32 the header word holds 0 and
    [load] returns false on what [save] wrote. *)
Lemma save_load_roundtrip_counterexample :
  (let t : list (list byte) := [replicate 32 Byte.x01; replicate 32 Byte.x02] in
   ChunkArray.wf 32 t /\
   ChunkArray.save_assert 32 t 10 = true /\
   ChunkArray.save 32 t 10 = None /\
   ~ (exists fs t',
        ChunkArray.save 32 t 10 = Some fs /\
        ChunkArray.load 32 fs [] = Some (true, t', []) /\
        ChunkArray.getNbChunks t' = ChunkArray.getNbChunks t /\
        forall i, 0 <= i < 10 ->
          ChunkArray.operator_index 32 t' i
          = ChunkArray.operator_index 32 t i)) /\
  (let t : list (list (byte * byte * byte * byte)) := [] in
   exists fs,
     ChunkArray.save 1073741824 t 0 = Some fs /\
     ChunkArray.load 1073741824 fs [] = Some (false, [], []) /\
     ~ (exists t', ChunkArray.load 1073741824 fs [] = Some (true, t', []))).
Proof.
  split.
  - intros t.
    assert (ChunkArray.save 32 t 10 = None) as Hnone by reflexivity.
    split; [repeat constructor|]. split; [reflexivity|].
    split; [exact Hnone|].
    intros (fs & t' & Hs & _). rewrite Hnone in Hs. discriminate.
  - intros t. exists (u32_bytes 0 ++ u32_bytes 0 ++ u32_bytes 4294967296).
    split; [reflexivity|].
    assert (ChunkArray.load 1073741824
              (u32_bytes 0 ++ u32_bytes 0 ++ u32_bytes 4294967296)
              ([] : list (list (byte * byte * byte * byte)))
            = Some (false, [], [])) as Hload by reflexivity.
    split; [exact Hload|].
    intros (t' & Ht).
    pose proof (eq_trans (eq_sym Ht) Hload) as E. discriminate E.
Qed.

(** * Further properties *)

(** ** Element access in the generic column *)

Section GenericElements.

Variable CHUNKSIZE : Z.
Context {T : Type} `{FixedSize T}.
Hypothesis CHUNKSIZE_pos : 0 < CHUNKSIZE.

#[local] Abbreviation gwf := (@ChunkArray.wf CHUNKSIZE T).
#[local] Abbreviation get := (@ChunkArray.operator_index CHUNKSIZE T).

Lemma index_parts (i : Z) :
  0 <= i ->
  0 <= i / CHUNKSIZE /\ 0 <= i mod CHUNKSIZE < CHUNKSIZE /\
  i = CHUNKSIZE * (i / CHUNKSIZE) + i mod CHUNKSIZE.
Proof.
  intros Hi.
  pose proof (Z.mod_pos_bound i CHUNKSIZE CHUNKSIZE_pos).
  pose proof (Z.div_mod i CHUNKSIZE ltac:(lia)).
  assert (0 <= i / CHUNKSIZE) by (apply Z.div_pos; lia).
  lia.
Qed.

Lemma in_range_element (t : list (list T)) (i : Z) :
  gwf t -> 0 <= i < Z.of_nat (length t) * CHUNKSIZE ->
  exists c x, t !! Z.to_nat (i / CHUNKSIZE) = Some c /\
              c !! Z.to_nat (i mod CHUNKSIZE) = Some x.
Proof.
  intros Hwf Hi. destruct (index_parts i) as (Hjj & Hx & _); [lia|].
  assert (i / CHUNKSIZE < Z.of_nat (length t))
    by (apply Z.div_lt_upper_bound; lia).
  destruct (lookup_lt_is_Some_2 t (Z.to_nat (i / CHUNKSIZE))) as [c Hc];
    [lia|].
  assert (length c = Z.to_nat CHUNKSIZE) as Hlen.
  { unfold ChunkArray.wf in Hwf. rewrite Forall_forall in Hwf.
    apply Hwf. eapply list_elem_of_lookup_2. exact Hc. }
  destruct (lookup_lt_is_Some_2 c (Z.to_nat (i mod CHUNKSIZE))) as [x Hx'];
    [lia|].
  exists c, x. split; assumption.
Qed.

(** Reading after [setVal]. *)
Lemma operator_index_setVal (t t' : list (list T)) (i j : Z) (v : T) :
  0 <= i -> 0 <= j ->
  ChunkArray.setVal CHUNKSIZE i v t = Some t' ->
  get t' j = if decide (j = i) then Some v else get t j.
Proof.
  intros Hi Hj Hset.
  destruct (index_parts i Hi) as (Hii & Hix & Ei).
  destruct (index_parts j Hj) as (Hjj & Hjx & Ej).
  unfold ChunkArray.setVal in Hset.
  destruct (t !! Z.to_nat (i / CHUNKSIZE)) as [c|] eqn:Hc; [|discriminate].
  destruct (c !! Z.to_nat (i mod CHUNKSIZE)) as [x|] eqn:Hx; [|discriminate].
  injection Hset as <-.
  pose proof (lookup_lt_Some _ _ _ Hc) as Hltc.
  pose proof (lookup_lt_Some _ _ _ Hx) as Hltx.
  unfold ChunkArray.operator_index.
  destruct (decide (j = i)) as [->|Hne].
  - rewrite list_lookup_insert_eq by exact Hltc.
    apply list_lookup_insert_eq. exact Hltx.
  - destruct (decide (j / CHUNKSIZE = i / CHUNKSIZE)) as [E|N].
    + rewrite E, list_lookup_insert_eq by exact Hltc. rewrite Hc.
      apply list_lookup_insert_ne. intros E'. apply Hne. lia.
    + rewrite list_lookup_insert_ne by lia. reflexivity.
Qed.

Lemma setVal_in_range (t : list (list T)) (i : Z) (v : T) :
  gwf t -> 0 <= i < Z.of_nat (length t) * CHUNKSIZE ->
  exists t', ChunkArray.setVal CHUNKSIZE i v t = Some t' /\
             gwf t' /\ length t' = length t.
Proof.
  intros Hwf Hi. destruct (in_range_element t i Hwf Hi) as (c & x & Hc & Hx).
  unfold ChunkArray.setVal. rewrite Hc, Hx. eexists. split; [reflexivity|].
  split; [|apply length_insert].
  apply Forall_insert; [exact Hwf|]. rewrite length_insert.
  unfold ChunkArray.wf in Hwf. rewrite Forall_forall in Hwf.
  apply Hwf. eapply list_elem_of_lookup_2. exact Hc.
Qed.

(** X1.  [setVal] on an index below the capacity stores the value there:
    the index reads it back, every other index reads what it read before,
    and the table keeps its chunks. *)
Theorem setVal_read_frame (t : list (list T)) (i : Z) (v : T) :
  gwf t -> 0 <= i < Z.of_nat (length t) * CHUNKSIZE ->
  exists t',
    ChunkArray.setVal CHUNKSIZE i v t = Some t' /\
    gwf t' /\ ChunkArray.getNbChunks t' = ChunkArray.getNbChunks t /\
    get t' i = Some v /\
    forall j, 0 <= j -> j <> i -> get t' j = get t j.
Proof.
  intros Hwf Hi.
  destruct (setVal_in_range t i v Hwf Hi) as (t' & Hset & Hwf' & Hlen).
  exists t'. split; [exact Hset|]. split; [exact Hwf'|].
  split; [unfold ChunkArray.getNbChunks; rewrite Hlen; reflexivity|].
  split.
  - rewrite (operator_index_setVal t t' i i v) by (try lia; exact Hset).
    rewrite decide_True by reflexivity. reflexivity.
  - intros j Hj Hne.
    rewrite (operator_index_setVal t t' i j v) by (try lia; exact Hset).
    rewrite decide_False by exact Hne. reflexivity.
Qed.

(** X2.  [copyElt] makes [dst] read what [src] read and leaves every other
    element as it was. *)
Theorem copyElt_spec (t : list (list T)) (dst src : Z) :
  gwf t ->
  0 <= dst < Z.of_nat (length t) * CHUNKSIZE ->
  0 <= src < Z.of_nat (length t) * CHUNKSIZE ->
  exists t',
    ChunkArray.copyElt CHUNKSIZE dst src t = Some t' /\
    gwf t' /\
    get t' dst = get t src /\
    forall j, 0 <= j -> j <> dst -> get t' j = get t j.
Proof.
  intros Hwf Hdst Hsrc.
  destruct (in_range_element t src Hwf Hsrc) as (c & x & Hc & Hx).
  assert (get t src = Some x) as Hget
    by (unfold ChunkArray.operator_index; rewrite Hc; exact Hx).
  destruct (setVal_in_range t dst x Hwf Hdst) as (t' & Hset & Hwf' & Hlen).
  exists t'. unfold ChunkArray.copyElt. rewrite Hget. cbn [mbind option_bind].
  split; [exact Hset|]. split; [exact Hwf'|]. split.
  - rewrite (operator_index_setVal t t' dst dst x) by (try lia; exact Hset).
    rewrite decide_True by reflexivity. reflexivity.
  - intros j Hj Hne.
    rewrite (operator_index_setVal t t' dst j x) by (try lia; exact Hset).
    rewrite decide_False by exact Hne. reflexivity.
Qed.

(** The elements after [swapElt]. *)
Lemma swapElt_reads (t : list (list T)) (id1 id2 : Z) :
  gwf t ->
  0 <= id1 < Z.of_nat (length t) * CHUNKSIZE ->
  0 <= id2 < Z.of_nat (length t) * CHUNKSIZE ->
  exists t',
    ChunkArray.swapElt CHUNKSIZE id1 id2 t = Some t' /\
    gwf t' /\ length t' = length t /\
    forall j, 0 <= j ->
      get t' j = if decide (j = id2) then get t id1
                 else if decide (j = id1) then get t id2 else get t j.
Proof.
  intros Hwf H1 H2.
  destruct (in_range_element t id1 Hwf H1) as (c1 & x1 & Hc1 & Hx1).
  destruct (in_range_element t id2 Hwf H2) as (c2 & x2 & Hc2 & Hx2).
  assert (get t id1 = Some x1) as Hg1
    by (unfold ChunkArray.operator_index; rewrite Hc1; exact Hx1).
  assert (get t id2 = Some x2) as Hg2
    by (unfold ChunkArray.operator_index; rewrite Hc2; exact Hx2).
  destruct (setVal_in_range t id1 x2 Hwf H1) as (t1 & Hs1 & Hwf1 & Hl1).
  destruct (setVal_in_range t1 id2 x1 Hwf1) as (t2 & Hs2 & Hwf2 & Hl2);
    [rewrite Hl1; exact H2|].
  exists t2. unfold ChunkArray.swapElt. rewrite Hg1, Hg2.
  cbn [mbind option_bind]. rewrite Hs1. cbn [mbind option_bind].
  split; [exact Hs2|]. split; [exact Hwf2|].
  split; [rewrite Hl2; exact Hl1|].
  intros j Hj.
  rewrite (operator_index_setVal t1 t2 id2 j x1) by (try lia; exact Hs2).
  destruct (decide (j = id2)); [reflexivity|].
  apply (operator_index_setVal t t1 id1 j x2); (try lia; exact Hs1).
Qed.

(** X3.  [swapElt] on two indices below the capacity exchanges the two
    elements and leaves every other element as it was. *)
Theorem swapElt_spec (t : list (list T)) (id1 id2 : Z) :
  gwf t ->
  0 <= id1 < Z.of_nat (length t) * CHUNKSIZE ->
  0 <= id2 < Z.of_nat (length t) * CHUNKSIZE ->
  exists t',
    ChunkArray.swapElt CHUNKSIZE id1 id2 t = Some t' /\
    gwf t' /\
    get t' id1 = get t id2 /\
    get t' id2 = get t id1 /\
    forall j, 0 <= j -> j <> id1 -> j <> id2 -> get t' j = get t j.
Proof.
  intros Hwf H1 H2.
  destruct (swapElt_reads t id1 id2 Hwf H1 H2) as (t' & Hs & Hwf' & _ & Hall).
  exists t'. split; [exact Hs|]. split; [exact Hwf'|]. split; [|split].
  - rewrite Hall by lia. destruct (decide (id1 = id2)) as [->|N].
    + reflexivity.
    + rewrite decide_True by reflexivity. reflexivity.
  - rewrite Hall by lia. rewrite decide_True by reflexivity. reflexivity.
  - intros j Hj N1 N2. rewrite Hall by exact Hj.
    rewrite !decide_False by assumption. reflexivity.
Qed.

(** Two well-formed tables with the same elements are equal. *)
Lemma table_ext (t t' : list (list T)) :
  gwf t -> gwf t' -> length t = length t' ->
  (forall i, 0 <= i < Z.of_nat (length t) * CHUNKSIZE -> get t i = get t' i) ->
  t = t'.
Proof.
  intros Hwf Hwf' Hlen Hall. apply list_eq. intros jj.
  destruct (decide (jj < length t)%nat) as [Hlt|Hge].
  2:{ rewrite !lookup_ge_None_2 by lia. reflexivity. }
  destruct (lookup_lt_is_Some_2 t jj Hlt) as [c Hc].
  destruct (lookup_lt_is_Some_2 t' jj) as [c' Hc']; [lia|].
  rewrite Hc, Hc'. f_equal.
  assert (length c = Z.to_nat CHUNKSIZE) as Lc.
  { unfold ChunkArray.wf in Hwf. rewrite Forall_forall in Hwf.
    apply Hwf. eapply list_elem_of_lookup_2. exact Hc. }
  assert (length c' = Z.to_nat CHUNKSIZE) as Lc'.
  { unfold ChunkArray.wf in Hwf'. rewrite Forall_forall in Hwf'.
    apply Hwf'. eapply list_elem_of_lookup_2. exact Hc'. }
  apply list_eq. intros x.
  destruct (decide (x < Z.to_nat CHUNKSIZE)%nat) as [Hx|Hx].
  2:{ rewrite !lookup_ge_None_2 by lia. reflexivity. }
  specialize (Hall (CHUNKSIZE * Z.of_nat jj + Z.of_nat x) ltac:(nia)).
  unfold ChunkArray.operator_index in Hall.
  assert ((CHUNKSIZE * Z.of_nat jj + Z.of_nat x) / CHUNKSIZE = Z.of_nat jj)
    as Ed by (symmetry; apply (Z.div_unique _ _ _ (Z.of_nat x)); lia).
  assert ((CHUNKSIZE * Z.of_nat jj + Z.of_nat x) mod CHUNKSIZE = Z.of_nat x)
    as Em by (symmetry; apply (Z.mod_unique _ _ (Z.of_nat jj)); lia).
  rewrite Ed, Em, !Nat2Z.id, Hc, Hc' in Hall. exact Hall.
Qed.

(** X4.  Swapping the same two elements twice gives back the table. *)
Theorem swapElt_involutive (t t' : list (list T)) (id1 id2 : Z) :
  gwf t ->
  0 <= id1 < Z.of_nat (length t) * CHUNKSIZE ->
  0 <= id2 < Z.of_nat (length t) * CHUNKSIZE ->
  ChunkArray.swapElt CHUNKSIZE id1 id2 t = Some t' ->
  ChunkArray.swapElt CHUNKSIZE id1 id2 t' = Some t.
Proof.
  intros Hwf H1 H2 Hswap.
  destruct (swapElt_reads t id1 id2 Hwf H1 H2) as (u & Hu & Hwfu & Hlu & Hur).
  rewrite Hswap in Hu. injection Hu as <-.
  destruct (swapElt_reads t' id1 id2 Hwfu) as (w & Hw & Hwfw & Hlw & Hwr);
    [rewrite Hlu; exact H1 | rewrite Hlu; exact H2 |].
  rewrite Hw. f_equal. apply table_ext; [exact Hwfw | exact Hwf | lia |].
  intros i Hi. rewrite Hlw, Hlu in Hi.
  rewrite Hwr by lia. rewrite !Hur by lia.
  repeat destruct (decide _); congruence.
Qed.

End GenericElements.

Lemma setVal_read_frame_witness :
  let t : list (list byte) := [[Byte.x01; Byte.x02]; [Byte.x03; Byte.x04]] in
  exists t',
    ChunkArray.setVal 2 3 Byte.x09 t = Some t' /\
    ChunkArray.wf 2 t' /\
    ChunkArray.getNbChunks t' = ChunkArray.getNbChunks t /\
    ChunkArray.operator_index 2 t' 3 = Some Byte.x09 /\
    forall j, 0 <= j -> j <> 3 ->
      ChunkArray.operator_index 2 t' j = ChunkArray.operator_index 2 t j.
Proof.
  intros t.
  apply (setVal_read_frame 2 ltac:(lia) t 3 Byte.x09).
  - repeat constructor.
  - simpl. lia.
Defined.

Lemma copyElt_spec_witness :
  let t : list (list byte) := [[Byte.x01; Byte.x02]; [Byte.x03; Byte.x04]] in
  exists t',
    ChunkArray.copyElt 2 0 3 t = Some t' /\
    ChunkArray.wf 2 t' /\
    ChunkArray.operator_index 2 t' 0 = ChunkArray.operator_index 2 t 3 /\
    forall j, 0 <= j -> j <> 0 ->
      ChunkArray.operator_index 2 t' j = ChunkArray.operator_index 2 t j.
Proof.
  intros t.
  apply (copyElt_spec 2 ltac:(lia) t 0 3).
  - repeat constructor.
  - simpl. lia.
  - simpl. lia.
Defined.

Lemma swapElt_spec_witness :
  let t : list (list byte) := [[Byte.x01; Byte.x02]; [Byte.x03; Byte.x04]] in
  exists t',
    ChunkArray.swapElt 2 1 2 t = Some t' /\
    ChunkArray.wf 2 t' /\
    ChunkArray.operator_index 2 t' 1 = ChunkArray.operator_index 2 t 2 /\
    ChunkArray.operator_index 2 t' 2 = ChunkArray.operator_index 2 t 1 /\
    forall j, 0 <= j -> j <> 1 -> j <> 2 ->
      ChunkArray.operator_index 2 t' j = ChunkArray.operator_index 2 t j.
Proof.
  intros t.
  apply (swapElt_spec 2 ltac:(lia) t 1 2).
  - repeat constructor.
  - simpl. lia.
  - simpl. lia.
Defined.

Lemma swapElt_involutive_witness :
  let t : list (list byte) := [[Byte.x01; Byte.x02]; [Byte.x03; Byte.x04]] in
  let t' : list (list byte) := [[Byte.x01; Byte.x03]; [Byte.x02; Byte.x04]] in
  ChunkArray.swapElt 2 1 2 t = Some t' /\
  ChunkArray.swapElt 2 1 2 t' = Some t.
Proof.
  intros t t'.
  assert (ChunkArray.swapElt 2 1 2 t = Some t') as Hswap by reflexivity.
  split; [exact Hswap|].
  apply (swapElt_involutive 2 ltac:(lia) t t' 1 2).
  - repeat constructor.
  - simpl. lia.
  - simpl. lia.
  - exact Hswap.
Defined.

(** ** The allocation invariant of the generic column *)

Section GenericInvariant.

Variable CHUNKSIZE : Z.
Context {T : Type} `{FixedSize T}.

#[local] Abbreviation gwf := (@ChunkArray.wf CHUNKSIZE T).

Lemma chunk_of_bytes_length (n : nat) (bs : list byte) :
  length (ChunkArray.chunk_of_bytes (T := T) n bs) = n.
Proof.
  revert bs. induction n as [|n IH]; intros bs; [reflexivity|].
  cbn [ChunkArray.chunk_of_bytes length]. rewrite IH. reflexivity.
Qed.

Lemma new_chunk_length :
  length (ChunkArray.new_chunk (T := T) CHUNKSIZE) = Z.to_nat CHUNKSIZE.
Proof. apply length_replicate. Qed.

Lemma setNbChunks_wf (n : Z) (t : list (list T)) :
  gwf t -> gwf (ChunkArray.setNbChunks CHUNKSIZE n t).
Proof.
  intros Hwf. unfold ChunkArray.setNbChunks.
  destruct (Z.leb_spec (Z.of_nat (length t)) n).
  - rewrite addChunks_app. apply Forall_app. split; [exact Hwf|].
    apply Forall_replicate. apply new_chunk_length.
  - apply Forall_take. exact Hwf.
Qed.

Lemma setVal_wf (t t' : list (list T)) (i : Z) (v : T) :
  gwf t -> ChunkArray.setVal CHUNKSIZE i v t = Some t' -> gwf t'.
Proof.
  intros Hwf Hset. unfold ChunkArray.setVal in Hset.
  destruct (t !! Z.to_nat (i / CHUNKSIZE)) as [c|] eqn:Hc; [|discriminate].
  destruct (c !! Z.to_nat (i mod CHUNKSIZE)) as [x|]; [|discriminate].
  injection Hset as <-.
  apply Forall_insert; [exact Hwf|]. rewrite length_insert.
  unfold ChunkArray.wf in Hwf. rewrite Forall_forall in Hwf.
  apply Hwf. eapply list_elem_of_lookup_2. exact Hc.
Qed.

Lemma read_chunk_wf (t t' : list (list T)) (idx n : Z) (fs fs' : list byte) :
  gwf t -> ChunkArray.read_chunk t idx n fs = Some (t', fs') -> gwf t'.
Proof.
  intros Hwf Hread. unfold ChunkArray.read_chunk in Hread.
  destruct (t !! Z.to_nat idx) as [c|] eqn:Hc; [|discriminate].
  cbn [mbind option_bind] in Hread.
  destruct (read_bytes (ChunkArray.chunk_bytes c) n fs) as [r|];
    [|discriminate].
  cbn [mbind option_bind] in Hread. injection Hread as <- _.
  apply Forall_insert; [exact Hwf|]. rewrite chunk_of_bytes_length.
  unfold ChunkArray.wf in Hwf. rewrite Forall_forall in Hwf.
  apply Hwf. eapply list_elem_of_lookup_2. exact Hc.
Qed.

Lemma read_chunks_wf (idxs : list Z) (n : Z) :
  forall (t t' : list (list T)) (fs fs' : list byte),
    gwf t -> ChunkArray.read_chunks idxs n t fs = Some (t', fs') -> gwf t'.
Proof.
  induction idxs as [|i idxs IH]; intros t t' fs fs' Hwf Hread.
  - injection Hread as <- _. exact Hwf.
  - cbn [ChunkArray.read_chunks] in Hread.
    destruct (ChunkArray.read_chunk t i n fs) as [[t1 fs1]|] eqn:H1;
      [|discriminate].
    cbn [mbind option_bind fst snd] in Hread.
    eapply IH; [|exact Hread]. eapply read_chunk_wf; [exact Hwf | exact H1].
Qed.

(** X5.  Every operation that changes a generic column ([addChunk],
    [setNbChunks], [clear], [setVal], [initElt], [copyElt], [swapElt]) keeps
    every chunk at exactly [CHUNKSIZE] elements. *)
Theorem mutators_keep_wf (t : list (list T)) :
  gwf t ->
  gwf (ChunkArray.addChunk CHUNKSIZE t) /\
  (forall n, gwf (ChunkArray.setNbChunks CHUNKSIZE n t)) /\
  gwf (ChunkArray.clear t) /\
  (forall i v t', ChunkArray.setVal CHUNKSIZE i v t = Some t' -> gwf t') /\
  (forall id t', ChunkArray.initElt CHUNKSIZE id t = Some t' -> gwf t') /\
  (forall dst src t',
     ChunkArray.copyElt CHUNKSIZE dst src t = Some t' -> gwf t') /\
  (forall id1 id2 t',
     ChunkArray.swapElt CHUNKSIZE id1 id2 t = Some t' -> gwf t').
Proof.
  intros Hwf. repeat split.
  - apply Forall_app. split; [exact Hwf|].
    constructor; [apply new_chunk_length | constructor].
  - intros n. apply setNbChunks_wf. exact Hwf.
  - constructor.
  - intros i v t'. apply setVal_wf. exact Hwf.
  - intros id t'. apply setVal_wf. exact Hwf.
  - intros dst src t' Hc. unfold ChunkArray.copyElt in Hc.
    destruct (ChunkArray.operator_index CHUNKSIZE t src) as [v|];
      [|discriminate].
    eapply setVal_wf; [exact Hwf | exact Hc].
  - intros id1 id2 t' Hs. unfold ChunkArray.swapElt in Hs.
    destruct (ChunkArray.operator_index CHUNKSIZE t id1) as [v1|];
      [|discriminate].
    destruct (ChunkArray.operator_index CHUNKSIZE t id2) as [v2|];
      [|discriminate].
    cbn [mbind option_bind] in Hs.
    destruct (ChunkArray.setVal CHUNKSIZE id1 v2 t) as [t1|] eqn:H1;
      [|discriminate].
    cbn [mbind option_bind] in Hs.
    eapply setVal_wf; [|exact Hs]. eapply setVal_wf; [exact Hwf | exact H1].
Qed.

(** A read from a stream that holds no more than one chunk of bytes stays
    inside the chunk it is stored in. *)
Lemma read_chunk_short (t : list (list T)) (idx n : Z) (fs : list byte) :
  gwf t -> is_Some (t !! Z.to_nat idx) ->
  Z.of_nat (length fs) <= CHUNKSIZE * sizeof ->
  exists t',
    ChunkArray.read_chunk t idx n fs = Some (t', drop (Z.to_nat n) fs) /\
    length t' = length t.
Proof.
  intros Hwf [c Hc] Hfs. unfold ChunkArray.read_chunk. rewrite Hc.
  cbn [mbind option_bind].
  assert (length c = Z.to_nat CHUNKSIZE) as Lc.
  { unfold ChunkArray.wf in Hwf. rewrite Forall_forall in Hwf.
    apply Hwf. eapply list_elem_of_lookup_2. exact Hc. }
  pose proof (chunk_bytes_length c) as Lb. pose proof sizeof_pos as Hsz.
  rewrite read_bytes_short by nia.
  cbn [mbind option_bind fst snd]. eexists. split; [reflexivity|].
  apply length_insert.
Qed.

Lemma read_chunks_short (idxs : list Z) (n : Z) :
  forall (t : list (list T)) (fs : list byte),
  gwf t -> Forall (fun i => is_Some (t !! Z.to_nat i)) idxs ->
  Z.of_nat (length fs) <= CHUNKSIZE * sizeof ->
  exists t' fs',
    ChunkArray.read_chunks idxs n t fs = Some (t', fs') /\
    gwf t' /\ length t' = length t /\
    Z.of_nat (length fs') <= CHUNKSIZE * sizeof.
Proof.
  induction idxs as [|i idxs IH]; intros t fs Hwf Hidx Hfs.
  - exists t, fs. repeat split; [exact Hwf | exact Hfs].
  - apply Forall_cons in Hidx as [Hi Hidx].
    destruct (read_chunk_short t i n fs Hwf Hi Hfs) as (t1 & H1 & L1).
    cbn [ChunkArray.read_chunks]. rewrite H1.
    cbn [mbind option_bind fst snd].
    assert (gwf t1) as Hwf1 by (eapply read_chunk_wf; [exact Hwf | exact H1]).
    destruct (IH t1 (drop (Z.to_nat n) fs) Hwf1)
      as (t' & fs' & Hr & Hw & Hl & Hf).
    + eapply Forall_impl; [exact Hidx|]. intros j [c Hj].
      apply lookup_lt_is_Some_2. rewrite L1.
      eapply lookup_lt_Some. exact Hj.
    + rewrite length_drop. lia.
    + exists t', fs'. repeat split; try assumption. lia.
Qed.

Lemma read_header_complete (fs : list byte) :
  12 <= Z.of_nat (length fs) ->
  exists nbs0 nbs1 nbs2,
    read_header fs = Some (nbs0, nbs1, nbs2, drop 12 fs) /\
    0 <= nbs0 < 2 ^ 32.
Proof.
  intros Hfs. unfold read_header.
  destruct (Z.leb_spec 12 (Z.of_nat (length fs))); [|lia].
  eexists _, _, _. split; [reflexivity|].
  unfold u32_of_bytes.
  pose proof (le_combine_bound (take 4 fs)) as Hb.
  rewrite length_take in Hb.
  replace (4 `min` length fs)%nat with 4%nat in Hb by lia.
  exact Hb.
Qed.

(** X6.  Whatever bytes the stream holds, when [load] returns every chunk
    of the column still has [CHUNKSIZE] elements; and [load] does return
    on every stream that holds a complete header and at most one chunk of
    data, whatever the header states. *)
Theorem load_keeps_wf (fs : list byte) (t : list (list T)) :
  gwf t ->
  (forall b t' rest,
     ChunkArray.load CHUNKSIZE fs t = Some (b, t', rest) -> gwf t') /\
  (12 <= Z.of_nat (length fs) <= 12 + CHUNKSIZE * sizeof ->
   is_Some (ChunkArray.load CHUNKSIZE fs t)).
Proof.
  intros Hwf. split.
  - intros b t' rest Hload. unfold ChunkArray.load in Hload.
    destruct (read_header fs) as [[[[nbs0 nbs1] nbs2] fs1]|]; [|discriminate].
    cbn [mbind option_bind] in Hload.
    destruct (negb (nbs2 =? ChunkArray.chunk_byte_size CHUNKSIZE)).
    { injection Hload as _ <- _. exact Hwf. }
    pose proof (setNbChunks_wf nbs0 t Hwf) as Hwf1.
    destruct (nbs0 =? 0).
    { injection Hload as _ <- _. exact Hwf1. }
    destruct (ChunkArray.read_chunks _ _ _ _) as [[t2 fs2]|] eqn:H2;
      [|discriminate].
    cbn [mbind option_bind fst snd] in Hload.
    destruct (ChunkArray.read_chunk t2 _ _ fs2) as [[t3 fs3]|] eqn:H3;
      [|discriminate].
    cbn [mbind option_bind fst snd] in Hload. injection Hload as _ <- _.
    eapply read_chunk_wf; [|exact H3].
    eapply read_chunks_wf; [exact Hwf1 | exact H2].
  - intros [Hlo Hhi].
    destruct (read_header_complete fs Hlo) as (nbs0 & nbs1 & nbs2 & Hh & Hk).
    unfold ChunkArray.load. rewrite Hh. cbn [mbind option_bind].
    destruct (negb (nbs2 =? ChunkArray.chunk_byte_size CHUNKSIZE));
      [eexists; reflexivity|].
    destruct (Z.eqb_spec nbs0 0) as [E|N]; [eexists; reflexivity|].
    set (t1 := ChunkArray.setNbChunks CHUNKSIZE nbs0 t).
    assert (gwf t1) as Hwf1 by (apply setNbChunks_wf; exact Hwf).
    assert (Z.of_nat (length t1) = nbs0) as Hlen1
      by (apply setNbChunks_length; lia).
    rewrite (wrap32_small (nbs0 - 1)) by lia.
    destruct (read_chunks_short (seqZ 0 (nbs0 - 1))
                (ChunkArray.chunk_byte_size CHUNKSIZE) t1 (drop 12 fs) Hwf1)
      as (t2 & fs2 & H2 & Hwf2 & Hl2 & Hf2).
    + apply Forall_seqZ. intros i Hi. apply lookup_lt_is_Some_2. lia.
    + rewrite length_drop. lia.
    + rewrite H2. cbn [mbind option_bind fst snd].
      destruct (read_chunk_short t2 (nbs0 - 1)
                  (wrap64 (wrap32 (nbs1 - wrap32 (CHUNKSIZE * (nbs0 - 1)))
                           * sizeof)) fs2 Hwf2) as (t3 & H3 & _).
      * apply lookup_lt_is_Some_2. lia.
      * exact Hf2.
      * rewrite H3. eexists. reflexivity.
Qed.

(** X7.  Growing a column with [setNbChunks] and then shrinking it back to
    its former number of chunks restores the column. *)
Theorem setNbChunks_grow_shrink (t : list (list T)) (n : Z) :
  Z.of_nat (length t) <= n ->
  ChunkArray.setNbChunks CHUNKSIZE (Z.of_nat (length t))
    (ChunkArray.setNbChunks CHUNKSIZE n t) = t.
Proof.
  intros Hn.
  assert (ChunkArray.setNbChunks CHUNKSIZE n t
          = t ++ replicate (Z.to_nat (n - Z.of_nat (length t)))
                   (ChunkArray.new_chunk CHUNKSIZE)) as ->.
  { unfold ChunkArray.setNbChunks.
    destruct (Z.leb_spec (Z.of_nat (length t)) n); [|lia].
    apply addChunks_app. }
  unfold ChunkArray.setNbChunks. rewrite length_app, length_replicate.
  destruct (Z.leb_spec
              (Z.of_nat (length t + Z.to_nat (n - Z.of_nat (length t))))
              (Z.of_nat (length t))).
  - replace (Z.to_nat (n - Z.of_nat (length t))) with 0%nat by lia.
    cbn [replicate]. rewrite app_nil_r.
    replace (Z.to_nat (Z.of_nat (length t) - Z.of_nat (length t + 0)))
      with 0%nat by lia.
    reflexivity.
  - rewrite Nat2Z.id. apply take_app_length.
Qed.

End GenericInvariant.

Lemma mutators_keep_wf_witness :
  let t : list (list byte) := [[Byte.x01; Byte.x02]; [Byte.x03; Byte.x04]] in
  ChunkArray.wf 2 (ChunkArray.addChunk 2 t) /\
  (forall n, ChunkArray.wf 2 (ChunkArray.setNbChunks 2 n t)) /\
  ChunkArray.wf 2 (ChunkArray.clear t) /\
  (forall i v t', ChunkArray.setVal 2 i v t = Some t' -> ChunkArray.wf 2 t') /\
  (forall id t', ChunkArray.initElt 2 id t = Some t' -> ChunkArray.wf 2 t') /\
  (forall dst src t',
     ChunkArray.copyElt 2 dst src t = Some t' -> ChunkArray.wf 2 t') /\
  (forall id1 id2 t',
     ChunkArray.swapElt 2 id1 id2 t = Some t' -> ChunkArray.wf 2 t').
Proof.
  intros t.
  apply (mutators_keep_wf 2 (H := FixedSize_uchar) t).
  repeat constructor.
Defined.

Lemma load_keeps_wf_witness :
  let fs := u32_bytes 1 ++ u32_bytes 100 ++ u32_bytes 2 ++ [Byte.x2a] in
  let t : list (list byte) := [[Byte.x01; Byte.x02]; [Byte.x03; Byte.x04]] in
  let t' : list (list byte) := [[Byte.x2a; Byte.x02]] in
  ChunkArray.load 2 fs t = Some (true, t', []) /\
  ChunkArray.wf 2 t' /\
  is_Some (ChunkArray.load 2 fs t).
Proof.
  intros fs t t'.
  destruct (load_keeps_wf 2 (H := FixedSize_uchar) fs t) as [Hinv Hdef].
  - repeat constructor.
  - split; [reflexivity|]. split.
    + apply (Hinv true t' []). reflexivity.
    + apply Hdef. simpl. lia.
Defined.

Lemma setNbChunks_grow_shrink_witness :
  let t : list (list byte) := [[Byte.x01; Byte.x02]; [Byte.x03; Byte.x04]] in
  ChunkArray.setNbChunks 2 (Z.of_nat (length t)) (ChunkArray.setNbChunks 2 5 t)
  = t.
Proof.
  intros t.
  apply (setNbChunks_grow_shrink 2 (H := FixedSize_uchar) t 5).
  simpl. lia.
Defined.

(** ** More on the persistence of the generic column *)

Section GenericStream.

Variable CHUNKSIZE : Z.
Context {T : Type} `{FixedSize T}.
Hypothesis CHUNKSIZE_min : 32 <= CHUNKSIZE.
Hypothesis chunk_byte_size_fits : CHUNKSIZE * sizeof < 2 ^ 32.

#[local] Abbreviation gwf := (@ChunkArray.wf CHUNKSIZE T).
#[local] Abbreviation get := (@ChunkArray.operator_index CHUNKSIZE T).
#[local] Abbreviation cbytes := (@ChunkArray.chunk_bytes T _).

Lemma concat_chunk_bytes_length (pre : list (list T)) :
  gwf pre ->
  Z.of_nat (length (concat (map cbytes pre)))
  = Z.of_nat (length pre) * CHUNKSIZE * sizeof.
Proof.
  induction pre as [|c pre IH]; intros Hwf; [reflexivity|].
  inversion Hwf as [|? ? Hc Hpre]; subst.
  cbn [map concat length]. rewrite length_app, Nat2Z.inj_add, IH by exact Hpre.
  rewrite chunk_bytes_length. nia.
Qed.

(** [load] of a saved stream followed by [rest], into a table [t0] that
    already holds chunks. *)
Lemma load_nonempty_into (pre : list (list T)) (lastc : list T)
    (nbLines : Z) (rest : list byte) (t0 : list (list T)) :
  gwf (pre ++ [lastc]) -> gwf t0 ->
  Z.of_nat (length pre) * CHUNKSIZE <= nbLines
    <= (Z.of_nat (length pre) + 1) * CHUNKSIZE ->
  nbLines < 2 ^ 32 ->
  let n := Z.to_nat (nbLines - Z.of_nat (length pre) * CHUNKSIZE) in
  let t1 := ChunkArray.setNbChunks CHUNKSIZE (Z.of_nat (length pre) + 1) t0 in
  exists lastf,
    t1 !! length pre = Some lastf /\
    ChunkArray.load CHUNKSIZE
      ((u32_bytes (Z.of_nat (length pre) + 1) ++ u32_bytes nbLines
          ++ u32_bytes (CHUNKSIZE * sizeof)
          ++ concat (map cbytes pre) ++ cbytes (take n lastc))
         ++ rest) t0
    = Some (true, pre ++ [take n lastc ++ drop n lastf], rest).
Proof.
  intros Hwf Hwf0 Hrange Hu32 n t1.
  apply Forall_app in Hwf as [Hpre Hlast].
  inversion Hlast as [|? ? Hlastc _]; subst.
  pose proof sizeof_pos as Hsz.
  set (k := Z.of_nat (length pre) + 1) in *.
  set (nbl := nbLines - Z.of_nat (length pre) * CHUNKSIZE) in *.
  assert (0 <= nbl <= CHUNKSIZE) as Hnbl by (unfold nbl; lia).
  assert (wrap32 k = k) as Wk by (apply wrap32_small; unfold k; nia).
  assert (gwf t1) as Hwf1 by (apply setNbChunks_wf; exact Hwf0).
  assert (Z.of_nat (length t1) = k) as Hlen1
    by (apply setNbChunks_length; unfold k; lia).
  destruct (lookup_lt_is_Some_2 t1 (length pre)) as [lastf Hlastf];
    [unfold k in Hlen1; lia|].
  exists lastf. split; [exact Hlastf|].
  assert (t1 = [] ++ take (length pre) t1 ++ [lastf]) as Ht1.
  { cbn [app]. rewrite <- (take_drop_middle t1 (length pre) lastf Hlastf) at 1.
    rewrite (drop_ge t1 (S (length pre))) by (unfold k in Hlen1; lia).
    reflexivity. }
  assert (length lastf = Z.to_nat CHUNKSIZE) as Hlf.
  { unfold ChunkArray.wf in Hwf1. rewrite Forall_forall in Hwf1.
    apply Hwf1. eapply list_elem_of_lookup_2. exact Hlastf. }
  unfold ChunkArray.load. rewrite <- !app_assoc.
  rewrite read_header_written. cbn [mbind option_bind].
  rewrite Wk, (wrap32_small nbLines) by nia.
  rewrite (wrap32_small (CHUNKSIZE * sizeof)) by nia.
  rewrite (chunk_byte_size_eq CHUNKSIZE CHUNKSIZE_min chunk_byte_size_fits).
  rewrite Z.eqb_refl. cbn [negb].
  destruct (Z.eqb_spec k 0); [unfold k in *; lia|].
  assert (wrap32 (k - 1) = Z.of_nat (length pre)) as ->
    by (rewrite wrap32_small by (unfold k; nia); unfold k; lia).
  rewrite (wrap32_small (CHUNKSIZE * Z.of_nat (length pre))) by nia.
  replace (nbLines - CHUNKSIZE * Z.of_nat (length pre)) with nbl
    by (unfold nbl; lia).
  rewrite (wrap32_small nbl) by lia.
  rewrite (wrap64_small (nbl * sizeof))
    by (assert (2 ^ 32 < 2 ^ 64) by reflexivity; nia).
  fold t1. rewrite Ht1.
  rewrite <- (chunk_byte_size_eq CHUNKSIZE CHUNKSIZE_min chunk_byte_size_fits).
  rewrite (read_full_chunks CHUNKSIZE CHUNKSIZE_min chunk_byte_size_fits
             pre (take (length pre) t1) [] [lastf]).
  2:{ rewrite length_take. unfold k in Hlen1. lia. }
  2:{ exact Hpre. }
  2:{ apply Forall_take. exact Hwf1. }
  cbn [mbind option_bind fst snd app].
  replace nbl with (Z.of_nat (length (take n lastc)))
    by (rewrite length_take; unfold n; lia).
  rewrite (read_chunk_prefix (pre ++ [lastf]) (length pre) (take n lastc)
             (take n lastf) (drop n lastf)).
  2:{ rewrite take_drop. apply list_lookup_middle. reflexivity. }
  2:{ rewrite !length_take. unfold n. lia. }
  cbn [mbind option_bind fst snd].
  rewrite <- (Nat.add_0_r (length pre)) at 1. rewrite insert_app_r.
  reflexivity.
Qed.

Lemma save_empty :
  ChunkArray.save CHUNKSIZE (T := T) [] 0
  = Some (u32_bytes 0 ++ u32_bytes 0 ++ u32_bytes (CHUNKSIZE * sizeof)).
Proof.
  pose proof sizeof_pos as Hsz.
  unfold ChunkArray.save, ChunkArray.save_assert.
  change (0 / CHUNKSIZE) with 0. cbn [length].
  change (Z.of_nat 0) with 0. change (0 <=? 0) with true. cbv iota.
  unfold ChunkArray.save_requests. cbv zeta.
  cbn [length]. change (wrap32 (Z.of_nat 0)) with 0.
  change (0 =? 0) with true. cbv iota.
  rewrite (chunk_byte_size_eq CHUNKSIZE CHUNKSIZE_min chunk_byte_size_fits).
  rewrite (wrap32_small (CHUNKSIZE * sizeof)) by nia.
  cbn [mapM ChunkArray.run_write mbind option_bind mret option_ret concat].
  rewrite app_nil_r. reflexivity.
Qed.

Lemma load_empty_into (rest : list byte) (t0 : list (list T)) :
  ChunkArray.load CHUNKSIZE
    ((u32_bytes 0 ++ u32_bytes 0 ++ u32_bytes (CHUNKSIZE * sizeof)) ++ rest) t0
  = Some (true, [], rest).
Proof.
  pose proof sizeof_pos as Hsz.
  unfold ChunkArray.load. rewrite <- !app_assoc, read_header_written.
  cbn [mbind option_bind].
  rewrite (wrap32_small (CHUNKSIZE * sizeof)) by nia.
  rewrite (chunk_byte_size_eq CHUNKSIZE CHUNKSIZE_min chunk_byte_size_fits).
  rewrite Z.eqb_refl. cbn [negb].
  change (wrap32 0) with 0. change (0 =? 0) with true. cbv iota.
  assert (ChunkArray.setNbChunks CHUNKSIZE 0 t0 = []) as ->; [|reflexivity].
  unfold ChunkArray.setNbChunks.
  destruct (Z.leb_spec (Z.of_nat (length t0)) 0).
  - destruct t0; [reflexivity | cbn [length] in *; lia].
  - reflexivity.
Qed.

(** X8.  [save] writes twelve bytes of header, which decode to the number
    of chunks, the number of lines and the byte size of a chunk, followed by
    exactly [nbLines * sizeof(T)] bytes of data. *)
Theorem save_stream_layout (t : list (list T)) (nbLines : Z) :
  gwf t ->
  0 <= nbLines < 2 ^ 32 ->
  (Z.of_nat (length t) - 1) * CHUNKSIZE <= nbLines
    <= Z.of_nat (length t) * CHUNKSIZE ->
  exists fs data,
    ChunkArray.save CHUNKSIZE t nbLines = Some fs /\
    Z.of_nat (length fs) = 12 + nbLines * sizeof /\
    read_header fs
    = Some (Z.of_nat (length t), nbLines, CHUNKSIZE * sizeof, data).
Proof.
  intros Hwf Hu32 Hrange. pose proof sizeof_pos as Hsz.
  destruct t as [|lastc pre _] using rev_ind.
  - cbn [length] in Hrange. assert (nbLines = 0) as -> by lia.
    eexists. exists []. split; [apply save_empty|]. split.
    + rewrite !length_app, !u32_bytes_length. lia.
    + rewrite <- (app_nil_r (u32_bytes (CHUNKSIZE * sizeof))).
      rewrite read_header_written.
      rewrite (wrap32_small (CHUNKSIZE * sizeof)) by nia. reflexivity.
  - rewrite length_app in *. cbn [length] in *.
    pose proof Hwf as Hwf'. apply Forall_app in Hwf' as [Hpre Hlast].
    inversion Hlast as [|? ? Hlastc _]; subst.
    eexists. eexists. split.
    { apply (save_nonempty CHUNKSIZE CHUNKSIZE_min chunk_byte_size_fits);
        [exact Hwf | lia | lia]. }
    split.
    + rewrite !length_app, !u32_bytes_length, !Nat2Z.inj_add.
      rewrite concat_chunk_bytes_length by exact Hpre.
      rewrite chunk_bytes_length, length_take. nia.
    + rewrite read_header_written.
      rewrite !wrap32_small by nia.
      replace (Z.of_nat (length pre + 1)) with (Z.of_nat (length pre) + 1)
        by lia.
      reflexivity.
Qed.

(** X9.  Loading what [save] wrote succeeds whatever follows it in the
    stream and whatever the receiving column held: exactly the saved bytes
    are consumed, the elements below [nbLines] are the saved ones, and the
    elements of the last chunk from [nbLines] on are those the receiving
    column had after being resized. *)
Theorem load_saved_into (t t0 : list (list T)) (nbLines : Z) :
  gwf t -> gwf t0 ->
  0 <= nbLines < 2 ^ 32 ->
  (Z.of_nat (length t) - 1) * CHUNKSIZE <= nbLines
    <= Z.of_nat (length t) * CHUNKSIZE ->
  exists fs,
    ChunkArray.save CHUNKSIZE t nbLines = Some fs /\
    forall rest, exists t',
      ChunkArray.load CHUNKSIZE (fs ++ rest) t0 = Some (true, t', rest) /\
      length t' = length t /\
      (forall i, 0 <= i < nbLines -> get t' i = get t i) /\
      (forall i, nbLines <= i < Z.of_nat (length t) * CHUNKSIZE ->
         get t' i
         = get (ChunkArray.setNbChunks CHUNKSIZE (Z.of_nat (length t)) t0) i).
Proof.
  intros Hwf Hwf0 Hu32 Hrange.
  destruct t as [|lastc pre _] using rev_ind.
  - cbn [length] in Hrange. assert (nbLines = 0) as -> by lia.
    eexists. split; [apply save_empty|]. intros rest. exists [].
    split; [apply load_empty_into|]. split; [reflexivity|].
    split; intros i Hi; cbn [length] in Hi; lia.
  - rewrite length_app in Hrange. cbn [length] in Hrange.
    eexists. split.
    { apply (save_nonempty CHUNKSIZE CHUNKSIZE_min chunk_byte_size_fits);
        [exact Hwf | lia | lia]. }
    intros rest.
    destruct (load_nonempty_into pre lastc nbLines rest t0 Hwf Hwf0)
      as (lastf & Hlastf & Hload); [lia | lia |].
    set (n := Z.to_nat (nbLines - Z.of_nat (length pre) * CHUNKSIZE)) in *.
    eexists. split; [exact Hload|].
    split; [rewrite !length_app; reflexivity|].
    apply Forall_app in Hwf as [Hpre Hlast].
    inversion Hlast as [|? ? Hlastc _]; subst.
    assert (forall i, 0 <= i < (Z.of_nat (length pre) + 1) * CHUNKSIZE ->
              0 <= i / CHUNKSIZE < Z.of_nat (length pre) + 1 /\
              0 <= i mod CHUNKSIZE < CHUNKSIZE /\
              i = CHUNKSIZE * (i / CHUNKSIZE) + i mod CHUNKSIZE) as Hparts.
    { intros i Hi.
      pose proof (Z.mod_pos_bound i CHUNKSIZE ltac:(lia)).
      pose proof (Z.div_mod i CHUNKSIZE ltac:(lia)).
      assert (0 <= i / CHUNKSIZE) by (apply Z.div_pos; lia).
      assert (i / CHUNKSIZE < Z.of_nat (length pre) + 1)
        by (apply Z.div_lt_upper_bound; lia).
      lia. }
    split.
    + intros i Hi. destruct (Hparts i) as (Hd & Hm & Ei); [lia|].
      unfold ChunkArray.operator_index.
      destruct (decide (i / CHUNKSIZE < Z.of_nat (length pre))) as [Hlt|Hge].
      * rewrite !(lookup_app_l pre) by lia. reflexivity.
      * assert (Z.to_nat (i / CHUNKSIZE) = length pre) as -> by lia.
        rewrite !list_lookup_middle by reflexivity.
        assert (Z.to_nat (i mod CHUNKSIZE) < n)%nat by (unfold n; nia).
        rewrite lookup_app_l by (rewrite length_take; lia).
        apply lookup_take_lt. lia.
    + intros i Hi. rewrite length_app in Hi. cbn [length] in Hi.
      destruct (Hparts i) as (Hd & Hm & Ei); [lia|].
      unfold ChunkArray.operator_index.
      assert (Z.to_nat (i / CHUNKSIZE) = length pre) as -> by nia.
      rewrite list_lookup_middle by reflexivity.
      rewrite length_app. cbn [length].
      replace (Z.of_nat (length pre + 1)) with (Z.of_nat (length pre) + 1)
        by lia.
      rewrite Hlastf.
      assert (n <= Z.to_nat (i mod CHUNKSIZE))%nat by (unfold n; nia).
      rewrite lookup_app_r by (rewrite length_take; lia).
      rewrite length_take, lookup_drop. f_equal. lia.
Qed.

(** On an exhausted stream [fs.read] extracts nothing, whatever is asked. *)
Lemma read_chunk_exhausted (t : list (list T)) (idx n : Z) (c : list T) :
  t !! Z.to_nat idx = Some c ->
  ChunkArray.read_chunk t idx n [] = Some (t, []).
Proof.
  intros Hc. unfold ChunkArray.read_chunk. rewrite Hc.
  cbn [mbind option_bind].
  rewrite read_bytes_short by (cbn [length]; lia).
  rewrite take_nil, drop_nil. cbn [length drop app].
  cbn [mbind option_bind fst snd]. rewrite drop_0.
  rewrite <- (Nat.add_0_r (length c)), <- (app_nil_r (cbytes c)).
  rewrite chunk_of_bytes_chunk_bytes. cbn [ChunkArray.chunk_of_bytes].
  rewrite app_nil_r, list_insert_id by exact Hc. reflexivity.
Qed.

Lemma read_chunks_exhausted (idxs : list Z) (n : Z) (t : list (list T)) :
  Forall (fun i => is_Some (t !! Z.to_nat i)) idxs ->
  ChunkArray.read_chunks idxs n t [] = Some (t, []).
Proof.
  induction 1 as [|i idxs [c Hc] _ IH]; [reflexivity|].
  cbn [ChunkArray.read_chunks].
  rewrite (read_chunk_exhausted t i n c Hc).
  cbn [mbind option_bind fst snd]. exact IH.
Qed.

(** X10.  [load] does not look at the outcome of its reads: on a stream
    that ends right after a header with the right chunk byte size it
    returns true, whatever numbers of chunks and of lines the header
    states and whatever the column held, and the column has only been
    resized. *)
Theorem load_header_only (k nbLines : Z) (t0 : list (list T)) :
  0 <= k < 2 ^ 32 -> 0 <= nbLines < 2 ^ 32 ->
  ChunkArray.load CHUNKSIZE
    (u32_bytes k ++ u32_bytes nbLines ++ u32_bytes (CHUNKSIZE * sizeof)) t0
  = Some (true, ChunkArray.setNbChunks CHUNKSIZE k t0, []).
Proof.
  intros Hk Hu32. pose proof sizeof_pos as Hsz.
  set (t1 := ChunkArray.setNbChunks CHUNKSIZE k t0).
  assert (Z.of_nat (length t1) = k) as Hlen1
    by (apply setNbChunks_length; lia).
  assert (forall i, 0 <= i < k -> is_Some (t1 !! Z.to_nat i)) as Hchunk
    by (intros i Hi; apply lookup_lt_is_Some_2; lia).
  unfold ChunkArray.load.
  rewrite <- (app_nil_r (u32_bytes (CHUNKSIZE * sizeof))).
  rewrite read_header_written. cbn [mbind option_bind].
  rewrite (wrap32_small k), (wrap32_small nbLines) by lia.
  rewrite (wrap32_small (CHUNKSIZE * sizeof)) by nia.
  rewrite (chunk_byte_size_eq CHUNKSIZE CHUNKSIZE_min chunk_byte_size_fits).
  rewrite Z.eqb_refl. cbn [negb]. fold t1.
  destruct (Z.eqb_spec k 0) as [E|N]; [reflexivity|].
  rewrite (wrap32_small (k - 1)) by lia.
  rewrite read_chunks_exhausted
    by (apply Forall_seqZ; intros i Hi; apply Hchunk; lia).
  cbn [mbind option_bind fst snd].
  destruct (Hchunk (k - 1)) as [c Hc]; [lia|].
  rewrite (read_chunk_exhausted t1 (k - 1) _ c Hc).
  reflexivity.
Qed.

End GenericStream.

Lemma save_stream_layout_witness :
  let t : list (list byte) := [replicate 32 Byte.x01; replicate 32 Byte.x02] in
  exists fs data,
    ChunkArray.save 32 t 40 = Some fs /\
    Z.of_nat (length fs) = 12 + 40 * sizeof (T := byte) /\
    read_header fs
    = Some (Z.of_nat (length t), 40, 32 * sizeof (T := byte), data).
Proof.
  intros t.
  apply (save_stream_layout 32 (H := FixedSize_uchar) ltac:(lia)
           ltac:(reflexivity) t 40).
  - repeat constructor.
  - lia.
  - simpl. lia.
Defined.

Lemma load_saved_into_witness :
  let t : list (list byte) := [replicate 32 Byte.x01; replicate 32 Byte.x02] in
  let t0 : list (list byte) := [replicate 32 Byte.x07] in
  exists fs,
    ChunkArray.save 32 t 40 = Some fs /\
    forall rest, exists t',
      ChunkArray.load 32 (fs ++ rest) t0 = Some (true, t', rest) /\
      length t' = length t /\
      (forall i, 0 <= i < 40 ->
         ChunkArray.operator_index 32 t' i = ChunkArray.operator_index 32 t i) /\
      (forall i, 40 <= i < Z.of_nat (length t) * 32 ->
         ChunkArray.operator_index 32 t' i
         = ChunkArray.operator_index 32
             (ChunkArray.setNbChunks 32 (Z.of_nat (length t)) t0) i).
Proof.
  intros t t0.
  apply (load_saved_into 32 (H := FixedSize_uchar) ltac:(lia)
           ltac:(reflexivity) t t0 40).
  - repeat constructor.
  - repeat constructor.
  - lia.
  - simpl. lia.
Defined.

Lemma load_header_only_witness :
  let t0 : list (list byte) := [replicate 32 Byte.x07] in
  ChunkArray.load 32
    (u32_bytes 2 ++ u32_bytes 1000 ++ u32_bytes (32 * sizeof (T := byte))) t0
  = Some (true, ChunkArray.setNbChunks 32 2 t0, []).
Proof.
  intros t0.
  apply (load_header_only 32 (H := FixedSize_uchar) ltac:(lia)
           ltac:(reflexivity) 2 1000 t0).
  - lia.
  - lia.
Defined.

(** ** Copying, swapping and resizing in the bit-packed column *)

Section BoolElements.

Variable CHUNKSIZE : Z.
Hypothesis CHUNKSIZE_pos : 0 < CHUNKSIZE.
Hypothesis CHUNKSIZE_words : CHUNKSIZE mod 32 = 0.

#[local] Abbreviation bwf := (ChunkArrayBool.wf CHUNKSIZE).
#[local] Abbreviation bget := (ChunkArrayBool.operator_index CHUNKSIZE).

Lemma store_word_wf (t t' : list (list Z)) (jj x w : Z) :
  bwf t -> ChunkArrayBool.store_word t jj x w = Some t' ->
  bwf t' /\ length t' = length t.
Proof.
  intros Hwf Hst. unfold ChunkArrayBool.store_word in Hst.
  destruct (t !! Z.to_nat jj) as [c|] eqn:Hc; [|discriminate].
  destruct (c !! Z.to_nat x) as [w0|]; [|discriminate].
  injection Hst as <-. split; [|apply length_insert].
  apply Forall_insert; [exact Hwf|]. rewrite length_insert.
  unfold ChunkArrayBool.wf in Hwf. rewrite Forall_forall in Hwf.
  apply Hwf. eapply list_elem_of_lookup_2. exact Hc.
Qed.

(** [setVal] on an index below the capacity. *)
Lemma setVal_bool_spec (t : list (list Z)) (i : Z) (b : bool) :
  bwf t -> 0 <= i < Z.of_nat (length t) * CHUNKSIZE ->
  exists t',
    ChunkArrayBool.setVal CHUNKSIZE i b t = Some t' /\
    bwf t' /\ length t' = length t /\
    bget t' i = Some b /\
    forall j, 0 <= j < Z.of_nat (length t) * CHUNKSIZE -> j <> i ->
      bget t' j = bget t j.
Proof.
  intros Hwf Hi.
  destruct (operator_index_in_range CHUNKSIZE CHUNKSIZE_pos CHUNKSIZE_words
              t i Hwf Hi) as (w & Hw & _).
  destruct (split_index CHUNKSIZE CHUNKSIZE_pos CHUNKSIZE_words i)
    as (_ & _ & Hy & _); [lia|].
  set (mask := wrap32 (Z.shiftl 1 ((i mod CHUNKSIZE) mod 32))).
  set (w' := if b then Z.lor w mask else Z.land w (not32 mask)).
  destruct (store_word_in_range CHUNKSIZE CHUNKSIZE_pos CHUNKSIZE_words
              t i w' Hwf Hi) as [t' Ht'].
  exists t'.
  assert (ChunkArrayBool.setVal CHUNKSIZE i b t = Some t') as Hset.
  { unfold ChunkArrayBool.setVal. cbv zeta. rewrite Hw.
    cbn [mbind option_bind]. fold mask. subst w'. destruct b; exact Ht'. }
  destruct (store_word_wf t t' _ _ _ Hwf Ht') as [Hwf' Hlen].
  destruct (word_update_frame CHUNKSIZE CHUNKSIZE_pos CHUNKSIZE_words
              t t' i w w' b Hwf Hi Hw Ht') as [Hi' Hj'].
  { intros y' Hy'. subst w' mask.
    destruct b; [apply testbit_set | apply testbit_reset]; lia. }
  repeat split; assumption.
Qed.

(** X11.  On the bit-packed column [copyElt] makes bit [dst] read what bit
    [src] read and leaves every other bit as it was. *)
Theorem copyElt_bool_spec (t : list (list Z)) (dst src : Z) :
  bwf t ->
  0 <= dst < Z.of_nat (length t) * CHUNKSIZE ->
  0 <= src < Z.of_nat (length t) * CHUNKSIZE ->
  exists t',
    ChunkArrayBool.copyElt CHUNKSIZE dst src t = Some t' /\
    bwf t' /\
    bget t' dst = bget t src /\
    forall j, 0 <= j < Z.of_nat (length t) * CHUNKSIZE -> j <> dst ->
      bget t' j = bget t j.
Proof.
  intros Hwf Hdst Hsrc.
  destruct (operator_index_in_range CHUNKSIZE CHUNKSIZE_pos CHUNKSIZE_words
              t src Hwf Hsrc) as (w & _ & Hget).
  destruct (setVal_bool_spec t dst (Z.testbit w ((src mod CHUNKSIZE) mod 32))
              Hwf Hdst) as (t' & Hset & Hwf' & _ & Hd & Hj).
  exists t'. unfold ChunkArrayBool.copyElt. rewrite Hget.
  cbn [mbind option_bind]. repeat split; assumption.
Qed.

(** X12.  On the bit-packed column [swapElt] exchanges the two bits and
    leaves every other bit as it was. *)
Theorem swapElt_bool_spec (t : list (list Z)) (id1 id2 : Z) :
  bwf t ->
  0 <= id1 < Z.of_nat (length t) * CHUNKSIZE ->
  0 <= id2 < Z.of_nat (length t) * CHUNKSIZE ->
  exists t',
    ChunkArrayBool.swapElt CHUNKSIZE id1 id2 t = Some t' /\
    bwf t' /\
    bget t' id1 = bget t id2 /\
    bget t' id2 = bget t id1 /\
    forall j, 0 <= j < Z.of_nat (length t) * CHUNKSIZE ->
      j <> id1 -> j <> id2 -> bget t' j = bget t j.
Proof.
  intros Hwf H1 H2.
  destruct (operator_index_in_range CHUNKSIZE CHUNKSIZE_pos CHUNKSIZE_words
              t id1 Hwf H1) as (w1 & _ & Hg1).
  destruct (operator_index_in_range CHUNKSIZE CHUNKSIZE_pos CHUNKSIZE_words
              t id2 Hwf H2) as (w2 & _ & Hg2).
  set (b1 := Z.testbit w1 ((id1 mod CHUNKSIZE) mod 32)) in *.
  set (b2 := Z.testbit w2 ((id2 mod CHUNKSIZE) mod 32)) in *.
  destruct (setVal_bool_spec t id1 b2 Hwf H1)
    as (t1 & Hs1 & Hwf1 & Hl1 & Hi1 & Hj1).
  destruct (setVal_bool_spec t1 id2 b1 Hwf1)
    as (t2 & Hs2 & Hwf2 & Hl2 & Hi2 & Hj2); [rewrite Hl1; exact H2|].
  rewrite Hl1 in Hj2.
  exists t2. unfold ChunkArrayBool.swapElt. rewrite Hg1, Hg2.
  cbn [mbind option_bind]. rewrite Hs1. cbn [mbind option_bind].
  split; [exact Hs2|]. split; [exact Hwf2|]. split; [|split].
  - destruct (decide (id1 = id2)) as [E|N].
    + rewrite E in Hg1. rewrite E, Hi2. congruence.
    + rewrite Hj2 by (try lia; exact N). exact Hi1.
  - exact Hi2.
  - intros j Hj N1 N2. rewrite Hj2, Hj1 by assumption. reflexivity.
Qed.

Lemma addChunks_bool_app (n : nat) (t : list (list Z)) :
  ChunkArrayBool.addChunks CHUNKSIZE n t
  = t ++ replicate n (ChunkArrayBool.new_chunk CHUNKSIZE).
Proof.
  revert t. induction n as [|n IH]; intros t; simpl.
  - rewrite app_nil_r. reflexivity.
  - rewrite IH. unfold ChunkArrayBool.addChunk. rewrite <- app_assoc.
    reflexivity.
Qed.

(** X13.  On the bit-packed column [setNbChunks n] leaves [n] chunks, keeps
    every bit of the chunks that remain and makes every bit of an added
    chunk false. *)
Theorem setNbChunks_bool_frame (t : list (list Z)) (n : Z) :
  bwf t -> 0 <= n < 2 ^ 32 ->
  let k := Z.of_nat (length t) in
  let t' := ChunkArrayBool.setNbChunks CHUNKSIZE n t in
  bwf t' /\
  ChunkArrayBool.getNbChunks t' = n /\
  (forall i, 0 <= i < Z.min k n * CHUNKSIZE -> bget t' i = bget t i) /\
  (forall i, k * CHUNKSIZE <= i < n * CHUNKSIZE -> bget t' i = Some false).
Proof.
  intros Hwf Hn k t'.
  assert (length (ChunkArrayBool.new_chunk CHUNKSIZE)
          = Z.to_nat (CHUNKSIZE / 32)) as Hnew by apply length_replicate.
  assert (t' = if Z.of_nat (length t) <=? n
               then t ++ replicate (Z.to_nat (n - k))
                           (ChunkArrayBool.new_chunk CHUNKSIZE)
               else take (Z.to_nat n) t) as Ht'.
  { unfold t', ChunkArrayBool.setNbChunks.
    destruct (Z.leb_spec (Z.of_nat (length t)) n); [|reflexivity].
    apply addChunks_bool_app. }
  assert (bwf t') as Hwf'.
  { rewrite Ht'. destruct (Z.leb_spec (Z.of_nat (length t)) n).
    - apply Forall_app. split; [exact Hwf|].
      apply Forall_replicate. exact Hnew.
    - apply Forall_take. exact Hwf. }
  assert (Z.of_nat (length t') = n) as Hlen.
  { rewrite Ht'. destruct (Z.leb_spec (Z.of_nat (length t)) n).
    - rewrite length_app, length_replicate. unfold k. lia.
    - rewrite length_take. lia. }
  split; [exact Hwf'|]. split.
  { unfold ChunkArrayBool.getNbChunks. rewrite Hlen.
    apply wrap32_small. lia. }
  split.
  - intros i Hi.
    destruct (split_index CHUNKSIZE CHUNKSIZE_pos CHUNKSIZE_words i)
      as (Hjj & _); [lia|].
    assert (i / CHUNKSIZE < Z.min k n)
      by (apply Z.div_lt_upper_bound; lia).
    unfold ChunkArrayBool.operator_index, ChunkArrayBool.word_at. cbv zeta.
    replace (t' !! Z.to_nat (i / CHUNKSIZE))
      with (t !! Z.to_nat (i / CHUNKSIZE)); [reflexivity|].
    rewrite Ht'. destruct (Z.leb_spec (Z.of_nat (length t)) n).
    + rewrite lookup_app_l by (unfold k in *; lia). reflexivity.
    + rewrite lookup_take_lt by lia. reflexivity.
  - intros i Hi.
    destruct (split_index CHUNKSIZE CHUNKSIZE_pos CHUNKSIZE_words i)
      as (Hjj & Hx & Hy & _); [lia|].
    assert (k <= i / CHUNKSIZE) by (apply Z.div_le_lower_bound; lia).
    assert (i / CHUNKSIZE < n) by (apply Z.div_lt_upper_bound; lia).
    unfold ChunkArrayBool.operator_index, ChunkArrayBool.word_at. cbv zeta.
    rewrite Ht'. destruct (Z.leb_spec (Z.of_nat (length t)) n);
      [|unfold k in *; lia].
    rewrite lookup_app_r by (unfold k in *; lia).
    rewrite lookup_replicate_2 by (unfold k in *; lia).
    unfold ChunkArrayBool.new_chunk. rewrite lookup_replicate_2 by lia.
    cbn [mbind option_bind]. rewrite Z.land_0_l. reflexivity.
Qed.

End BoolElements.

(** ** Rounding the number of lines of a boolean column *)

Lemma round_nbLines_small (nbLines : Z) :
  0 <= nbLines <= 2 ^ 32 - 32 ->
  ChunkArrayBool.round_nbLines nbLines mod 32 = 0 /\
  nbLines <= ChunkArrayBool.round_nbLines nbLines < nbLines + 32.
Proof.
  intros Hn. unfold ChunkArrayBool.round_nbLines.
  pose proof (Z.div_mod nbLines 32 ltac:(lia)) as Hd.
  pose proof (Z.mod_pos_bound nbLines 32 ltac:(lia)) as Hm.
  assert (2 ^ 32 = 4294967296) as E32 by reflexivity.
  destruct (Z.eqb_spec (nbLines mod 32) 0) as [E|N]; [lia|].
  assert (wrap32 (nbLines / 32 + 1) = nbLines / 32 + 1) as ->
    by (apply wrap32_small; lia).
  rewrite wrap32_small by lia.
  split; [|lia]. apply Z_mod_mult.
Qed.

(** X14.  The number of lines a boolean column saves is rounded up to the
    next multiple of 32; for a number of lines above 2^32 - 32 the 32-bit
    computation wraps and it becomes 0. *)
Theorem round_nbLines_spec (nbLines : Z) :
  0 <= nbLines < 2 ^ 32 ->
  (nbLines <= 2 ^ 32 - 32 ->
   ChunkArrayBool.round_nbLines nbLines mod 32 = 0 /\
   nbLines <= ChunkArrayBool.round_nbLines nbLines < nbLines + 32) /\
  (2 ^ 32 - 32 < nbLines -> ChunkArrayBool.round_nbLines nbLines = 0).
Proof.
  intros Hn. split.
  - intros Hsmall. apply round_nbLines_small. lia.
  - intros Hbig. unfold ChunkArrayBool.round_nbLines.
    pose proof (Z.div_mod nbLines 32 ltac:(lia)) as Hd.
    pose proof (Z.mod_pos_bound nbLines 32 ltac:(lia)) as Hm.
    assert (2 ^ 32 = 4294967296) as E32 by reflexivity.
    destruct (Z.eqb_spec (nbLines mod 32) 0) as [E|N]; [exfalso; lia|].
    assert (wrap32 (nbLines / 32 + 1) = nbLines / 32 + 1) as ->
      by (apply wrap32_small; lia).
    assert ((nbLines / 32 + 1) * 32 = 2 ^ 32) as -> by lia.
    reflexivity.
Qed.

Lemma copyElt_bool_spec_witness :
  let t := [[5; 7]; [4294967295; 1]] in
  exists t',
    ChunkArrayBool.copyElt 64 3 70 t = Some t' /\
    ChunkArrayBool.wf 64 t' /\
    ChunkArrayBool.operator_index 64 t' 3
    = ChunkArrayBool.operator_index 64 t 70 /\
    forall j, 0 <= j < Z.of_nat (length t) * 64 -> j <> 3 ->
      ChunkArrayBool.operator_index 64 t' j
      = ChunkArrayBool.operator_index 64 t j.
Proof.
  intros t.
  apply (copyElt_bool_spec 64 ltac:(lia) ltac:(reflexivity) t 3 70).
  - repeat constructor.
  - simpl. lia.
  - simpl. lia.
Defined.

Lemma swapElt_bool_spec_witness :
  let t := [[5; 7]; [4294967295; 1]] in
  exists t',
    ChunkArrayBool.swapElt 64 1 70 t = Some t' /\
    ChunkArrayBool.wf 64 t' /\
    ChunkArrayBool.operator_index 64 t' 1
    = ChunkArrayBool.operator_index 64 t 70 /\
    ChunkArrayBool.operator_index 64 t' 70
    = ChunkArrayBool.operator_index 64 t 1 /\
    forall j, 0 <= j < Z.of_nat (length t) * 64 -> j <> 1 -> j <> 70 ->
      ChunkArrayBool.operator_index 64 t' j
      = ChunkArrayBool.operator_index 64 t j.
Proof.
  intros t.
  apply (swapElt_bool_spec 64 ltac:(lia) ltac:(reflexivity) t 1 70).
  - repeat constructor.
  - simpl. lia.
  - simpl. lia.
Defined.

Lemma setNbChunks_bool_frame_witness :
  let t := [[5; 7]; [4294967295; 1]] in
  let k := Z.of_nat (length t) in
  let t' := ChunkArrayBool.setNbChunks 64 3 t in
  ChunkArrayBool.wf 64 t' /\
  ChunkArrayBool.getNbChunks t' = 3 /\
  (forall i, 0 <= i < Z.min k 3 * 64 ->
     ChunkArrayBool.operator_index 64 t' i
     = ChunkArrayBool.operator_index 64 t i) /\
  (forall i, k * 64 <= i < 3 * 64 ->
     ChunkArrayBool.operator_index 64 t' i = Some false).
Proof.
  intros t.
  apply (setNbChunks_bool_frame 64 ltac:(lia) ltac:(reflexivity) t 3).
  - repeat constructor.
  - lia.
Defined.

Lemma round_nbLines_spec_witness :
  (70 <= 2 ^ 32 - 32 ->
   ChunkArrayBool.round_nbLines 70 mod 32 = 0 /\
   70 <= ChunkArrayBool.round_nbLines 70 < 70 + 32) /\
  (2 ^ 32 - 32 < 70 -> ChunkArrayBool.round_nbLines 70 = 0).
Proof.
  apply (round_nbLines_spec 70). lia.
Defined.

(** ** More on the persistence of the bit-packed column *)

Lemma bool_chunk_bytes_app (c1 c2 : list Z) :
  ChunkArrayBool.chunk_bytes (c1 ++ c2)
  = ChunkArrayBool.chunk_bytes c1 ++ ChunkArrayBool.chunk_bytes c2.
Proof. apply flat_map_app. Qed.

Lemma bool_chunk_bytes_length (c : list Z) :
  Z.of_nat (length (ChunkArrayBool.chunk_bytes c)) = 4 * Z.of_nat (length c).
Proof.
  induction c as [|w c IH]; [reflexivity|].
  change (ChunkArrayBool.chunk_bytes (w :: c))
    with (u32_bytes w ++ ChunkArrayBool.chunk_bytes c).
  rewrite length_app, u32_bytes_length. cbn [length]. lia.
Qed.

(** Memory written from unsigned words reads back as those words. *)
Lemma chunk_of_bytes_words (ws : list Z) (n : nat) (rest : list byte) :
  Forall (fun w => 0 <= w < 2 ^ 32) ws ->
  ChunkArrayBool.chunk_of_bytes (length ws + n)
    (ChunkArrayBool.chunk_bytes ws ++ rest)
  = ws ++ ChunkArrayBool.chunk_of_bytes n rest.
Proof.
  induction 1 as [|w ws Hw _ IH]; [reflexivity|].
  change (ChunkArrayBool.chunk_bytes (w :: ws))
    with (u32_bytes w ++ ChunkArrayBool.chunk_bytes ws).
  rewrite <- app_assoc. cbn [length Nat.add].
  rewrite chunk_of_bytes_cons, IH, wrap32_small by exact Hw. reflexivity.
Qed.

Section BoolStream.

Variable CHUNKSIZE : Z.
Hypothesis CHUNKSIZE_pos : 0 < CHUNKSIZE.
Hypothesis CHUNKSIZE_words : CHUNKSIZE mod 32 = 0.
Hypothesis CHUNKSIZE_u32 : CHUNKSIZE < 2 ^ 32.

#[local] Abbreviation bwf := (ChunkArrayBool.wf CHUNKSIZE).
#[local] Abbreviation bget := (ChunkArrayBool.operator_index CHUNKSIZE).

Lemma CHUNKSIZE_eq : CHUNKSIZE = 32 * (CHUNKSIZE / 32) /\ 1 <= CHUNKSIZE / 32.
Proof.
  pose proof (Z.div_mod CHUNKSIZE 32 ltac:(lia)) as HC.
  rewrite CHUNKSIZE_words in HC. lia.
Qed.

Lemma CHUNKSIZE_div8 : CHUNKSIZE / 8 = 4 * (CHUNKSIZE / 32).
Proof.
  destruct CHUNKSIZE_eq as [HC _]. rewrite HC at 1.
  replace (32 * (CHUNKSIZE / 32)) with (4 * (CHUNKSIZE / 32) * 8) by lia.
  apply Z.div_mul. lia.
Qed.

(** X15.  Saving a boolean column of two or more chunks at its full
    capacity asks the last chunk for more bytes than a chunk holds: the
    assertion of [save] passes, and the write runs past the chunk. *)
Theorem save_bool_full_chunks_overrun (t : list (list Z)) :
  let k := Z.of_nat (length t) in
  bwf t -> 2 <= k -> k * CHUNKSIZE < 2 ^ 32 ->
  exists nbytes,
    last (ChunkArrayBool.save_requests CHUNKSIZE t (k * CHUNKSIZE))
    = Some (ChunkArrayBool.WriteChunk (k - 1) nbytes) /\
    CHUNKSIZE / 8 < nbytes /\
    ChunkArrayBool.save_assert CHUNKSIZE t (k * CHUNKSIZE) = true /\
    ChunkArrayBool.save CHUNKSIZE t (k * CHUNKSIZE) = None.
Proof.
  intros k Hwf Hk Hfit. destruct CHUNKSIZE_eq as [HC Hq].
  pose proof CHUNKSIZE_div8 as H8.
  set (q := CHUNKSIZE / 32) in *.
  assert (ChunkArrayBool.round_nbLines (k * CHUNKSIZE) = k * CHUNKSIZE)
    as Hround.
  { unfold ChunkArrayBool.round_nbLines.
    replace (k * CHUNKSIZE) with (k * q * 32) by lia.
    rewrite Z_mod_mult. reflexivity. }
  assert ((k - 1) * CHUNKSIZE / 8 = (k - 1) * (4 * q)) as Hsub.
  { replace ((k - 1) * CHUNKSIZE) with ((k - 1) * (4 * q) * 8) by lia.
    apply Z.div_mul. lia. }
  set (nbl := k * CHUNKSIZE - (k - 1) * (4 * q)).
  assert (4 * q + 1 <= nbl / 8) as Hbig.
  { replace (4 * q + 1) with ((4 * q + 1) * 8 / 8)
      by (apply Z.div_mul; lia).
    apply Z.div_le_mono; [lia|]. unfold nbl. nia. }
  pose proof (save_requests_bool_shape CHUNKSIZE t (k * CHUNKSIZE)) as Hshape.
  cbv zeta in Hshape. fold k in Hshape.
  specialize (Hshape ltac:(lia) CHUNKSIZE_pos Hfit).
  rewrite Hround, Hsub in Hshape. fold nbl in Hshape.
  rewrite (wrap32_small nbl) in Hshape by (unfold nbl; nia).
  exists (nbl / 8).
  assert (ChunkArrayBool.save_assert CHUNKSIZE t (k * CHUNKSIZE) = true)
    as Hassert.
  { unfold ChunkArrayBool.save_assert. rewrite Hround.
    rewrite Z.div_mul by lia. fold k. apply Z.leb_refl. }
  split; [|split; [|split]].
  - rewrite Hshape, app_comm_cons. apply last_snoc.
  - lia.
  - exact Hassert.
  - unfold ChunkArrayBool.save. rewrite Hassert, Hshape.
    rewrite mapM_None_2; [reflexivity|].
    apply Exists_cons_tl. apply Exists_app. right. apply Exists_cons_hd.
    unfold ChunkArrayBool.run_write.
    destruct (lookup_lt_is_Some_2 t (Z.to_nat (k - 1))) as [c Hc];
      [unfold k; lia|].
    rewrite Hc. cbn [mbind option_bind]. unfold write_bytes.
    assert (length c = Z.to_nat q) as Hlen.
    { unfold ChunkArrayBool.wf in Hwf. rewrite Forall_forall in Hwf.
      apply Hwf. eapply list_elem_of_lookup_2. exact Hc. }
    destruct (Z.leb_spec (nbl / 8)
                (Z.of_nat (length (ChunkArrayBool.chunk_bytes c))));
      [|reflexivity].
    rewrite bool_chunk_bytes_length in *. lia.
Qed.

(** X16.  A boolean column of one chunk is saved and loaded back for any
    number of lines up to [CHUNKSIZE]: the stream is the header and the
    rounded number of lines over 8 bytes, and every bit below [nbLines] is
    read back. *)
Theorem save_load_bool_one_chunk (c : list Z) (nbLines : Z) :
  bwf [c] -> Forall (fun w => 0 <= w < 2 ^ 32) c ->
  0 <= nbLines <= CHUNKSIZE ->
  exists fs t',
    ChunkArrayBool.save CHUNKSIZE [c] nbLines = Some fs /\
    Z.of_nat (length fs)
    = 12 + ChunkArrayBool.round_nbLines nbLines / 8 /\
    ChunkArrayBool.load CHUNKSIZE fs [] = Some (true, t', []) /\
    bwf t' /\ ChunkArrayBool.getNbChunks t' = 1 /\
    forall i, 0 <= i < nbLines -> bget t' i = bget [c] i.
Proof.
  intros Hwf Hwords Hn. destruct CHUNKSIZE_eq as [HC Hq].
  pose proof CHUNKSIZE_div8 as H8.
  inversion Hwf as [|? ? Hlen _]; subst.
  set (q := CHUNKSIZE / 32) in *.
  set (r := ChunkArrayBool.round_nbLines nbLines).
  assert (2 ^ 32 = 4294967296) as E32 by reflexivity.
  destruct (round_nbLines_small nbLines ltac:(lia)) as [Hr32 Hrn]. fold r in Hr32, Hrn.
  pose proof (Z.div_mod r 32 ltac:(lia)) as Hrd. rewrite Hr32 in Hrd.
  set (nw := r / 32) in *.
  assert (0 <= nw <= q) as Hnw by lia.
  assert (r / 8 = 4 * nw) as Hr8.
  { rewrite Hrd. replace (32 * nw + 0) with (4 * nw * 8) by lia.
    apply Z.div_mul. lia. }
  set (data := ChunkArrayBool.chunk_bytes (take (Z.to_nat nw) c)).
  assert (Z.of_nat (length data) = 4 * nw) as Hdata.
  { unfold data. rewrite bool_chunk_bytes_length, length_take. lia. }
  assert (ChunkArrayBool.save_requests CHUNKSIZE [c] nbLines
          = [ChunkArrayBool.WriteHeader 1 r (CHUNKSIZE / 8);
             ChunkArrayBool.WriteChunk 0 (r / 8)]) as Hreq.
  { rewrite save_requests_bool_shape by (cbn [length]; lia).
    cbn [length]. change (Z.of_nat 1 - 1) with 0.
    change (0 * CHUNKSIZE / 8) with 0. rewrite Z.sub_0_r. fold r.
    rewrite (wrap32_small r) by lia. reflexivity. }
  assert (ChunkArrayBool.save CHUNKSIZE [c] nbLines
          = Some (u32_bytes 1 ++ u32_bytes r ++ u32_bytes (CHUNKSIZE / 8)
                    ++ data)) as Hsave.
  { unfold ChunkArrayBool.save, ChunkArrayBool.save_assert. fold r.
    assert (r / CHUNKSIZE <= 1) by (apply Z.div_le_upper_bound; lia).
    destruct (Z.leb_spec (r / CHUNKSIZE) (Z.of_nat (length [c])));
      [|cbn [length] in *; lia].
    rewrite Hreq. cbn [mapM ChunkArrayBool.run_write].
    change ([c] !! Z.to_nat 0) with (Some c). cbn [mbind option_bind].
    unfold write_bytes.
    destruct (Z.leb_spec (r / 8)
                (Z.of_nat (length (ChunkArrayBool.chunk_bytes c))));
      [|rewrite bool_chunk_bytes_length in *; lia].
    rewrite <- (take_drop (Z.to_nat nw) c) at 1.
    rewrite bool_chunk_bytes_app. fold data.
    rewrite take_app_length' by lia.
    cbn [mbind option_bind mret option_ret concat].
    rewrite <- !app_assoc, app_nil_r. reflexivity. }
  set (new := ChunkArrayBool.new_chunk CHUNKSIZE).
  assert (new = replicate (Z.to_nat nw) 0 ++ replicate (Z.to_nat (q - nw)) 0)
    as Hnew.
  { unfold new, ChunkArrayBool.new_chunk. fold q.
    rewrite <- replicate_add. f_equal. lia. }
  set (c' := take (Z.to_nat nw) c ++ replicate (Z.to_nat (q - nw)) 0).
  assert (ChunkArrayBool.load CHUNKSIZE
            (u32_bytes 1 ++ u32_bytes r ++ u32_bytes (CHUNKSIZE / 8) ++ data)
            [] = Some (true, [c'], [])) as Hload.
  { unfold ChunkArrayBool.load.
    rewrite <- (app_nil_r data).
    rewrite read_header_written. cbn [mbind option_bind].
    rewrite (wrap32_small r), (wrap32_small (CHUNKSIZE / 8)) by lia.
    rewrite Z.eqb_refl. cbn [negb].
    change (wrap32 1) with 1. change (1 =? 0) with false. cbv iota.
    change (wrap32 (1 - 1)) with 0. change (0 * CHUNKSIZE) with 0.
    change (wrap32 0 / 8) with 0. rewrite Z.sub_0_r.
    rewrite (wrap32_small r) by lia.
    change (seqZ 0 0) with (@nil Z). cbn [ChunkArrayBool.read_chunks].
    cbn [mbind option_bind fst snd].
    assert (ChunkArrayBool.setNbChunks CHUNKSIZE 1 [] = [new]) as ->
      by reflexivity.
    unfold ChunkArrayBool.read_chunk.
    change ([new] !! Z.to_nat 0) with (Some new). cbn [mbind option_bind].
    rewrite read_bytes_fits
      by (rewrite bool_chunk_bytes_length;
          unfold new, ChunkArrayBool.new_chunk;
          rewrite length_replicate; lia).
    rewrite app_nil_r.
    rewrite (take_ge data) by lia. rewrite (drop_ge data) by lia.
    rewrite Hnew at 1. rewrite bool_chunk_bytes_app.
    rewrite drop_app_length'
      by (pose proof (bool_chunk_bytes_length (replicate (Z.to_nat nw) 0));
          rewrite length_replicate in *; lia).
    cbn [mbind option_bind fst snd].
    replace (length new)
      with (length (take (Z.to_nat nw) c) + Z.to_nat (q - nw))%nat
      by (unfold new, ChunkArrayBool.new_chunk;
          rewrite length_take, length_replicate; fold q; lia).
    unfold data. rewrite chunk_of_bytes_words
      by (apply Forall_take; exact Hwords).
    rewrite chunk_of_bytes_zeros. reflexivity. }
  exists (u32_bytes 1 ++ u32_bytes r ++ u32_bytes (CHUNKSIZE / 8) ++ data),
    [c'].
  split; [exact Hsave|]. split.
  { rewrite !length_app, !u32_bytes_length, !Nat2Z.inj_add. lia. }
  split; [exact Hload|]. split.
  { constructor; [|constructor]. unfold c'.
    rewrite length_app, length_take, length_replicate. fold q. lia. }
  split; [reflexivity|].
  intros i Hi.
  assert (i / CHUNKSIZE = 0) as Ed by (apply Z.div_small; lia).
  assert (i mod CHUNKSIZE = i) as Em by (apply Z.mod_small; lia).
  assert (0 <= i / 32 < nw).
  { split; [apply Z.div_pos; lia|]. apply Z.div_lt_upper_bound; lia. }
  unfold ChunkArrayBool.operator_index, ChunkArrayBool.word_at. cbv zeta.
  rewrite Ed, Em. change ([c'] !! Z.to_nat 0) with (Some c').
  change ([c] !! Z.to_nat 0) with (Some c). cbv iota.
  unfold c'. rewrite lookup_app_l by (rewrite length_take; lia).
  rewrite lookup_take_lt by lia. reflexivity.
Qed.

End BoolStream.

Lemma save_bool_full_chunks_overrun_witness :
  let t := [[5; 7]; [4294967295; 1]] in
  let k := Z.of_nat (length t) in
  exists nbytes,
    last (ChunkArrayBool.save_requests 64 t (k * 64))
    = Some (ChunkArrayBool.WriteChunk (k - 1) nbytes) /\
    64 / 8 < nbytes /\
    ChunkArrayBool.save_assert 64 t (k * 64) = true /\
    ChunkArrayBool.save 64 t (k * 64) = None.
Proof.
  intros t.
  apply (save_bool_full_chunks_overrun 64 ltac:(lia) ltac:(reflexivity)
           ltac:(lia) t).
  - repeat constructor.
  - simpl. lia.
  - simpl. lia.
Defined.

Lemma save_load_bool_one_chunk_witness :
  let c := [5; 4294967295] in
  exists fs t',
    ChunkArrayBool.save 64 [c] 40 = Some fs /\
    Z.of_nat (length fs) = 12 + ChunkArrayBool.round_nbLines 40 / 8 /\
    ChunkArrayBool.load 64 fs [] = Some (true, t', []) /\
    ChunkArrayBool.wf 64 t' /\ ChunkArrayBool.getNbChunks t' = 1 /\
    forall i, 0 <= i < 40 ->
      ChunkArrayBool.operator_index 64 t' i
      = ChunkArrayBool.operator_index 64 [c] i.
Proof.
  intros c.
  apply (save_load_bool_one_chunk 64 ltac:(lia) ltac:(reflexivity)
           ltac:(lia) c 40).
  - repeat constructor.
  - repeat constructor; lia.
  - lia.
Defined.

(** ** The traversals of the surface exporters *)

Section ExportPasses.

Import MapExportPasses.

(** The first pass visits the vertices of all faces in one sequence. *)
Lemma first_pass_concat (count0 : Z) (faces : list (list Z)) :
  first_pass count0 faces
  = foldl visit_vertex (∅, count0, []) (concat faces).
Proof.
  unfold first_pass. generalize (∅ : gmap Z Z, count0, @nil Z).
  induction faces as [|f faces IH]; intros st; [reflexivity|].
  cbn [foldl concat]. rewrite foldl_app. apply IH.
Qed.

Lemma numbered_step (count0 : Z) (l : list Z) (v : Z)
    (st : gmap Z Z * Z * list Z) :
  0 <= count0 -> count0 + Z.of_nat (length l) < UINT_MAX ->
  numbered count0 l st -> numbered count0 (l ++ [v]) (visit_vertex st v).
Proof.
  intros Hc0 Hbound. destruct st as [[ids count] written].
  intros (Hw & Hc & Hlen & Hd & He). unfold visit_vertex.
  assert (v ∈ written <-> v ∈ reverse l) as Hmem
    by (rewrite Hw, elem_of_reverse; apply elem_of_remove_dups).
  assert (UINT_MAX < 2 ^ 32) as HU by reflexivity.
  destruct (decide (v ∈ written)) as [Hin|Hout].
  - destruct (proj1 (list_elem_of_lookup written v) Hin) as [k Hk].
    pose proof (lookup_lt_Some _ _ _ Hk) as Hklt.
    assert (ids_at ids v = count0 + Z.of_nat k) as ->
      by (unfold ids_at; rewrite (Hd k v Hk); reflexivity).
    destruct (Z.eqb_spec (count0 + Z.of_nat k) UINT_MAX); [lia|].
    unfold numbered. rewrite reverse_snoc. cbn [remove_dups].
    destruct (decide_rel elem_of v (reverse l)) as [_|Hr];
      [|exfalso; apply Hr, Hmem; exact Hin].
    rewrite length_app. cbn [length].
    repeat split; try assumption. lia.
  - assert (ids_at ids v = UINT_MAX) as ->
      by (unfold ids_at; rewrite (He v Hout); reflexivity).
    rewrite Z.eqb_refl. unfold numbered.
    rewrite reverse_snoc. cbn [remove_dups].
    destruct (decide_rel elem_of v (reverse l)) as [Hr|_];
      [exfalso; apply Hout, Hmem; exact Hr|].
    rewrite reverse_cons, <- Hw, !length_app. cbn [length].
    split; [reflexivity|]. split.
    { rewrite wrap32_small by lia. lia. }
    split; [lia|]. split.
    + intros k v' Hk. destruct (decide (k < length written)%nat) as [Hlt|Hge].
      * rewrite lookup_app_l in Hk by exact Hlt.
        assert (v' <> v).
        { intros ->. apply Hout. eapply list_elem_of_lookup_2. exact Hk. }
        rewrite lookup_insert_ne by congruence. apply Hd. exact Hk.
      * pose proof (lookup_lt_Some _ _ _ Hk) as Hklt.
        rewrite length_app in Hklt. cbn [length] in Hklt.
        assert (k = length written) as -> by lia.
        rewrite list_lookup_middle in Hk by reflexivity.
        injection Hk as <-. rewrite lookup_insert_eq. f_equal. lia.
    + intros v' Hv'. rewrite elem_of_app, list_elem_of_singleton in Hv'.
      rewrite lookup_insert_ne by (intros ->; tauto).
      apply He. tauto.
Qed.

Lemma numbered_foldl (count0 : Z) (l : list Z) :
  0 <= count0 -> count0 + Z.of_nat (length l) < UINT_MAX ->
  numbered count0 l (foldl visit_vertex (∅, count0, []) l).
Proof.
  intros Hc0. induction l as [|v l IH] using rev_ind; intros Hbound.
  - cbn [foldl]. unfold numbered. cbn [length].
    repeat split; try reflexivity; try lia.
    + intros k v Hk. discriminate.
  - rewrite length_app in Hbound. cbn [length] in Hbound.
    rewrite foldl_app. cbn [foldl].
    apply numbered_step; [exact Hc0 | lia | apply IH; lia].
Qed.

(** X17.  The first pass of the exporters writes each vertex of the faces
    once, in the order of first visit, and numbers the vertices
    consecutively from the initial value of [count]; a vertex on no face
    keeps [UINT_MAX]. *)
Theorem first_pass_numbering (count0 : Z) (faces : list (list Z)) :
  0 <= count0 ->
  count0 + Z.of_nat (length (concat faces)) < UINT_MAX ->
  exists ids count written,
    first_pass count0 faces = (ids, count, written) /\
    written = reverse (remove_dups (reverse (concat faces))) /\
    NoDup written /\
    count = count0 + Z.of_nat (length written) /\
    (forall k v, written !! k = Some v ->
                 ids_at ids v = count0 + Z.of_nat k) /\
    (forall v, v ∉ concat faces -> ids_at ids v = UINT_MAX).
Proof.
  intros Hc0 Hbound.
  pose proof (numbered_foldl count0 (concat faces) Hc0 Hbound) as Hnum.
  rewrite <- first_pass_concat in Hnum.
  destruct (first_pass count0 faces) as [[ids count] written].
  destruct Hnum as (Hw & Hc & Hlen & Hd & He).
  exists ids, count, written. split; [reflexivity|].
  split; [exact Hw|]. split.
  { rewrite Hw, reverse_Permutation. apply NoDup_remove_dups. }
  split; [exact Hc|]. split.
  - intros k v Hk. unfold ids_at. rewrite (Hd k v Hk). reflexivity.
  - intros v Hv. unfold ids_at. rewrite He; [reflexivity|].
    intros Hin. apply Hv.
    rewrite Hw, elem_of_reverse, elem_of_remove_dups, elem_of_reverse in Hin.
    exact Hin.
Qed.

(** X18.  In the second pass of the exporters the valence written for a
    face is its number of vertices, and the index written for each of its
    vertices is the rank at which the first pass wrote that vertex, below
    the final [count]. *)
Theorem second_pass_indices (count0 : Z) (faces : list (list Z)) :
  0 <= count0 ->
  count0 + Z.of_nat (length (concat faces)) < UINT_MAX ->
  exists ids count written,
    first_pass count0 faces = (ids, count, written) /\
    forall f, f ∈ faces ->
      (face_prim ids f).1 = Z.of_nat (length f) /\
      length (face_prim ids f).2 = length f /\
      forall j v, f !! j = Some v ->
        exists k,
          (face_prim ids f).2 !! j = Some (count0 + Z.of_nat k) /\
          written !! k = Some v /\
          count0 + Z.of_nat k < count.
Proof.
  intros Hc0 Hbound.
  pose proof (numbered_foldl count0 (concat faces) Hc0 Hbound) as Hnum.
  rewrite <- first_pass_concat in Hnum.
  destruct (first_pass count0 faces) as [[ids count] written].
  destruct Hnum as (Hw & Hc & Hlen & Hd & He).
  exists ids, count, written. split; [reflexivity|].
  intros f Hf. unfold face_prim. cbn [fst snd].
  assert (UINT_MAX < 2 ^ 32) as HU by reflexivity.
  assert (length f <= length (concat faces))%nat as Hlf.
  { apply list_elem_of_split in Hf as (l1 & l2 & ->).
    rewrite concat_app. cbn [concat]. rewrite !length_app. lia. }
  split; [apply wrap32_small; lia|].
  split; [apply length_map|].
  intros j v Hj.
  assert (v ∈ written) as Hin.
  { rewrite Hw, elem_of_reverse, elem_of_remove_dups, elem_of_reverse.
    apply list_elem_of_In, in_concat. exists f.
    split; apply list_elem_of_In; [exact Hf|].
    eapply list_elem_of_lookup_2. exact Hj. }
  destruct (proj1 (list_elem_of_lookup written v) Hin) as [k Hk].
  pose proof (lookup_lt_Some _ _ _ Hk) as Hklt.
  exists k. split; [|split; [exact Hk | lia]].
  rewrite list_lookup_fmap, Hj. cbn [fmap option_fmap option_map].
  unfold ids_at. rewrite (Hd k v Hk). reflexivity.
Qed.

Variable swap_endianness_native_big : Z -> Z.

Lemma buffer_face_foldl (ids : gmap Z Z) (faces : list (list Z)) :
  forall (buffer_prims : list Z) (fp : list byte),
    let st := foldl (buffer_face swap_endianness_native_big ids)
                (buffer_prims, fp) faces in
    st.2 ++ flat_map u32_bytes st.1
    = fp ++ flat_map u32_bytes
              (buffer_prims
                 ++ flat_map (face_words swap_endianness_native_big ids) faces).
Proof.
  induction faces as [|f faces IH]; intros buffer_prims fp.
  - cbn [foldl flat_map fst snd]. rewrite app_nil_r. reflexivity.
  - cbn [foldl flat_map]. cbv zeta in IH.
    destruct (buffer_face swap_endianness_native_big ids (buffer_prims, fp) f)
      as [buffer1 fp1] eqn:E.
    rewrite IH. unfold buffer_face in E.
    destruct (BUFFER_SZ <=? _); injection E as <- <-.
    + cbn [app]. rewrite <- app_assoc, <- flat_map_app, <- app_assoc.
      reflexivity.
    + rewrite <- app_assoc. reflexivity.
Qed.

(** X19.  Buffering does not change what the second pass of
    [export_off_bin] writes: the output is the words of the faces in face
    order, whenever the buffer was flushed. *)
Theorem second_pass_bin_output (ids : gmap Z Z) (faces : list (list Z))
    (fp : list byte) :
  second_pass_bin swap_endianness_native_big ids faces fp
  = fp ++ flat_map u32_bytes
            (flat_map (face_words swap_endianness_native_big ids) faces).
Proof.
  unfold second_pass_bin.
  pose proof (buffer_face_foldl ids faces [] fp) as Hinv. cbv zeta in Hinv.
  destruct (foldl _ _ faces) as [buffer_prims fp'].
  cbn [fst snd app] in Hinv. rewrite <- Hinv.
  destruct buffer_prims; [|reflexivity].
  cbn [flat_map]. rewrite app_nil_r. reflexivity.
Qed.

End ExportPasses.

Lemma first_pass_numbering_witness :
  let faces := [[10; 11; 12]; [12; 11; 13]] in
  exists ids count written,
    MapExportPasses.first_pass 0 faces = (ids, count, written) /\
    written = reverse (remove_dups (reverse (concat faces))) /\
    NoDup written /\
    count = 0 + Z.of_nat (length written) /\
    (forall k v, written !! k = Some v ->
                 MapExportPasses.ids_at ids v = 0 + Z.of_nat k) /\
    (forall v, v ∉ concat faces ->
               MapExportPasses.ids_at ids v = MapExportPasses.UINT_MAX).
Proof.
  intros faces.
  apply (first_pass_numbering 0 faces).
  - lia.
  - reflexivity.
Defined.

Lemma second_pass_indices_witness :
  let faces := [[10; 11; 12]; [12; 11; 13]] in
  exists ids count written,
    MapExportPasses.first_pass 1 faces = (ids, count, written) /\
    forall f, f ∈ faces ->
      (MapExportPasses.face_prim ids f).1 = Z.of_nat (length f) /\
      length (MapExportPasses.face_prim ids f).2 = length f /\
      forall j v, f !! j = Some v ->
        exists k,
          (MapExportPasses.face_prim ids f).2 !! j = Some (1 + Z.of_nat k) /\
          written !! k = Some v /\
          1 + Z.of_nat k < count.
Proof.
  intros faces.
  apply (second_pass_indices 1 faces).
  - lia.
  - reflexivity.
Defined.

(** ** The calls of the tetgen importer *)

Section TetgenImportCalls.

Import TetgenStructureIO TetgenCalls.

Context {float64 VEC3 Base : Type}.
Context `{VI : @VolumeImport float64 VEC3 Base}.

#[local] Abbreviation importer := (@TetgenStructureIO.importer VEC3 Base).

Lemma index_middle {A : Type} (pre : list A) (x : A) (post : list A)
    (k : Z) (s : importer) :
  k = Z.of_nat (length pre) ->
  index (pre ++ x :: post) k s = Some (x, s).
Proof.
  intros ->. unfold index.
  destruct (Z.ltb_spec (Z.of_nat (length pre)) 0); [lia|].
  rewrite Nat2Z.id, list_lookup_middle by reflexivity. reflexivity.
Qed.

Lemma create_vertices_calls (n : nat) :
  forall (body pre post : list float64) (p : Z) (vi : list Z) (s : importer),
    p = Z.of_nat (length pre) -> length body = (3 * n)%nat ->
    exists ids s',
      create_vertices n (pre ++ body ++ post) p vi s = Some (vi ++ ids, s') /\
      length ids = n /\
      extends s s' (vertex_calls ids body).
Proof.
  induction n as [|n IH]; intros body pre post p vi s Hp Hlen.
  - destruct body; [|discriminate]. exists [], s. cbn [create_vertices].
    unfold extends. rewrite !app_nil_r. repeat split; reflexivity.
  - destruct body as [|p0 [|p1 [|p2 body]]]; try (cbn [length] in Hlen; lia).
    cbn [create_vertices]. unfold mbind, M_bind.
    unfold insert_lines_1 at 1. unfold on_base at 1. cbv beta zeta.
    set (r := base_insert_lines_1 (base s)).
    set (s1 := {| nb_vertices_ := nb_vertices_ s;
                  nb_volumes_ := nb_volumes_ s; base := r.2;
                  calls := calls s ++ [CallInsertLines r.1] |}).
    cbn [app].
    rewrite (index_middle pre p0 _ p s1 Hp).
    replace (pre ++ p0 :: p1 :: p2 :: body ++ post)
      with ((pre ++ [p0]) ++ p1 :: p2 :: body ++ post)
      by (rewrite <- app_assoc; reflexivity).
    rewrite (index_middle (pre ++ [p0]) p1 _ (p + 1) s1)
      by (rewrite length_app; cbn [length]; lia).
    replace ((pre ++ [p0]) ++ p1 :: p2 :: body ++ post)
      with ((pre ++ [p0; p1]) ++ p2 :: body ++ post)
      by (rewrite <- !app_assoc; reflexivity).
    rewrite (index_middle (pre ++ [p0; p1]) p2 _ (p + 2) s1)
      by (rewrite length_app; cbn [length]; lia).
    unfold set_position at 1. unfold on_base at 1. cbv beta zeta.
    set (s2 := {| nb_vertices_ := nb_vertices_ s1;
                  nb_volumes_ := nb_volumes_ s1;
                  base := _; calls := _ |}).
    replace ((pre ++ [p0; p1]) ++ p2 :: body ++ post)
      with ((pre ++ [p0; p1; p2]) ++ body ++ post)
      by (rewrite <- !app_assoc; reflexivity).
    destruct (IH body (pre ++ [p0; p1; p2]) post (p + 3) (vi ++ [r.1]) s2)
      as (ids & s' & Hrun & Hids & (Hv & Hw & Hc));
      [rewrite length_app; cbn [length]; lia | cbn [length] in Hlen; lia |].
    exists (r.1 :: ids), s'. split; [|split].
    + rewrite Hrun, <- app_assoc. reflexivity.
    + cbn [length]. rewrite Hids. reflexivity.
    + unfold extends. rewrite Hv, Hw, Hc. subst s2 s1.
      cbn [nb_vertices_ nb_volumes_ calls].
      unfold vertex_calls. cbn [triples zip zip_with flat_map].
      rewrite <- !app_assoc. repeat split; reflexivity.
Qed.

Lemma create_tetrahedrons_calls (n : nat) :
  forall (body pre post : list Z) (first t : Z) (vi : list Z) (s : importer),
    t = Z.of_nat (length pre) -> length body = (4 * n)%nat ->
    Forall (fun k => first <= k < first + Z.of_nat (length vi)) body ->
    exists s',
      create_tetrahedrons n (pre ++ body ++ post) first t vi s
      = Some (tt, s') /\
      extends s s' (tetra_calls vi first body).
Proof.
  induction n as [|n IH]; intros body pre post first t vi s Ht Hlen Hin.
  - destruct body; [|discriminate]. exists s. cbn [create_tetrahedrons].
    unfold extends. rewrite app_nil_r. repeat split; reflexivity.
  - destruct body as [|t0 [|t1 [|t2 [|t3 body]]]];
      try (cbn [length] in Hlen; lia).
    inversion Hin as [|? ? H0 Hin0]; subst.
    inversion Hin0 as [|? ? H1 Hin1]; subst.
    inversion Hin1 as [|? ? H2 Hin2]; subst.
    inversion Hin2 as [|? ? H3 Hin3]; subst.
    assert (forall k, first <= k < first + Z.of_nat (length vi) ->
              index vi (k - first) s = Some (corner vi first k, s)) as Hcorner.
    { intros k Hk.
      destruct (index_in_range vi (k - first) s) as (x & E & L); [lia|].
      rewrite E. unfold corner. rewrite L. reflexivity. }
    cbn [create_tetrahedrons]. unfold mbind, M_bind. cbn [app].
    rewrite (index_middle pre t0 _ _ s eq_refl), (Hcorner t0 H0).
    replace (pre ++ t0 :: t1 :: t2 :: t3 :: body ++ post)
      with ((pre ++ [t0]) ++ t1 :: t2 :: t3 :: body ++ post)
      by (rewrite <- app_assoc; reflexivity).
    rewrite (index_middle (pre ++ [t0]) t1 _ _ s)
      by (rewrite length_app; cbn [length]; lia).
    rewrite (Hcorner t1 H1).
    replace ((pre ++ [t0]) ++ t1 :: t2 :: t3 :: body ++ post)
      with ((pre ++ [t0; t1]) ++ t2 :: t3 :: body ++ post)
      by (rewrite <- !app_assoc; reflexivity).
    rewrite (index_middle (pre ++ [t0; t1]) t2 _ _ s)
      by (rewrite length_app; cbn [length]; lia).
    rewrite (Hcorner t2 H2).
    replace ((pre ++ [t0; t1]) ++ t2 :: t3 :: body ++ post)
      with ((pre ++ [t0; t1; t2]) ++ t3 :: body ++ post)
      by (rewrite <- !app_assoc; reflexivity).
    rewrite (index_middle (pre ++ [t0; t1; t2]) t3 _ _ s)
      by (rewrite length_app; cbn [length]; lia).
    rewrite (Hcorner t3 H3).
    unfold add_tetra at 1. unfold on_base at 1. cbv beta zeta.
    set (s1 := {| nb_vertices_ := nb_vertices_ s;
                  nb_volumes_ := nb_volumes_ s;
                  base := _; calls := _ |}).
    replace ((pre ++ [t0; t1; t2]) ++ t3 :: body ++ post)
      with ((pre ++ [t0; t1; t2; t3]) ++ body ++ post)
      by (rewrite <- !app_assoc; reflexivity).
    destruct (IH body (pre ++ [t0; t1; t2; t3]) post first
                (Z.of_nat (length pre) + 4) vi s1)
      as (s' & Hrun & (Hv & Hw & Hc));
      [rewrite length_app; cbn [length]; lia | cbn [length] in Hlen; lia
       | exact Hin3 |].
    exists s'. split; [exact Hrun|].
    unfold extends. rewrite Hv, Hw, Hc. subst s1.
    cbn [nb_vertices_ nb_volumes_ calls].
    unfold tetra_calls. cbn [quads map].
    rewrite <- !app_assoc. repeat split; reflexivity.
Qed.

(** X20.  On a well-formed tetgen output with points and tetrahedra,
    [import_file_impl] adds the position attribute, then for each point in
    order inserts a line and sets its position from three consecutive
    coordinates, then adds one tetrahedron per four consecutive corners on
    the lines of those points; the two counters are set and it returns
    true. *)
Theorem import_file_impl_calls (volume_ : tetgenio) (s : importer) :
  tetgen_wf volume_ ->
  numberofpoints volume_ <> 0 -> numberoftetrahedra volume_ <> 0 ->
  exists ids s',
    import_file_impl volume_ s = Some (true, s') /\
    Z.of_nat (length ids) = numberofpoints volume_ /\
    nb_vertices_ s' = numberofpoints volume_ /\
    nb_volumes_ s' = numberoftetrahedra volume_ /\
    calls s'
    = calls s
        ++ CallAddAttributePosition
        :: vertex_calls ids (pointlist volume_)
        ++ tetra_calls ids (firstnumber volume_) (tetrahedronlist volume_).
Proof.
  intros (Hnp & Hnt & Hpts & Htets & Hin) Hp Ht.
  unfold import_file_impl, mbind, M_bind.
  unfold set_nb_vertices, set_nb_volumes, get_nb_vertices, get_nb_volumes.
  cbn [nb_vertices_ nb_volumes_ base calls].
  rewrite (wrap32_small (numberofpoints volume_)) by lia.
  rewrite (wrap32_small (numberoftetrahedra volume_)) by lia.
  assert ((numberofpoints volume_ =? 0) || (numberoftetrahedra volume_ =? 0)
          = false) as ->.
  { destruct (Z.eqb_spec (numberofpoints volume_) 0); [contradiction|].
    destruct (Z.eqb_spec (numberoftetrahedra volume_) 0); [contradiction|].
    reflexivity. }
  unfold add_attribute_position at 1. unfold on_base at 1. cbv beta zeta.
  cbn [nb_vertices_ nb_volumes_ base calls].
  set (s1 := {| nb_vertices_ := numberofpoints volume_;
                nb_volumes_ := numberoftetrahedra volume_;
                base := _; calls := _ |}).
  destruct (create_vertices_calls (Z.to_nat (numberofpoints volume_))
              (pointlist volume_) [] [] 0 [] s1)
    as (ids & s2 & Hrun1 & Hids & (Hv1 & Hw1 & Hc1)); [reflexivity | lia |].
  cbn [app] in Hrun1. rewrite app_nil_r in Hrun1.
  rewrite Hrun1, Hw1. cbn [nb_volumes_ s1].
  destruct (create_tetrahedrons_calls (Z.to_nat (numberoftetrahedra volume_))
              (tetrahedronlist volume_) [] [] (firstnumber volume_) 0
              ids s2)
    as (s3 & Hrun2 & (Hv2 & Hw2 & Hc2)); [reflexivity | lia | |].
  { rewrite Hids, Z2Nat.id by lia. exact Hin. }
  cbn [app] in Hrun2. rewrite app_nil_r in Hrun2. rewrite Hrun2.
  exists ids, s3. split; [reflexivity|].
  split; [lia|]. rewrite Hv2, Hv1, Hw2, Hw1, Hc2, Hc1. subst s1.
  cbn [nb_vertices_ nb_volumes_ calls].
  rewrite <- !app_assoc. repeat split; reflexivity.
Qed.

End TetgenImportCalls.

Lemma import_file_impl_calls_witness :
  let v := TetgenStructureIO.one_tetrahedron in
  let s := TetgenStructureIO.empty_importer in
  let VI := TetgenStructureIO.line_counter in
  exists ids s',
    TetgenStructureIO.import_file_impl v s = Some (true, s') /\
    Z.of_nat (length ids) = TetgenStructureIO.numberofpoints v /\
    TetgenStructureIO.nb_vertices_ s' = TetgenStructureIO.numberofpoints v /\
    TetgenStructureIO.nb_volumes_ s' = TetgenStructureIO.numberoftetrahedra v /\
    TetgenStructureIO.calls s'
    = TetgenStructureIO.calls s
        ++ TetgenStructureIO.CallAddAttributePosition
        :: TetgenCalls.vertex_calls ids (TetgenStructureIO.pointlist v)
        ++ TetgenCalls.tetra_calls ids (TetgenStructureIO.firstnumber v)
             (TetgenStructureIO.tetrahedronlist v).
Proof.
  intros v s VI.
  apply (import_file_impl_calls (VI := VI) v s).
  - unfold TetgenStructureIO.tetgen_wf. simpl.
    repeat split; try lia; repeat (constructor; [lia|]); constructor.
  - simpl. lia.
  - simpl. lia.
Defined.
